(** * resume-critic: the job-description parser, the keyword matcher and the
      ATS compatibility checker, embedded and verified.

    Sources embedded here:
      - src/checkers/ats_compatibility.py   (class ATSCompatibilityChecker)
      - src/checkers/keyword_matcher.py     (class KeywordMatcher)
      - src/parsers/jd_parser.py            (class JobDescriptionParser)
      - src/checkers/ats_detector.py        (class ATSSystemDetector)
      - src/parsers/structure_analyzer.py   (StructureAnalyzer.identify_sections)

    Conventions of the embedding.
      - A Python [str] is a list of Unicode code points ([N]).  The character
        classifications ([isupper], [isalpha], [isspace], the regex classes
        [\w], [\s], [\d]) and [lower] are given exactly on the ASCII range;
        code points from 128 on are classified as symbols (no case, not
        alphanumeric, not white space).  The non-ASCII code points the
        sources name (bullets, the en dash) are symbols in Unicode too.
      - The percentages of the matcher are given twice.  The report record
        holds them in exact arithmetic ([Q]; [round(x, 1)] rounds to the
        nearest tenth, a tie to the even one): what the counts determine.
        [Doubles] gives the numbers the program stores, binary64 doubles,
        each operation rounded to the nearest double; a finite double is
        given by its exact value.
      - A Python [dict] is an association list in insertion order; a Python
        [set] is a duplicate-free list in first-insertion order (Python leaves
        the iteration order of a set unspecified).
      - An instance with mutable attributes is a record threaded through a
        state monad; an operation that can raise returns a [result].
      - What the sources get from other libraries is an input of the
        instance: the document python-docx loads, the rules table read from
        YAML, the tokens of spaCy.  Regular expressions are run by a
        backtracking matcher that tries alternatives in the order of
        Python's [re].

    The definitions come first, module by module; the facts about them
    follow. *)

From Stdlib Require Import List NArith ZArith QArith Qround Qabs Bool Lia Lqa Ascii.
From Stdlib Require String.
Import ListNotations String.StringSyntax.

Close Scope Q_scope.
Set Implicit Arguments.

(* ===================================================================== *)
(** * Python strings *)
(* ===================================================================== *)

Module PyStr.

Definition char := N.
Bind Scope N_scope with char.
Definition str := list char.

(** An ASCII literal as a Python string. *)
Definition py (s : String.string) : str :=
  map N_of_ascii (String.list_ascii_of_string s).
Arguments py s%_string_scope.

Definition between (lo hi c : N) : bool := (N.leb lo c && N.leb c hi)%bool.

Definition isupper (c : char) : bool := between 65 90 c.
Definition islower (c : char) : bool := between 97 122 c.
Definition isalpha (c : char) : bool := (isupper c || islower c)%bool.
Definition isdigit (c : char) : bool := between 48 57 c.
(** [str.isspace] and the regex class [\s]: TAB, LF, VT, FF, CR, the four
    separators FS..US and the space. *)
Definition isspace (c : char) : bool :=
  (between 9 13 c || between 28 32 c)%bool.
(** The regex class [\w]. *)
Definition isword (c : char) : bool :=
  (isalpha c || isdigit c || N.eqb c 95)%bool.

Definition is_word_opt (o : option char) : bool :=
  match o with Some c => isword c | None => false end.

Definition lower_char (c : char) : char :=
  if isupper c then (c + 32)%N else c.

Definition lower (s : str) : str := map lower_char s.

Fixpoint str_eqb (a b : str) : bool :=
  match a, b with
  | [], [] => true
  | x :: a', y :: b' => (N.eqb x y && str_eqb a' b')%bool
  | _, _ => false
  end.

(** The truth value of a list, and of an optional value. *)
Definition nonempty {A : Type} (l : list A) : bool :=
  match l with [] => false | _ :: _ => true end.

Definition is_some {A : Type} (o : option A) : bool :=
  match o with Some _ => true | None => false end.

(** [x in l] for a list of strings. *)
Definition mem (x : str) (l : list str) : bool := existsb (str_eqb x) l.

(** [list(set(l))]: the first occurrences, in order. *)
Fixpoint dedup_by {A : Type} (eqb : A -> A -> bool) (l : list A) : list A :=
  match l with
  | [] => []
  | x :: l' => x :: filter (fun y => negb (eqb x y)) (dedup_by eqb l')
  end.

Definition dedup (l : list str) : list str := dedup_by str_eqb l.

(** [s.add(x)] on a set kept in first-insertion order. *)
Definition set_add (x : str) (s : list str) : list str :=
  if mem x s then s else s ++ [x].

(** [s.rfind(c)] for a one-character needle, [-1] when absent. *)
Fixpoint rfind_from (c : char) (s : str) (i : Z) (last : Z) : Z :=
  match s with
  | [] => last
  | x :: s' => rfind_from c s' (i + 1) (if N.eqb x c then i else last)
  end.

Definition rfind (c : char) (s : str) : Z := rfind_from c s 0 (-1).

Fixpoint startswith (p s : str) : bool :=
  match p, s with
  | [], _ => true
  | x :: p', y :: s' => (N.eqb x y && startswith p' s')%bool
  | _ :: _, [] => false
  end.

(** [s.find(sub)]: the least offset at which [sub] occurs. *)
Fixpoint find_from (sub s : str) (i : nat) : option nat :=
  if startswith sub s then Some i
  else match s with
       | [] => None
       | _ :: s' => find_from sub s' (S i)
       end.

Definition find (sub s : str) : option nat := find_from sub s 0.

(** [sub in s]. *)
Definition contains (sub s : str) : bool :=
  match find sub s with Some _ => true | None => false end.

(** [s[a:b]] for [0 <= a], [0 <= b]. *)
Definition slice (s : str) (a b : nat) : str := firstn (b - a) (skipn a s).

Fixpoint dropwhile (p : char -> bool) (s : str) : str :=
  match s with
  | [] => []
  | c :: s' => if p c then dropwhile p s' else s
  end.

Definition lstrip (s : str) : str := dropwhile isspace s.
Definition rstrip (s : str) : str := rev (dropwhile isspace (rev s)).
Definition strip (s : str) : str := rstrip (lstrip s).

(** [s.split(sep)] for a one-character separator: empty pieces are kept and
    there is always at least one piece. *)
Fixpoint split_on (sep : char) (s : str) : list str :=
  match s with
  | [] => [[]]
  | c :: s' =>
      if N.eqb c sep then [] :: split_on sep s'
      else match split_on sep s' with
           | [] => [[c]]
           | w :: ws => (c :: w) :: ws
           end
  end.

(** [s.split()]: maximal runs of non-space characters. *)
Fixpoint split_ws_aux (s : str) (cur : str) : list str :=
  match s with
  | [] => match cur with [] => [] | _ => [rev cur] end
  | c :: s' =>
      if isspace c
      then match cur with
           | [] => split_ws_aux s' []
           | _ => rev cur :: split_ws_aux s' []
           end
      else split_ws_aux s' (c :: cur)
  end.

Definition split (s : str) : list str := split_ws_aux s [].

(** [sep.join(l)]. *)
Fixpoint join (sep : str) (l : list str) : str :=
  match l with
  | [] => []
  | [x] => x
  | x :: l' => x ++ sep ++ join sep l'
  end.

(** Lexicographic order on code points, the order of [sorted] on strings. *)
Fixpoint str_leb (a b : str) : bool :=
  match a, b with
  | [], _ => true
  | _ :: _, [] => false
  | x :: a', y :: b' =>
      if N.ltb x y then true
      else if N.ltb y x then false
      else str_leb a' b'
  end.

(** [str(n)] for a non-negative integer. *)
Fixpoint digits (fuel : nat) (n : N) (acc : str) : str :=
  match fuel with
  | O => acc
  | S fuel' =>
      let acc' := (48 + N.modulo n 10)%N :: acc in
      if N.ltb n 10 then acc' else digits fuel' (N.div n 10) acc'
  end.

Definition str_N (n : N) : str := digits (S (N.to_nat (N.log2 n))) n [].

Definition str_Z (z : Z) : str :=
  match z with
  | Zneg p => 45%N :: str_N (Npos p)
  | _ => str_N (Z.to_N z)
  end.

End PyStr.

Import PyStr.

(* ===================================================================== *)
(** * Results of operations that can raise *)
(* ===================================================================== *)

Inductive exn :=
| ValueError (msg : str)
| IndexError
| AttributeError.

Inductive result (A : Type) :=
| Ok (a : A)
| Raise (e : exn).

Arguments Ok {A} a.
Arguments Raise {A} e.

Definition rbind {A B : Type} (m : result A) (k : A -> result B) : result B :=
  match m with
  | Ok a => k a
  | Raise e => Raise e
  end.

Declare Scope result_scope.
Delimit Scope result_scope with result.
Notation "x <- m ;; k" := (rbind m (fun x => k))
  (at level 61, m at next level, right associativity) : result_scope.

(** [l[i]] for [0 <= i]. *)
Definition item {A : Type} (l : list A) (i : nat) : result A :=
  match nth_error l i with
  | Some x => Ok x
  | None => Raise IndexError
  end.

(** [s.index(sub)]. *)
Definition index (sub s : str) : result nat :=
  match find sub s with
  | Some i => Ok i
  | None => Raise (ValueError (py "substring not found"))
  end.

(* ===================================================================== *)
(** * src/checkers/ats_compatibility.py *)
(* ===================================================================== *)

Module ATSCompatibilityChecker.

Inductive severity_level := HIGH | MEDIUM | LOW.

(** One entry of [self.issues]. *)
Record issue_record := mk_issue {
  severity : severity_level;
  issue : str;
  deduction : Z
}.

Record scoring_weights := {
  w_file_format : Z;
  w_layout : Z;
  w_font : Z;
  w_graphics : Z;
  w_headers_footers : Z
}.

(** The class attribute [SCORING_WEIGHTS]. *)
Definition SCORING_WEIGHTS : scoring_weights :=
  {| w_file_format := 30; w_layout := 25; w_font := 10;
     w_graphics := 20; w_headers_footers := 15 |}.

(** The rules table, [self.rules], with the keys the checker and its default
    table use.  [size_range] is read with [.get(key, default)], so both of
    its keys are optional. *)
Record size_range := { range_min : option Z; range_max : option Z }.

Record rules_scoring := {
  file_format_weight : Z;
  layout_weight : Z;
  font_weight : Z;
  graphics_weight : Z;
  headers_weight : Z
}.

Record rules_table := {
  file_formats_allowed : list str;
  file_formats_prohibited : list str;
  fonts_allowed : list str;
  fonts_size_range : size_range;
  scoring : rules_scoring
}.

(** The table [__init__] falls back to when the rules file is not found. *)
Definition default_rules : rules_table :=
  {| file_formats_allowed := [py ".docx"];
     file_formats_prohibited := [py ".pdf"; py ".doc"];
     fonts_allowed := [py "Calibri"; py "Arial"; py "Times New Roman"];
     fonts_size_range := {| range_min := Some 10%Z; range_max := Some 12%Z |};
     scoring := {| file_format_weight := 30; layout_weight := 25;
                   font_weight := 10; graphics_weight := 20;
                   headers_weight := 15 |} |}.

(** The loaded document, as far as the checker reads it.
    [font_size] is [run.font.size] in half-points, the unit the document
    stores it in ([w:sz]); [run.font.size.pt] is half of it.
    [columns] is the outcome of probing [section.columns.count]. *)
Record run := { font_name : option str; font_size : option N }.

Record paragraph := { text : str; runs : list run }.

Inductive columns_probe :=
| NoColumns                 (* [hasattr(section, 'columns')] is false *)
| ColumnsRaises             (* reading the count raises *)
| ColumnsCount (n : Z).

Record section := {
  columns : columns_probe;
  header_paragraphs : list str;   (* the [text] of [section.header.paragraphs] *)
  footer_paragraphs : list str
}.

(** [tables] is [len(doc.tables)]; [rels] lists [rel.target_ref] of
    [doc.part.rels.values()], [None] where reading it raises. *)
Record Document := {
  tables : nat;
  sections : list section;
  paragraphs : list paragraph;
  rels : list (option str)
}.

(** The instance attributes. *)
Record checker := mk_checker {
  cv_path : str;
  issues : list issue_record;
  score : Z;
  rules : rules_table;
  doc : option Document
}.

(** [os.path.splitext] (POSIX): the extension starts at the last dot of the
    last path component, leading dots of that component not counted. *)
Fixpoint all_dots (s : str) : bool :=
  match s with
  | [] => true
  | c :: s' => (N.eqb c 46%N && all_dots s')%bool
  end.

Definition splitext (p : str) : str * str :=
  let sepIndex := rfind 47%N p in
  let dotIndex := rfind 46%N p in
  if (sepIndex <? dotIndex)%Z then
    let filenameIndex := Z.to_nat (sepIndex + 1) in
    if all_dots (slice p filenameIndex (Z.to_nat dotIndex)) then (p, [])
    else (firstn (Z.to_nat dotIndex) p, skipn (Z.to_nat dotIndex) p)
  else (p, []).

(** [ext.lower() == '.docx'] for the extension of a path. *)
Definition is_docx (path : str) : bool :=
  str_eqb (lower (snd (splitext path))) (py ".docx").

(** [__init__]: [rules_file] is the parsed rules file ([None]: file not
    found), [docx_file] what [Document(cv_path)] loads ([None]: it raises). *)
Definition init (path : str) (rules_file : option rules_table)
    (docx_file : option Document) : result checker :=
  let rules0 := match rules_file with Some r => r | None => default_rules end in
  if is_docx path then
    match docx_file with
    | Some d => Ok (mk_checker path [] 100 rules0 (Some d))
    | None => Raise (ValueError (py "Could not read DOCX file"))
    end
  else Ok (mk_checker path [] 100 rules0 None).

(** ** The state monad of the methods *)

Definition M (A : Type) := checker -> A * checker.

Definition ret {A : Type} (a : A) : M A := fun self => (a, self).

Definition bind {A B : Type} (m : M A) (k : A -> M B) : M B :=
  fun self => let (a, self') := m self in k a self'.

Declare Scope checker_scope.
Delimit Scope checker_scope with checker.
Notation "x <- m ;; k" := (bind m (fun x => k))
  (at level 61, m at next level, right associativity) : checker_scope.
Notation "m ;; k" := (bind m (fun _ => k))
  (at level 61, right associativity) : checker_scope.
Local Open Scope checker_scope.

Definition get_self : M checker := fun self => (self, self).

(** [self.issues.append(i)]. *)
Definition issues_append (i : issue_record) : M unit :=
  fun self => (tt, mk_checker (cv_path self) (issues self ++ [i]) (score self)
                              (rules self) (doc self)).

(** [self.score = v]. *)
Definition set_score (v : Z) : M unit :=
  fun self => (tt, mk_checker (cv_path self) (issues self) v
                              (rules self) (doc self)).

Definition check_file_format : M Z :=
  self <- get_self ;;
  let ext := snd (splitext (cv_path self)) in
  let allowed := file_formats_allowed (rules self) in
  if negb (mem (lower ext) allowed) then
    let deduction0 := (- w_file_format SCORING_WEIGHTS)%Z in
    issues_append
      (mk_issue HIGH
         (py "File format is " ++ ext ++ py ", should be " ++ join (py ", ") allowed)
         (Z.abs deduction0)) ;;
    ret deduction0
  else ret 0%Z.

(** The loop over [self.doc.sections] of [check_layout]; it stops at the
    first section that reports more than one column. *)
Fixpoint layout_columns (secs : list section) : M Z :=
  match secs with
  | [] => ret 0%Z
  | s :: rest =>
      match columns s with
      | ColumnsCount n =>
          if (1 <? n)%Z then
            issues_append (mk_issue HIGH (py "Multi-column layout detected") 10) ;;
            ret 10%Z
          else layout_columns rest
      | NoColumns | ColumnsRaises => layout_columns rest
      end
  end.

Definition check_layout : M Z :=
  self <- get_self ;;
  match doc self with
  | None => ret 0%Z
  | Some d =>
      d1 <- (if (0 <? tables d)%nat then
               issues_append
                 (mk_issue HIGH
                    (py "Found " ++ str_N (N.of_nat (tables d))
                       ++ py " table(s) - ATS may not parse correctly") 15) ;;
               ret 15%Z
             else ret 0%Z) ;;
      d2 <- layout_columns (sections d) ;;
      ret (- (d1 + d2))%Z
  end.

(** [run.font.size.pt]. *)
Definition size_pt (half_points : N) : Q := Z.of_N half_points # 2.

Definition Qlt_bool (x y : Q) : bool := negb (Qle_bool y x).

(** [str(size_pt)]: a whole or a half number of points. *)
Definition str_pt (half_points : N) : str :=
  str_N (N.div half_points 2)
    ++ (if N.even half_points then py ".0" else py ".5").

(** The accumulators of the double loop of [check_fonts]. *)
Record fonts_acc := {
  fonts_used : list str;
  non_standard_fonts : list str;
  invalid_sizes : list N
}.

Definition fonts_run (allowed_fonts : list str) (min_size max_size : Z)
    (acc : fonts_acc) (r : run) : fonts_acc :=
  let acc1 :=
    match font_name r with
    | Some (c :: name) =>
        let nm := c :: name in
        {| fonts_used := set_add nm (fonts_used acc);
           non_standard_fonts :=
             if negb (mem nm allowed_fonts)
             then set_add nm (non_standard_fonts acc)
             else non_standard_fonts acc;
           invalid_sizes := invalid_sizes acc |}
    | Some [] | None => acc
    end in
  match font_size r with
  | Some hp =>
      if N.eqb hp 0 then acc1
      else
        let pt := size_pt hp in
        if (negb (Qeq_bool pt 0)
            && (Qlt_bool pt (inject_Z min_size) || Qlt_bool (inject_Z max_size) pt))%bool
        then {| fonts_used := fonts_used acc1;
                non_standard_fonts := non_standard_fonts acc1;
                invalid_sizes := invalid_sizes acc1 ++ [hp] |}
        else acc1
  | None => acc1
  end.

Definition fonts_scan (allowed_fonts : list str) (min_size max_size : Z)
    (ps : list paragraph) : fonts_acc :=
  fold_left
    (fun acc p => fold_left (fonts_run allowed_fonts min_size max_size) (runs p) acc)
    ps
    {| fonts_used := []; non_standard_fonts := []; invalid_sizes := [] |}.

Definition get_default (o : option Z) (d : Z) : Z :=
  match o with Some v => v | None => d end.

Definition check_fonts : M Z :=
  self <- get_self ;;
  match doc self with
  | None => ret 0%Z
  | Some d =>
      let allowed_fonts := fonts_allowed (rules self) in
      let font_size_range := fonts_size_range (rules self) in
      let min_size := get_default (range_min font_size_range) 10 in
      let max_size := get_default (range_max font_size_range) 12 in
      let acc := fonts_scan allowed_fonts min_size max_size (paragraphs d) in
      d1 <- (match non_standard_fonts acc with
             | _ :: _ =>
                 issues_append
                   (mk_issue MEDIUM
                      (py "Non-standard fonts detected: "
                         ++ join (py ", ") (non_standard_fonts acc))
                      (w_font SCORING_WEIGHTS)) ;;
                 ret (w_font SCORING_WEIGHTS)
             | [] => ret 0%Z
             end) ;;
      d2 <- (match invalid_sizes acc with
             | _ :: _ =>
                 let unique_sizes := dedup_by N.eqb (invalid_sizes acc) in
                 issues_append
                   (mk_issue LOW
                      (py "Font sizes outside recommended range ("
                         ++ str_Z min_size ++ py "-" ++ str_Z max_size ++ py "pt): "
                         ++ join (py ", ") (map str_pt unique_sizes))
                      5) ;;
                 ret 5%Z
             | [] => ret 0%Z
             end) ;;
      ret (- (d1 + d2))%Z
  end.

(** [any(p.text.strip() for p in paragraphs)]. *)
Definition has_content (ps : list str) : bool :=
  existsb (fun t => match strip t with [] => false | _ :: _ => true end) ps.

(** The loop over [self.doc.sections] of [check_headers_footers]. *)
Fixpoint headers_footers_loop (secs : list section) : M Z :=
  match secs with
  | [] => ret 0%Z
  | s :: rest =>
      h <- (if (nonempty (header_paragraphs s) && has_content (header_paragraphs s))%bool
            then issues_append
                   (mk_issue MEDIUM (py "Header contains text - ATS may not read it") 8) ;;
                 ret 8%Z
            else ret 0%Z) ;;
      f <- (if (nonempty (footer_paragraphs s) && has_content (footer_paragraphs s))%bool
            then issues_append
                   (mk_issue MEDIUM (py "Footer contains text - ATS may not read it") 7) ;;
                 ret 7%Z
            else ret 0%Z) ;;
      r <- headers_footers_loop rest ;;
      ret (h + f + r)%Z
  end.

Definition check_headers_footers : M Z :=
  self <- get_self ;;
  match doc self with
  | None => ret 0%Z
  | Some d =>
      deduction0 <- headers_footers_loop (sections d) ;;
      ret (- deduction0)%Z
  end.

(** The guarded loop of [check_graphics]: it stops at the first image, and an
    exception leaves it with [has_graphics] still false. *)
Fixpoint has_graphics (rs : list (option str)) : bool :=
  match rs with
  | [] => false
  | None :: _ => false
  | Some target_ref :: rest =>
      if contains (py "image") (lower target_ref) then true
      else has_graphics rest
  end.

Definition check_graphics : M Z :=
  self <- get_self ;;
  match doc self with
  | None => ret 0%Z
  | Some d =>
      deduction0 <- (if has_graphics (rels d) then
                       issues_append
                         (mk_issue HIGH
                            (py "Images/graphics detected - ATS cannot read these")
                            (w_graphics SCORING_WEIGHTS)) ;;
                       ret (w_graphics SCORING_WEIGHTS)
                     else ret 0%Z) ;;
      ret (- deduction0)%Z
  end.

(** The glyphs of [unusual_bullets], by code point:
    U+2192, U+25BA, U+25AA, U+25AB, U+25A0, U+25A1, U+25C6, U+25C7. *)
Definition unusual_bullets : list str :=
  [[8594%N]; [9658%N]; [9642%N]; [9643%N]; [9632%N]; [9633%N]; [9670%N]; [9671%N]].

Definition check_special_characters : M Z :=
  self <- get_self ;;
  match doc self with
  | None => ret 0%Z
  | Some d =>
      let text0 := join [10%N] (map text (paragraphs d)) in
      let found_unusual := filter (fun b => contains b text0) unusual_bullets in
      match found_unusual with
      | _ :: _ =>
          issues_append
            (mk_issue LOW
               (py "Unusual bullet points detected: " ++ join (py ", ") found_unusual)
               5) ;;
          ret (-5)%Z
      | [] => ret 0%Z
      end
  end.

(** [self.score += m()]. *)
Definition add_to_score (m : M Z) : M unit :=
  v <- m ;;
  self <- get_self ;;
  set_score (score self + v).

Definition calculate_total_score : M Z :=
  set_score 100 ;;
  add_to_score check_file_format ;;
  add_to_score check_layout ;;
  add_to_score check_fonts ;;
  add_to_score check_headers_footers ;;
  add_to_score check_graphics ;;
  add_to_score check_special_characters ;;
  self <- get_self ;;
  ret (Z.max 0 (score self)).

Definition _get_grade (score0 : Z) : str :=
  if (90 <=? score0)%Z then py "A - Excellent"
  else if (80 <=? score0)%Z then py "B - Good"
  else if (70 <=? score0)%Z then py "C - Acceptable"
  else if (60 <=? score0)%Z then py "D - Needs Improvement"
  else py "F - Major Issues".

Definition recommendation_for (i : issue_record) : list str :=
  let issue_lower := lower (issue i) in
  if contains (py "table") issue_lower then
    [py "Remove all tables and use plain text with bullets"]
  else if contains (py "column") issue_lower then
    [py "Convert to single-column layout"]
  else if contains (py "font") issue_lower then
    [py "Change all fonts to Calibri, Arial, or Times New Roman (10-12pt)"]
  else if (contains (py "header") issue_lower || contains (py "footer") issue_lower)%bool then
    [py "Move all header/footer content into main document body"]
  else if (contains (py "image") issue_lower || contains (py "graphic") issue_lower)%bool then
    [py "Remove all images, logos, and graphics"]
  else if contains (py "format") issue_lower then
    [py "Convert file to .docx format"]
  else [].

Definition _get_recommendations : M (list str) :=
  self <- get_self ;;
  ret (dedup (flat_map recommendation_for (issues self))).

(** [sorted(l, key=lambda x: x['deduction'], reverse=True)]: stable, so
    entries of equal deduction keep their order. *)
Fixpoint insert_desc (x : issue_record) (l : list issue_record) : list issue_record :=
  match l with
  | [] => [x]
  | y :: l' =>
      if (deduction x <? deduction y)%Z then y :: insert_desc x l'
      else x :: l
  end.

Definition sorted_by_deduction (l : list issue_record) : list issue_record :=
  fold_right insert_desc [] l.

Record report := {
  report_score : Z;
  report_grade : str;
  report_issues : list issue_record;
  report_recommendations : list str
}.

Definition generate_report : M report :=
  total_score <- calculate_total_score ;;
  self <- get_self ;;
  recs <- _get_recommendations ;;
  ret {| report_score := total_score;
         report_grade := _get_grade total_score;
         report_issues := sorted_by_deduction (issues self);
         report_recommendations := recs |}.

(** ** What each check contributes

    The value a check returns and the entries it appends depend on the
    path, the rules and the document only; they are named here, check by
    check, for the statements below. *)

Definition format_violation (path : str) (r : rules_table) : bool :=
  negb (mem (lower (snd (splitext path))) (file_formats_allowed r)).

Definition format_issues (path : str) (r : rules_table) : list issue_record :=
  if format_violation path r then
    [mk_issue HIGH
       (py "File format is " ++ snd (splitext path) ++ py ", should be "
          ++ join (py ", ") (file_formats_allowed r))
       30]
  else [].

Definition tables_violation (d : Document) : bool := (0 <? tables d)%nat.

Definition multi_column (secs : list section) : bool :=
  existsb (fun s => match columns s with
                    | ColumnsCount n => (1 <? n)%Z
                    | NoColumns | ColumnsRaises => false
                    end) secs.

Definition layout_issues (d : Document) : list issue_record :=
  (if tables_violation d then
     [mk_issue HIGH
        (py "Found " ++ str_N (N.of_nat (tables d))
           ++ py " table(s) - ATS may not parse correctly") 15]
   else [])
  ++ (if multi_column (sections d) then
        [mk_issue HIGH (py "Multi-column layout detected") 10]
      else []).

Definition scan_of (r : rules_table) (d : Document) : fonts_acc :=
  fonts_scan (fonts_allowed r)
    (get_default (range_min (fonts_size_range r)) 10)
    (get_default (range_max (fonts_size_range r)) 12)
    (paragraphs d).

Definition font_violation (r : rules_table) (d : Document) : bool :=
  nonempty (non_standard_fonts (scan_of r d)).

Definition size_violation (r : rules_table) (d : Document) : bool :=
  nonempty (invalid_sizes (scan_of r d)).

Definition font_name_issues (r : rules_table) (d : Document) : list issue_record :=
  if font_violation r d then
    [mk_issue MEDIUM
       (py "Non-standard fonts detected: "
          ++ join (py ", ") (non_standard_fonts (scan_of r d)))
       10]
  else [].

Definition font_size_issues (r : rules_table) (d : Document) : list issue_record :=
  if size_violation r d then
    [mk_issue LOW
       (py "Font sizes outside recommended range ("
          ++ str_Z (get_default (range_min (fonts_size_range r)) 10) ++ py "-"
          ++ str_Z (get_default (range_max (fonts_size_range r)) 12) ++ py "pt): "
          ++ join (py ", ") (map str_pt (dedup_by N.eqb (invalid_sizes (scan_of r d)))))
       5]
  else [].

Definition header_violation (s : section) : bool :=
  (nonempty (header_paragraphs s) && has_content (header_paragraphs s))%bool.

Definition footer_violation (s : section) : bool :=
  (nonempty (footer_paragraphs s) && has_content (footer_paragraphs s))%bool.

Definition section_issues (s : section) : list issue_record :=
  (if header_violation s
   then [mk_issue MEDIUM (py "Header contains text - ATS may not read it") 8]
   else [])
  ++ (if footer_violation s
      then [mk_issue MEDIUM (py "Footer contains text - ATS may not read it") 7]
      else []).

Definition header_count (d : Document) : nat :=
  List.length (filter header_violation (sections d)).

Definition footer_count (d : Document) : nat :=
  List.length (filter footer_violation (sections d)).

Definition graphics_issues (d : Document) : list issue_record :=
  if has_graphics (rels d) then
    [mk_issue HIGH (py "Images/graphics detected - ATS cannot read these") 20]
  else [].

Definition found_unusual (d : Document) : list str :=
  filter (fun b => contains b (join [10%N] (map text (paragraphs d)))) unusual_bullets.

Definition special_violation (d : Document) : bool := nonempty (found_unusual d).

Definition special_issues (d : Document) : list issue_record :=
  if special_violation d then
    [mk_issue LOW
       (py "Unusual bullet points detected: " ++ join (py ", ") (found_unusual d)) 5]
  else [].

(** The instance after [l] has been appended to [self.issues]. *)
Definition appended (c : checker) (l : list issue_record) : checker :=
  mk_checker (cv_path c) (issues c ++ l) (score c) (rules c) (doc c).

(** The entries one run of [calculate_total_score] appends. *)
Definition run_issues (path : str) (r : rules_table) (o : option Document)
  : list issue_record :=
  format_issues path r
  ++ match o with
     | None => []
     | Some d =>
         layout_issues d ++ (font_name_issues r d ++ font_size_issues r d)
         ++ flat_map section_issues (sections d)
         ++ graphics_issues d ++ special_issues d
     end.

Definition total_deduction (l : list issue_record) : Z :=
  fold_right (fun i acc => (deduction i + acc)%Z) 0%Z l.

(** ** Files and the violations added to them

    A file is a path with the document stored in it; the checker loads the
    document only from a path that ends in [.docx]. *)
Record cv_file := { file_path : str; file_content : Document }.

Definition load (r : rules_table) (f : cv_file) : checker :=
  mk_checker (file_path f) [] 100 r
    (if is_docx (file_path f) then Some (file_content f) else None).

Definition total_score (r : rules_table) (f : cv_file) : Z :=
  fst (calculate_total_score (load r f)).

(** [f2] has every violation of [f1], and possibly more: each trigger of
    the table of checks that fires on [f1] fires on [f2], and at least as
    many sections of [f2] carry header text, and footer text. *)
Definition adds_violations (r : rules_table) (f1 f2 : cv_file) : bool :=
  let d1 := file_content f1 in
  let d2 := file_content f2 in
  (implb (format_violation (file_path f1) r) (format_violation (file_path f2) r)
   && implb (tables_violation d1) (tables_violation d2)
   && implb (multi_column (sections d1)) (multi_column (sections d2))
   && implb (font_violation r d1) (font_violation r d2)
   && implb (size_violation r d1) (size_violation r d2)
   && (header_count d1 <=? header_count d2)%nat
   && (footer_count d1 <=? footer_count d2)%nat
   && implb (has_graphics (rels d1)) (has_graphics (rels d2))
   && implb (special_violation d1) (special_violation d2))%bool.

(** [d2] is [d1] with material added: more tables, further sections,
    further paragraphs, further embedded parts. *)
Definition extends (d1 d2 : Document) : Prop :=
  (tables d1 <= tables d2)%nat
  /\ (exists more, sections d2 = sections d1 ++ more)
  /\ (exists more, paragraphs d2 = paragraphs d1 ++ more)
  /\ (exists more, rels d2 = rels d1 ++ more).

(** The entries a method appends to [self.issues] when run on [c]. *)
Definition new_issues {A : Type} (m : M A) (c : checker) : list issue_record :=
  skipn (List.length (issues c)) (issues (snd (m c))).

(** Every entry of a list has the given severity. *)
Definition all_severity (s : severity_level) (l : list issue_record) : Prop :=
  Forall (fun i => severity i = s) l.

(** The extension of a path is in the allowed set, case ignored on both
    sides. *)
Definition allowed_ignoring_case (path : str) (r : rules_table) : bool :=
  existsb (fun a => str_eqb (lower a) (lower (snd (splitext path))))
          (file_formats_allowed r).

End ATSCompatibilityChecker.

(* ===================================================================== *)
(** * Regular expressions of Python's [re], as the sources use them *)
(* ===================================================================== *)

Module Regex.

Definition upper_char (c : char) : char :=
  if islower c then (c - 32)%N else c.

(** Character sets. *)
Inductive cls :=
| CAny                         (* [.]: anything but a newline *)
| CChar (c : char)             (* a literal character *)
| CRange (lo hi : char)        (* [lo-hi] *)
| CSpace                       (* [\s] *)
| CDigit                       (* [\d] *)
| CWord                        (* [\w] *)
| CUnion (a b : cls)
| CNot (a : cls).              (* [[^...]] *)

(** Membership; [ic] is the IGNORECASE flag. *)
Fixpoint cls_mem (ic : bool) (k : cls) (c : char) : bool :=
  match k with
  | CAny => negb (N.eqb c 10)
  | CChar x => if ic then N.eqb (lower_char c) (lower_char x) else N.eqb c x
  | CRange lo hi =>
      if ic then (between lo hi (lower_char c) || between lo hi (upper_char c))%bool
      else between lo hi c
  | CSpace => isspace c
  | CDigit => isdigit c
  | CWord => isword c
  | CUnion a b => (cls_mem ic a c || cls_mem ic b c)%bool
  | CNot a => negb (cls_mem ic a c)
  end.

(** Patterns.  No pattern of the sources has more than one capturing group,
    so a match carries one capture. *)
Inductive re :=
| Eps
| Cls (k : cls)
| Seq (a b : re)
| Alt (a b : re)               (* [a|b], [a] tried first *)
| Star (greedy : bool) (a : re)(* [a*] or [a*?] *)
| Group (a : re)               (* [(a)] *)
| Bol                          (* [^] *)
| Eol                          (* [$] *)
| WordB                        (* [\b] *)
| Ahead (a : re).              (* [(?=a)] *)

Record flags := { ignorecase : bool; multiline : bool }.

Definition NOFLAGS : flags := {| ignorecase := false; multiline := false |}.
Definition IGNORECASE : flags := {| ignorecase := true; multiline := false |}.
Definition MULTILINE : flags := {| ignorecase := false; multiline := true |}.
Definition MULTILINE_IGNORECASE : flags := {| ignorecase := true; multiline := true |}.

(** A position in the subject: offset, the character before it, the text
    from it on, and the capture so far. *)
Record mstate := {
  pos : nat;
  prev : option char;
  rest : str;
  cap : option str
}.

Definition at_bol (f : flags) (s : mstate) : bool :=
  match prev s with
  | None => true
  | Some c => (multiline f && N.eqb c 10)%bool
  end.

Definition at_eol (f : flags) (s : mstate) : bool :=
  match rest s with
  | [] => true
  | [c] => N.eqb c 10
  | c :: _ => (multiline f && N.eqb c 10)%bool
  end.

Definition at_boundary (s : mstate) : bool :=
  xorb (is_word_opt (prev s)) (is_word_opt (hd_error (rest s))).

(** A repetition of [step], with [k] as what follows it: [n] bounds the
    number of rounds, and a round counts only if it consumed input.  The
    greedy form tries another round first, the lazy form tries [k] first. *)
Fixpoint star_loop (step : mstate -> (mstate -> option mstate) -> option mstate)
    (g : bool) (k : mstate -> option mstate) (n : nat) (s0 : mstate)
    {struct n} : option mstate :=
  match n with
  | O => k s0
  | S n' =>
      let more (_ : unit) :=
        step s0
          (fun s' => if (List.length (rest s') <? List.length (rest s0))%nat
                     then star_loop step g k n' s' else None) in
      if g then
        match more tt with Some e => Some e | None => k s0 end
      else
        match k s0 with Some e => Some e | None => more tt end
  end.

(** The backtracking matcher, with the rest of the pattern as the
    continuation [k]: alternatives are tried in the order [re] tries them. *)
Fixpoint run (f : flags) (r : re) (s : mstate) (k : mstate -> option mstate)
    {struct r} : option mstate :=
  match r with
  | Eps => k s
  | Cls c =>
      match rest s with
      | x :: rest' =>
          if cls_mem (ignorecase f) c x
          then k {| pos := S (pos s); prev := Some x; rest := rest'; cap := cap s |}
          else None
      | [] => None
      end
  | Seq a b => run f a s (fun s' => run f b s' k)
  | Alt a b =>
      match run f a s k with
      | Some e => Some e
      | None => run f b s k
      end
  | Star g a => star_loop (run f a) g k (S (List.length (rest s))) s
  | Group a =>
      run f a s
        (fun s' => k {| pos := pos s'; prev := prev s'; rest := rest s';
                        cap := Some (firstn (pos s' - pos s) (rest s)) |})
  | Bol => if at_bol f s then k s else None
  | Eol => if at_eol f s then k s else None
  | WordB => if at_boundary s then k s else None
  | Ahead a =>
      match run f a s (fun s' => Some s') with
      | Some _ => k s
      | None => None
      end
  end.

(** The position a match attempt starts from. *)
Definition start_state (p : nat) (pv : option char) (rs : str) : mstate :=
  {| pos := p; prev := pv; rest := rs; cap := None |}.

(** A match object. *)
Record match_obj := {
  m_start : nat;
  m_end : nat;
  group0 : str;             (* [m.group(0)] *)
  group1 : option str       (* [m.group(1)], [None] if the group took no part *)
}.

Definition match_at (f : flags) (r : re) (p : nat) (pv : option char) (rs : str)
  : option (match_obj * mstate) :=
  match run f r (start_state p pv rs) (fun e => Some e) with
  | Some e =>
      Some ({| m_start := p; m_end := pos e;
               group0 := firstn (pos e - p) rs; group1 := cap e |}, e)
  | None => None
  end.

(** The leftmost match at or after a position. *)
Fixpoint search_at (f : flags) (r : re) (p : nat) (pv : option char) (rs : str)
  : option (match_obj * mstate) :=
  match match_at f r p pv rs with
  | Some me => Some me
  | None =>
      match rs with
      | [] => None
      | x :: rs' => search_at f r (S p) (Some x) rs'
      end
  end.

(** [re.search(r, text, f)]. *)
Definition search (f : flags) (r : re) (text : str) : option match_obj :=
  option_map fst (search_at f r 0 None text).

(** [re.match(r, text, f)]. *)
Definition rmatch (f : flags) (r : re) (text : str) : option match_obj :=
  option_map fst (match_at f r 0 None text).

(** [re.finditer(r, text, f)]: successive non-overlapping matches; after an
    empty match the scan moves on by one character. *)
Fixpoint finditer_at (fuel : nat) (f : flags) (r : re)
    (p : nat) (pv : option char) (rs : str) : list match_obj :=
  match fuel with
  | O => []
  | S fuel' =>
      match search_at f r p pv rs with
      | None => []
      | Some (m, e) =>
          m :: (if (m_start m <? m_end m)%nat
                then finditer_at fuel' f r (pos e) (prev e) (rest e)
                else match rest e with
                     | [] => []
                     | x :: rs' => finditer_at fuel' f r (S (pos e)) (Some x) rs'
                     end)
      end
  end.

Definition finditer (f : flags) (r : re) (text : str) : list match_obj :=
  finditer_at (S (length text)) f r 0 None text.

(** [re.findall(r, text, f)] for a pattern with one group, and with none. *)
Definition findall1 (f : flags) (r : re) (text : str) : list str :=
  map (fun m => match group1 m with Some g => g | None => [] end) (finditer f r text).

Definition findall0 (f : flags) (r : re) (text : str) : list str :=
  map group0 (finditer f r text).

(** [re.split(r, text)] for a pattern without groups. *)
Fixpoint split_pieces (text : str) (from : nat) (ms : list match_obj) : list str :=
  match ms with
  | [] => [skipn from text]
  | m :: ms' => slice text from (m_start m) :: split_pieces text (m_end m) ms'
  end.

Definition split (f : flags) (r : re) (text : str) : list str :=
  split_pieces text 0 (finditer f r text).

(** [re.sub(r, repl, text)] for a constant replacement. *)
Definition sub (f : flags) (r : re) (repl : str) (text : str) : str :=
  join repl (split f r text).

(** ** Pattern combinators *)

Fixpoint seqs (l : list re) : re :=
  match l with
  | [] => Eps
  | [a] => a
  | a :: l' => Seq a (seqs l')
  end.

Fixpoint alts (l : list re) : re :=
  match l with
  | [] => Eps
  | [a] => a
  | a :: l' => Alt a (alts l')
  end.

(** A literal string; also [re.escape(s)] as a pattern. *)
Definition lit (s : str) : re := seqs (map (fun c => Cls (CChar c)) s).

Definition plus (a : re) : re := Seq a (Star true a).        (* [a+] *)
Definition plus_lazy (a : re) : re := Seq a (Star false a).  (* [a+?] *)
Definition star (a : re) : re := Star true a.                (* [a*] *)
Definition opt (a : re) : re := Alt a Eps.                   (* [a?] *)

Fixpoint cunion (l : list cls) : cls :=
  match l with
  | [] => CNot (CUnion CAny (CChar 10%N))
  | [a] => a
  | a :: l' => CUnion a (cunion l')
  end.

(** The subject starts with a literal (to [re.escape] and back), under the
    IGNORECASE flag [ic]. *)
Fixpoint lit_starts (ic : bool) (k t : str) : bool :=
  match k, t with
  | [], _ => true
  | x :: k', c :: t' => (cls_mem ic (CChar x) c && lit_starts ic k' t')%bool
  | _ :: _, [] => false
  end.

(** The position [n] characters further on. *)
Fixpoint consume (n : nat) (s : mstate) : mstate :=
  match n with
  | O => s
  | S n' =>
      match rest s with
      | [] => s
      | x :: rest' =>
          consume n' {| pos := S (pos s); prev := Some x; rest := rest'; cap := cap s |}
      end
  end.

(** The capture is set. *)
Definition captured (s : mstate) : Prop := cap s <> None.

(** Does every match of the pattern set the capture? *)
Fixpoint captures (r : re) : bool :=
  match r with
  | Group _ => true
  | Seq a b => (captures a || captures b)%bool
  | Alt a b => (captures a && captures b)%bool
  | _ => false
  end.

End Regex.

(* ===================================================================== *)
(** * src/checkers/keyword_matcher.py *)
(* ===================================================================== *)

Module KeywordMatcher.

Import Regex.

(** The instance: [cv_text] is stored lower-cased; [jd_keywords] maps a
    category to its keywords. *)
Record matcher := {
  cv_text : str;
  jd_keywords : list (str * list str)
}.

Definition init (cv_text0 : str) (jd_keywords0 : list (str * list str)) : matcher :=
  {| cv_text := lower cv_text0; jd_keywords := jd_keywords0 |}.

(** [r'\b' + re.escape(keyword) + r'\b']. *)
Definition keyword_pattern (keyword : str) : re :=
  Seq WordB (Seq (lit keyword) WordB).

(** [re.search(pattern, self.cv_text, re.IGNORECASE)] as a truth value. *)
Definition keyword_found (self : matcher) (keyword : str) : bool :=
  match search IGNORECASE (keyword_pattern keyword) (cv_text self) with
  | Some _ => true
  | None => false
  end.

(** The first loop: the set of all keywords, lower-cased and stripped. *)
Definition collect_keywords (jd : list (str * list str)) : list str :=
  fold_left
    (fun all_keywords (entry : str * list str) =>
       fold_left
         (fun all_keywords keyword =>
            if nonempty keyword
            then set_add (strip (lower keyword)) all_keywords
            else all_keywords)
         (snd entry) all_keywords)
    jd [].

(** The second loop: [(matched_keywords, missing_keywords)]. *)
Definition check_keywords (self : matcher) (all_keywords : list str)
  : list str * list str :=
  fold_left
    (fun (acc : list str * list str) keyword =>
       if keyword_found self keyword
       then (set_add keyword (fst acc), snd acc)
       else (fst acc, snd acc ++ [keyword]))
    all_keywords ([], []).

Record category_stats := {
  matched : nat;
  total : nat;
  percentage : Q
}.

(** [d[key] = value] on a dict in insertion order. *)
Fixpoint dict_set {V : Type} (d : list (str * V)) (key : str) (value : V)
  : list (str * V) :=
  match d with
  | [] => [(key, value)]
  | (k, v) :: d' =>
      if str_eqb k key then (k, value) :: d'
      else (k, v) :: dict_set d' key value
  end.

(** [x / y * 100] on integers, in exact arithmetic; [Doubles.percent_double]
    is the double the program computes. *)
Definition percent (x y : nat) : Q :=
  ((Z.of_nat x # 1) / (Z.of_nat y # 1) * (100 # 1))%Q.

Definition category_entry (self : matcher) (keywords0 : list str) : category_stats :=
  let category_keywords := map (fun k => strip (lower k)) (filter nonempty keywords0) in
  let category_matched := List.length (filter (keyword_found self) category_keywords) in
  let total0 := List.length category_keywords in
  {| matched := category_matched;
     total := total0;
     percentage := if (0 <? total0)%nat then percent category_matched total0 else 0%Q |}.

Definition category_matches (self : matcher) : list (str * category_stats) :=
  fold_left
    (fun d (entry : str * list str) =>
       dict_set d (fst entry) (category_entry self (snd entry)))
    (jd_keywords self) [].

(** [round(x, 1)] in exact arithmetic: the nearest tenth, a tie going to the
    even one.  [Doubles.round_1] is [round] on a double. *)
Definition round_half_even (x : Q) : Z :=
  let fl := Qfloor x in
  let r := (x - inject_Z fl)%Q in
  match Qcompare r (1 # 2) with
  | Lt => fl
  | Gt => (fl + 1)%Z
  | Eq => if Z.even fl then fl else (fl + 1)%Z
  end.

Definition round1 (x : Q) : Q := Qred (round_half_even (x * (10 # 1)) # 10).

Record match_report := {
  total_keywords : nat;
  matched_keywords : nat;
  missing_keywords : nat;
  match_percentage : Q;
  missing_keywords_list : list str;
  category_breakdown : list (str * category_stats)
}.

Definition calculate_match_percentage (self : matcher) : match_report :=
  let all_keywords := collect_keywords (jd_keywords self) in
  let (matched_set, missing) := check_keywords self all_keywords in
  let category_matches0 := category_matches self in
  let total_keywords0 := List.length all_keywords in
  let matched_count := List.length matched_set in
  let match_percentage0 :=
    if (0 <? total_keywords0)%nat then percent matched_count total_keywords0 else 0%Q in
  {| total_keywords := total_keywords0;
     matched_keywords := matched_count;
     missing_keywords := List.length missing;
     match_percentage := round1 match_percentage0;
     missing_keywords_list := firstn 20 missing;
     category_breakdown := category_matches0 |}.

(** ** Reading of the statements about the matcher *)

(** The keyword as the matcher looks for it. *)
Definition normalize (keyword : str) : str := strip (lower keyword).

(** The keyword is one of [matched_keywords] when the second loop ends. *)
Definition counted_as_matched (self : matcher) (keyword : str) : bool :=
  mem keyword (fst (check_keywords self (collect_keywords (jd_keywords self)))).

(** [t] starts with [k], case ignored. *)
Fixpoint starts_ignoring_case (k t : str) : bool :=
  match k, t with
  | [], _ => true
  | x :: k', c :: t' =>
      (N.eqb (lower_char c) (lower_char x) && starts_ignoring_case k' t')%bool
  | _ :: _, [] => false
  end.

(** [k] occurs in the text as a whole word or phrase, case ignored: at some
    offset the text reads [k], with no word character right before the
    occurrence and none right after it.  [before] is the character before
    [t], if any. *)
Fixpoint occurs_from (k : str) (before : option char) (t : str) : bool :=
  (starts_ignoring_case k t
   && negb (is_word_opt before)
   && negb (is_word_opt (hd_error (skipn (List.length k) t))))%bool
  || match t with
     | [] => false
     | c :: t' => occurs_from k (Some c) t'
     end.

Definition occurs_whole_word (k text : str) : bool := occurs_from k None text.

(** [k] occurs in the text inside a larger word at every place it occurs:
    it occurs, and never as a whole word. *)
Definition occurs_only_inside_words (k text : str) : bool :=
  (contains (lower k) (lower text) && negb (occurs_whole_word k text))%bool.

(** The keyword begins and ends with a word character. *)
Definition word_edged (k : str) : bool :=
  match k with
  | [] => false
  | c :: _ => (isword c && isword (last k c))%bool
  end.

(** The percentage recomputed from the sums over [category_breakdown]. *)
Definition sum_matched (b : list (str * category_stats)) : nat :=
  fold_right (fun e acc => matched (snd e) + acc) 0 b.

Definition sum_total (b : list (str * category_stats)) : nat :=
  fold_right (fun e acc => total (snd e) + acc) 0 b.

Definition recomputed_percentage (r : match_report) : Q :=
  let b := category_breakdown r in
  if (0 <? sum_total b)%nat then percent (sum_matched b) (sum_total b) else 0%Q.

(** [m] is [x] rounded to one decimal place: a whole number of tenths, at
    most half a tenth from [x]. *)
Definition rounded_to_tenth (m x : Q) : Prop :=
  (exists z : Z, m == z # 10)%Q /\ (Qabs (m - x) <= 1 # 20)%Q.

(** One step of building a set of keywords. *)
Definition add_keyword (acc : list str) (k : str) : list str := set_add k acc.

(** All keywords of the mapping, normalised, category after category. *)
Definition listed_keywords (jd : list (str * list str)) : list str :=
  flat_map (fun entry : str * list str =>
              map normalize (filter nonempty (snd entry))) jd.

End KeywordMatcher.

(* ===================================================================== *)
(** * src/parsers/jd_parser.py *)
(* ===================================================================== *)

Module JobDescriptionParser.

Import Regex.
Local Open Scope result_scope.

(** A spaCy token, as far as [calculate_keyword_density] reads it. *)
Record token := { tok_text : str; is_stop : bool; is_alpha : bool }.

(** The instance.  [spacy_doc] is [self.doc]: the tokens of the text, or
    [None] when the language model cannot be loaded.  [keywords] and
    [structure] are the two tables [__init__] fills with empty lists. *)
Record parser := {
  jd_text : str;
  jd_text_lower : str;
  spacy_doc : option (list token);
  keywords : list (str * list str);
  structure : list (str * list str)
}.

Definition init (jd_text0 : str) (spacy : option (list token)) : parser :=
  {| jd_text := jd_text0;
     jd_text_lower := lower jd_text0;
     spacy_doc := spacy;
     keywords :=
       [(py "required_skills", []); (py "preferred_skills", []);
        (py "tools_technologies", []); (py "soft_skills", []);
        (py "experience_requirements", []); (py "industry_domain", []);
        (py "company_values", []); (py "exact_phrases", [])];
     structure :=
       [(py "sections", []); (py "responsibilities", []); (py "requirements", [])] |}.

(** ** Pattern tables *)

Definition AZ : cls := CRange 65 90.
Definition az : cls := CRange 97 122.
Definition ws : re := Cls CSpace.
(** [[•\-\*]]: U+2022, the hyphen and the asterisk. *)
Definition bullet_cls : cls := cunion [CChar 8226; CChar 45; CChar 42].

(** [\b(w1|w2|...)\b]. *)
Definition word_list (l : list String.string) : re :=
  Seq WordB (Seq (Group (alts (map (fun w => lit (py w)) l))) WordB).

Local Open Scope string_scope.

Definition SKILL_PATTERNS : list (str * re) :=
  [(py "programming",
    word_list ["Python"; "Java"; "JavaScript"; "R"; "SQL"; "C++"; "Scala";
               "Ruby"; "Go"; "TypeScript"]);
   (py "tools",
    word_list ["Tableau"; "Power BI"; "Excel"; "JIRA"; "Git"; "Docker"; "AWS";
               "Azure"; "GCP"; "Kubernetes"; "Jenkins"]);
   (py "frameworks",
    word_list ["React"; "Angular"; "Django"; "Flask"; "Pandas"; "NumPy";
               "TensorFlow"; "PyTorch"; "Spark"]);
   (py "databases",
    word_list ["PostgreSQL"; "MySQL"; "MongoDB"; "Redis"; "Cassandra"; "Oracle";
               "Snowflake"; "Redshift"]);
   (py "methodologies",
    word_list ["Agile"; "Scrum"; "Kanban"; "Waterfall"; "DevOps"; "CI/CD"])].

Local Close Scope string_scope.

(** The pattern [(\d+)\+?\s*(?:years?|yrs?)\s*(?:of\s* )?(?:experience|exp)?],
    shown with a blank between the star and the parenthesis that closes the
    optional [of] group. *)
Definition EXPERIENCE_PATTERN : re :=
  seqs [Group (plus (Cls CDigit)); opt (lit (py "+")); star ws;
        Alt (Seq (lit (py "year")) (opt (lit (py "s"))))
            (Seq (lit (py "yr")) (opt (lit (py "s"))));
        star ws;
        opt (Seq (lit (py "of")) (star ws));
        opt (Alt (lit (py "experience")) (lit (py "exp")))].

Definition REQUIRED_MARKERS : list str :=
  [py "required"; py "must have"; py "essential"; py "mandatory"; py "must"; py "need"].
Definition PREFERRED_MARKERS : list str :=
  [py "preferred"; py "nice to have"; py "desirable"; py "bonus"; py "plus"; py "advantage"].

(** [[A-Z][a-zA-Z\s]+?] and [[A-Z][a-zA-Z\s]+] *)
Definition title_lazy : re := Seq (Cls AZ) (plus_lazy (Cls (cunion [az; AZ; CSpace]))).
Definition title_greedy : re := Seq (Cls AZ) (plus (Cls (cunion [az; AZ; CSpace]))).

(** The six title templates of [extract_job_title]:
    [hiring\s+(?:a|an)\s+([A-Z][a-zA-Z\s]+?)(?:\s+at|\s+to|\.|,)],
    [^([A-Z][a-zA-Z\s]+?)\s*[-–]\s*[A-Z]] (the second dash is U+2013),
    [Position:\s*([A-Z][a-zA-Z\s]+)], and the same after [Role:],
    [Job Title:] and [Title:]. *)
Definition title_patterns : list re :=
  [seqs [lit (py "hiring"); plus ws; Alt (lit (py "a")) (lit (py "an")); plus ws;
         Group title_lazy;
         alts [Seq (plus ws) (lit (py "at")); Seq (plus ws) (lit (py "to"));
               lit (py "."); lit (py ",")]];
   seqs [Bol; Group title_lazy; star ws; Cls (cunion [CChar 45; CChar 8211]);
         star ws; Cls AZ];
   seqs [lit (py "Position:"); star ws; Group title_greedy];
   seqs [lit (py "Role:"); star ws; Group title_greedy];
   seqs [lit (py "Job Title:"); star ws; Group title_greedy];
   seqs [lit (py "Title:"); star ws; Group title_greedy]].

(** [m.group(1).strip()]: an attribute error if the group took no part. *)
Definition group1_strip (m : match_obj) : result str :=
  match group1 m with
  | Some g => Ok (strip g)
  | None => Raise AttributeError
  end.

(** ** extract_job_title *)

(** The loop over the templates: [Some title] where it returns. *)
Fixpoint title_from_patterns (text : str) (patterns : list re)
  : result (option str) :=
  match patterns with
  | [] => Ok None
  | pattern :: patterns' =>
      match search MULTILINE_IGNORECASE pattern text with
      | Some m =>
          title <- group1_strip m ;;
          let title := sub NOFLAGS (plus ws) (py " ") title in
          if (List.length (PyStr.split title) <=? 6)%nat then Ok (Some title)
          else title_from_patterns text patterns'
      | None => title_from_patterns text patterns'
      end
  end.

(** [all(w[0].isupper() for w in words if w and w[0].isalpha())] *)
Fixpoint all_capitalized (words : list str) : result bool :=
  match words with
  | [] => Ok true
  | w :: words' =>
      keep <- (match w with
               | [] => Ok false
               | _ :: _ => c <- item w 0 ;; Ok (isalpha c)
               end) ;;
      if keep : bool then
        c <- item w 0 ;;
        if isupper c then all_capitalized words' else Ok false
      else all_capitalized words'
  end.

(** The fallback loop over the sentences of the first paragraph. *)
Fixpoint title_from_sentences (sents : list str) : result (option str) :=
  match sents with
  | [] => Ok None
  | sent :: sents' =>
      let words := PyStr.split (strip sent) in
      if ((2 <=? List.length words) && (List.length words <=? 5))%nat%bool then
        ok <- all_capitalized words ;;
        if ok : bool then Ok (Some (join (py " ") words))
        else title_from_sentences sents'
      else title_from_sentences sents'
  end.

Definition extract_job_title (self : parser) : result str :=
  found <- title_from_patterns (jd_text self) title_patterns ;;
  match found with
  | Some title => Ok title
  | None =>
      let first_para := firstn 500 (jd_text self) in
      fallback <- title_from_sentences (split_on 46 first_para) ;;
      match fallback with
      | Some title => Ok title
      | None => Ok (py "Unknown Title")
      end
  end.

(** ** extract_technical_skills *)

(** [sorted(l)] on strings. *)
Fixpoint insert_sorted (x : str) (l : list str) : list str :=
  match l with
  | [] => [x]
  | y :: l' => if str_leb x y then x :: l else y :: insert_sorted x l'
  end.

Definition sorted (l : list str) : list str := fold_right insert_sorted [] l.

Definition extract_technical_skills (self : parser) : list str :=
  let skills :=
    fold_left
      (fun skills (entry : str * re) =>
         fold_left (fun skills m => set_add (group0 m) skills)
                   (finditer IGNORECASE (snd entry) (jd_text self)) skills)
      SKILL_PATTERNS [] in
  sorted skills.

(** ** extract_required_vs_preferred and _extract_bullets *)

(** One of the two marker loops: the windows of the markers found. *)
Fixpoint marker_windows (self : parser) (markers : list str) (section0 : str)
  : result str :=
  match markers with
  | [] => Ok section0
  | marker :: markers' =>
      let text_lower := jd_text_lower self in
      if contains marker text_lower then
        start <- index marker text_lower ;;
        let end_ := Nat.min (start + 500) (List.length text_lower) in
        marker_windows self markers' (section0 ++ slice (jd_text self) start end_)
      else marker_windows self markers' section0
  end.

(** [(?=\n|$)] *)
Definition line_end : re := Ahead (Alt (Cls (CChar 10)) Eol).

(** [[•\-\*]\s*(.+?)(?=\n|$)] and [\d+\.\s*(.+?)(?=\n|$)] *)
Definition bullet_patterns : list re :=
  [seqs [Cls bullet_cls; star ws; Group (plus_lazy (Cls CAny)); line_end];
   seqs [plus (Cls CDigit); lit (py "."); star ws; Group (plus_lazy (Cls CAny)); line_end]].

Fixpoint map_result {A B : Type} (f : A -> result B) (l : list A) : result (list B) :=
  match l with
  | [] => Ok []
  | x :: l' => y <- f x ;; ys <- map_result f l' ;; Ok (y :: ys)
  end.

Fixpoint _extract_bullets_loop (text : str) (patterns : list re) (bullets : list str)
  : result (list str) :=
  match patterns with
  | [] => Ok bullets
  | pattern :: patterns' =>
      found <- map_result group1_strip (finditer MULTILINE pattern text) ;;
      _extract_bullets_loop text patterns' (bullets ++ found)
  end.

Definition _extract_bullets (text : str) : result (list str) :=
  _extract_bullets_loop text bullet_patterns [].

Record required_preferred := { required : list str; preferred : list str }.

Definition extract_required_vs_preferred (self : parser) : result required_preferred :=
  required_section <- marker_windows self REQUIRED_MARKERS [] ;;
  preferred_section <- marker_windows self PREFERRED_MARKERS [] ;;
  req <- _extract_bullets required_section ;;
  pref <- _extract_bullets preferred_section ;;
  Ok {| required := req; preferred := pref |}.

(** ** extract_verbatim_phrases *)

Definition skill_indicators : list str :=
  [py "ability to"; py "experience with"; py "proficient in";
   py "knowledge of"; py "skilled in"; py "expertise in";
   py "strong skills"; py "demonstrated experience"; py "proven ability"].

(** [[.!?]\s+] *)
Definition sentence_break : re :=
  Seq (Cls (cunion [CChar 46; CChar 33; CChar 63])) (plus ws).

(** The body of the loop over the sentences. *)
Definition phrase_step (min_length max_length : nat) (phrases : list str) (sent0 : str)
  : list str :=
  let sent := strip sent0 in
  match sent with
  | [] => phrases
  | _ :: _ =>
      let word_count := List.length (PyStr.split sent) in
      if ((min_length <=? word_count) && (word_count <=? max_length))%nat%bool then
        let sent_lower := lower sent in
        if existsb (fun indicator => contains indicator sent_lower) skill_indicators
        then phrases ++ [sent]
        else phrases
      else phrases
  end.

Definition extract_verbatim_phrases (self : parser) (min_length max_length : nat)
  : list str :=
  let sentences := Regex.split NOFLAGS sentence_break (jd_text self) in
  let phrases := fold_left (phrase_step min_length max_length) sentences [] in
  firstn 10 phrases.

(** ** extract_company_values *)

Definition value_markers : list str :=
  [py "our values"; py "company values"; py "core values";
   py "we believe"; py "our culture"; py "values we"].

(** [\b([A-Z][a-z]+)\b] *)
Definition value_word : re :=
  Seq WordB (Seq (Group (Seq (Cls AZ) (plus (Cls az)))) WordB).

Fixpoint company_values_loop (self : parser) (markers : list str) (values : list str)
  : result (list str) :=
  match markers with
  | [] => Ok values
  | marker :: markers' =>
      let text_lower := jd_text_lower self in
      if contains marker text_lower then
        start <- index marker text_lower ;;
        let section0 := slice (jd_text self) start (start + 500) in
        let value_words := findall1 NOFLAGS value_word section0 in
        company_values_loop self markers' (values ++ firstn 5 value_words)
      else company_values_loop self markers' values
  end.

Definition extract_company_values (self : parser) : result (list str) :=
  values <- company_values_loop self value_markers [] ;;
  Ok (dedup values).

(** ** analyze_structure *)

Record structure_info := {
  sections : list str;
  responsibilities : list str;
  requirements : list str
}.

(** [^([A-Z][A-Z\s]+):?$], [^([A-Z][a-z\s]+):$] and [^\*\*([^*]+)\*\*] *)
Definition header_patterns : list re :=
  [seqs [Bol; Group (Seq (Cls AZ) (plus (Cls (cunion [AZ; CSpace]))));
         opt (lit (py ":")); Eol];
   seqs [Bol; Group (Seq (Cls AZ) (plus (Cls (cunion [az; CSpace]))));
         lit (py ":"); Eol];
   seqs [Bol; lit (py "**"); Group (plus (Cls (CNot (CChar 42)))); lit (py "**")]].

(** [[•\-\*]\s*(.+)] and [^[A-Z]] *)
Definition bullet_line : re := seqs [Cls bullet_cls; star ws; Group (plus (Cls CAny))].
Definition capital_start : re := Seq Bol (Cls AZ).

(** The loop [for j in range(i+1, min(i+20, len(lines)))], over the values
    [js] of [j]; it stops at a non-empty line that is neither a bullet nor
    starts with a capital. *)
Fixpoint collect_bullets (lines : list str) (js : list nat) (bullets : list str)
  : result (list str) :=
  match js with
  | [] => Ok bullets
  | j :: js' =>
      line <- item lines j ;;
      match rmatch NOFLAGS bullet_line (strip line) with
      | Some bullet_match =>
          b <- group1_strip bullet_match ;;
          collect_bullets lines js' (bullets ++ [b])
      | None =>
          if (nonempty (strip line)
              && negb (is_some (rmatch NOFLAGS capital_start (strip line))))%bool
          then Ok bullets
          else collect_bullets lines js'
                 bullets
      end
  end.

(** [range(a, b)] *)
Definition range (a b : nat) : list nat := seq a (b - a).

(** The body of the loop over [header_patterns], for line [i]. *)
Definition header_step (lines : list str) (i : nat) (line_stripped : str)
    (st : structure_info) (pattern : re) : result structure_info :=
  match rmatch NOFLAGS pattern line_stripped with
  | None => Ok st
  | Some m =>
      header <- group1_strip m ;;
      let st1 := {| sections := sections st ++ [header];
                    responsibilities := responsibilities st;
                    requirements := requirements st |} in
      let header_lower := lower header in
      let js := range (i + 1) (Nat.min (i + 20) (List.length lines)) in
      if (contains (py "responsibilit") header_lower
          || contains (py "what you") header_lower)%bool then
        bullets <- collect_bullets lines js [] ;;
        Ok {| sections := sections st1;
              responsibilities := responsibilities st1 ++ bullets;
              requirements := requirements st1 |}
      else if (contains (py "requirement") header_lower
               || contains (py "about you") header_lower
               || contains (py "qualification") header_lower)%bool then
        bullets <- collect_bullets lines js [] ;;
        Ok {| sections := sections st1;
              responsibilities := responsibilities st1;
              requirements := requirements st1 ++ bullets |}
      else Ok st1
  end.

Fixpoint fold_result {A B : Type} (f : A -> B -> result A) (l : list B) (a : A)
  : result A :=
  match l with
  | [] => Ok a
  | x :: l' => a' <- f a x ;; fold_result f l' a'
  end.

(** [enumerate(l)] *)
Definition enumerate {A : Type} (l : list A) : list (nat * A) :=
  combine (seq 0 (List.length l)) l.

Definition analyze_structure (self : parser) : result structure_info :=
  let lines := split_on 10 (jd_text self) in
  fold_result
    (fun st (il : nat * str) =>
       let line_stripped := strip (snd il) in
       fold_result (header_step lines (fst il) line_stripped) header_patterns st)
    (enumerate lines)
    {| sections := []; responsibilities := []; requirements := [] |}.

(** ** calculate_keyword_density *)

(** [\b[a-z]{4,}\b] *)
Definition long_word : re :=
  seqs [WordB; Cls az; Cls az; Cls az; Cls az; star (Cls az); WordB].

Definition stop_words : list str :=
  [py "that"; py "this"; py "with"; py "from"; py "have"; py "will";
   py "would"; py "could"; py "should"].

(** [Counter(words)]: the counts, in the order of first occurrence. *)
Fixpoint counter_add (w : str) (c : list (str * nat)) : list (str * nat) :=
  match c with
  | [] => [(w, 1)]
  | (k, n) :: c' =>
      if str_eqb k w then (k, S n) :: c' else (k, n) :: counter_add w c'
  end.

Definition Counter (words : list str) : list (str * nat) :=
  fold_left (fun c w => counter_add w c) words [].

(** [c.most_common(n)]: by count, largest first, ties in the order of first
    occurrence. *)
Fixpoint insert_count (x : str * nat) (l : list (str * nat)) : list (str * nat) :=
  match l with
  | [] => [x]
  | y :: l' =>
      if (snd x <? snd y)%nat then y :: insert_count x l' else x :: l
  end.

Definition most_common (n : nat) (c : list (str * nat)) : list (str * nat) :=
  firstn n (fold_right insert_count [] c).

(** The list [words] of [calculate_keyword_density]: from the tokens when
    there is a non-empty document, else from the text. *)
Definition density_words (self : parser) : list str :=
  match spacy_doc self with
  | Some (t :: ts) =>
      map (fun tk => lower (tok_text tk))
          (filter (fun tk => (negb (is_stop tk) && is_alpha tk
                              && (3 <? List.length (tok_text tk))%nat)%bool)
                  (t :: ts))
  | Some [] | None =>
      let words0 := findall0 NOFLAGS long_word (jd_text_lower self) in
      filter (fun w => negb (mem w stop_words)) words0
  end.

Definition calculate_keyword_density (self : parser) : list (str * nat) :=
  most_common 20 (Counter (density_words self)).

(** ** extract_experience_requirements *)

(** [experience\s+in\s+([A-Z][a-z\s]+)] and [background\s+in\s+([A-Z][a-z\s]+)] *)
Definition domain_patterns : list re :=
  [seqs [lit (py "experience"); plus ws; lit (py "in"); plus ws;
         Group (Seq (Cls AZ) (plus (Cls (cunion [az; CSpace]))))];
   seqs [lit (py "background"); plus ws; lit (py "in"); plus ws;
         Group (Seq (Cls AZ) (plus (Cls (cunion [az; CSpace]))))]].

Definition extract_experience_requirements (self : parser) : list str :=
  let requirements0 :=
    map group0 (finditer IGNORECASE EXPERIENCE_PATTERN (jd_text self)) in
  let requirements1 :=
    fold_left
      (fun reqs pattern =>
         reqs ++ map group0 (finditer IGNORECASE pattern (jd_text self)))
      domain_patterns requirements0 in
  dedup requirements1.

(** ** extract_all *)

Record JDAnalysis := {
  job_title : str;
  technical_skills : list str;
  required_skills : list str;
  preferred_skills : list str;
  tools_technologies : list str;
  verbatim_phrases : list str;
  company_values : list str;
  structure_of : structure_info;
  keyword_density : list (str * nat);
  experience_requirements : list str
}.

Definition extract_all (self : parser) : result JDAnalysis :=
  required_preferred0 <- extract_required_vs_preferred self ;;
  title <- extract_job_title self ;;
  let technical := extract_technical_skills self in
  let tools := extract_technical_skills self in
  let phrases := extract_verbatim_phrases self 10 30 in
  values <- extract_company_values self ;;
  structure0 <- analyze_structure self ;;
  let density := calculate_keyword_density self in
  let experience := extract_experience_requirements self in
  Ok {| job_title := title;
        technical_skills := technical;
        required_skills := required required_preferred0;
        preferred_skills := preferred required_preferred0;
        tools_technologies := tools;
        verbatim_phrases := phrases;
        company_values := values;
        structure_of := structure0;
        keyword_density := density;
        experience_requirements := experience |}.

(** ** Reading of the statements about the parser *)

(** The condition of the fallback on one word, and on the words of a
    sentence, as truth values. *)
Definition word_capitalized (w : str) : bool :=
  match w with
  | [] => true
  | c :: _ => implb (isalpha c) (isupper c)
  end.

Definition title_words (words : list str) : bool :=
  ((2 <=? List.length words)%nat && (List.length words <=? 5)%nat
   && forallb word_capitalized words)%bool.

Definition word_count (t : str) : nat := List.length (PyStr.split t).

(** The title a template finds in the text, cleaned up. *)
Definition template_title (text : str) (pattern : re) : option str :=
  match search MULTILINE_IGNORECASE pattern text with
  | Some m =>
      match group1 m with
      | Some g => Some (sub NOFLAGS (plus ws) (py " ") (strip g))
      | None => None
      end
  | None => None
  end.

(** No template finds a title of at most six words. *)
Definition no_template_title (text : str) : bool :=
  forallb (fun pattern =>
             match template_title text pattern with
             | Some t => negb (word_count t <=? 6)%nat
             | None => true
             end) title_patterns.

(** No sentence of the first 500 characters has two to five words with
    every alphabetic word capitalized. *)
Definition no_title_sentence (text : str) : bool :=
  forallb (fun sent => negb (title_words (PyStr.split (strip sent))))
          (split_on 46 (firstn 500 text)).

(** The contiguous pieces of a string. *)
Fixpoint prefixes (s : str) : list str :=
  [] :: match s with
        | [] => []
        | c :: s' => map (cons c) (prefixes s')
        end.

Fixpoint substrings (s : str) : list str :=
  prefixes s ++ match s with
                | [] => []
                | _ :: s' => substrings s'
                end.

(** No span of the first 500 characters, sentence or not, has two to five
    words with every alphabetic word capitalized. *)
Definition no_title_span (text : str) : bool :=
  forallb (fun u => negb (title_words (PyStr.split (strip u))))
          (substrings (firstn 500 text)).

(** The sub-extractions find nothing. *)
Definition no_marker (markers : list str) (self : parser) : bool :=
  forallb (fun marker => negb (contains marker (jd_text_lower self))) markers.

Definition no_skill_match (self : parser) : bool :=
  forallb (fun entry : str * re =>
             negb (nonempty (finditer IGNORECASE (snd entry) (jd_text self))))
          SKILL_PATTERNS.

Definition no_phrase (self : parser) : bool :=
  forallb (fun sent0 => negb (nonempty (phrase_step 10 30 [] sent0)))
          (Regex.split NOFLAGS sentence_break (jd_text self)).

Definition no_header_line (self : parser) : bool :=
  forallb (fun line =>
             forallb (fun pattern => negb (is_some (rmatch NOFLAGS pattern (strip line))))
                     header_patterns)
          (split_on 10 (jd_text self)).

Definition no_experience_match (self : parser) : bool :=
  (negb (nonempty (finditer IGNORECASE EXPERIENCE_PATTERN (jd_text self)))
   && forallb (fun pattern => negb (nonempty (finditer IGNORECASE pattern (jd_text self))))
              domain_patterns)%bool.

Definition empty_structure : structure_info :=
  {| sections := []; responsibilities := []; requirements := [] |}.

End JobDescriptionParser.

(* ===================================================================== *)
(** * Concrete inputs *)
(* ===================================================================== *)

Module Examples.

Import ATSCompatibilityChecker.

Definition empty_document : Document :=
  {| tables := 0; sections := []; paragraphs := []; rels := [] |}.

(** One table and one embedded image, nothing else. *)
Definition table_and_image : Document :=
  {| tables := 1; sections := []; paragraphs := [];
     rels := [Some (py "media/image1.png")] |}.

Definition cv_docx : cv_file :=
  {| file_path := py "cv.docx"; file_content := table_and_image |}.

(** The same document under a name the checker does not load. *)
Definition cv_doc : cv_file :=
  {| file_path := py "cv.doc"; file_content := table_and_image |}.

(** [cv_docx] with a header added to its one section. *)
Definition cv_docx_header : cv_file :=
  {| file_path := py "cv.docx";
     file_content :=
       {| tables := 1;
          sections := [{| columns := NoColumns;
                          header_paragraphs := [py "Curriculum Vitae"];
                          footer_paragraphs := [] |}];
          paragraphs := [];
          rels := [Some (py "media/image1.png")] |} |}.

(** A rules table that sets the file-format weight to 40. *)
Definition rules_weight_40 : rules_table :=
  {| file_formats_allowed := [py ".docx"];
     file_formats_prohibited := [py ".pdf"; py ".doc"];
     fonts_allowed := [py "Calibri"; py "Arial"; py "Times New Roman"];
     fonts_size_range := {| range_min := Some 10%Z; range_max := Some 12%Z |};
     scoring := {| file_format_weight := 40; layout_weight := 25;
                   font_weight := 10; graphics_weight := 20;
                   headers_weight := 15 |} |}.

(** A rules table that spells the allowed extension in capitals. *)
Definition rules_upper_case : rules_table :=
  {| file_formats_allowed := [py ".DOCX"];
     file_formats_prohibited := [];
     fonts_allowed := [py "Calibri"];
     fonts_size_range := {| range_min := None; range_max := None |};
     scoring := {| file_format_weight := 30; layout_weight := 25;
                   font_weight := 10; graphics_weight := 20;
                   headers_weight := 15 |} |}.

Definition checker_pdf_40 : checker :=
  mk_checker (py "cv.pdf") [] 100 rules_weight_40 None.

Definition checker_docx_upper : checker :=
  mk_checker (py "cv.docx") [] 100 rules_upper_case (Some empty_document).

Definition checker_docx_default : checker :=
  mk_checker (py "resume.DOCX") [] 100 default_rules (Some empty_document).

(** One run in Arial at 14 pt (28 half-points). *)
Definition large_type : Document :=
  {| tables := 0; sections := [];
     paragraphs := [{| text := py "Profile";
                       runs := [{| font_name := Some (py "Arial");
                                   font_size := Some 28%N |}] |}];
     rels := [] |}.

Definition checker_large_type : checker :=
  mk_checker (py "cv.docx") [] 100 default_rules (Some large_type).

(** Two sections, each with a header and a footer. *)
Definition two_sections : Document :=
  {| tables := 0;
     sections := [{| columns := NoColumns;
                     header_paragraphs := [py "Jane Doe"];
                     footer_paragraphs := [py "Page 1"] |};
                  {| columns := NoColumns;
                     header_paragraphs := [py "Jane Doe"];
                     footer_paragraphs := [py "Page 2"] |}];
     paragraphs := [];
     rels := [] |}.

Definition checker_two_sections : checker :=
  mk_checker (py "cv.docx") [] 100 default_rules (Some two_sections).

(** The matcher of the scenario: three keywords, two of them in the text. *)
Definition matcher_scenario : KeywordMatcher.matcher :=
  KeywordMatcher.init (py "I use SQL and Python daily")
    [(py "skills", [py "SQL"; py "Python"; py "Tableau"])].

(** [SQL] listed under two categories. *)
Definition matcher_two_categories : KeywordMatcher.matcher :=
  KeywordMatcher.init (py "I use SQL daily")
    [(py "required_skills", [py "SQL"]);
     (py "technical_skills", [py "SQL"; py "Python"])].

(** Each keyword listed once. *)
Definition matcher_disjoint : KeywordMatcher.matcher :=
  KeywordMatcher.init (py "I use SQL daily")
    [(py "required_skills", [py "SQL"]);
     (py "technical_skills", [py "Python"; py "Tableau"])].

Definition cpp_keywords : list (str * list str) := [(py "skills", [py "C++"])].

(** A posting with no title in it, and the empty posting. *)
Definition parser_no_title : JobDescriptionParser.parser :=
  JobDescriptionParser.init (py "we need an engineer. apply now") None.

Definition parser_empty : JobDescriptionParser.parser := JobDescriptionParser.init [] None.

(** The scenario of the specification. *)
Definition parser_scenario : JobDescriptionParser.parser :=
  JobDescriptionParser.init
    (py "We're hiring a Senior Data Analyst to join our team. Required: SQL, Python. Preferred: AWS.")
    None.

(** One table and one run in a font that is not allowed. *)
Definition table_and_font : Document :=
  {| tables := 1; sections := [];
     paragraphs := [{| text := py "Profile";
                       runs := [{| font_name := Some (py "Comic Sans MS");
                                   font_size := Some 22%N |}] |}];
     rels := [] |}.

Definition checker_table_and_font : checker :=
  mk_checker (py "cv.docx") [] 100 default_rules (Some table_and_font).

(** A PDF, as [__init__] leaves the instance: no document is loaded. *)
Definition checker_pdf : checker :=
  mk_checker (py "cv.pdf") [] 100 default_rules None.

End Examples.
(* ===================================================================== *)
(** * src/checkers/keyword_matcher.py: suggestions and the full report *)
(* ===================================================================== *)

Module KeywordSuggestions.

Import Regex KeywordMatcher.

(** The values of the dict [calculate_match_percentage] returns, and that
    dict, key by key. *)
Inductive value :=
| VInt (n : nat)
| VFloat (x : Q)
| VList (l : list str)
| VDict (d : list (str * category_stats)).

Definition as_dict (analysis : match_report) : list (str * value) :=
  [(py "total_keywords", VInt (total_keywords analysis));
   (py "matched_keywords", VInt (matched_keywords analysis));
   (py "missing_keywords", VInt (missing_keywords analysis));
   (py "match_percentage", VFloat (match_percentage analysis));
   (py "missing_keywords_list", VList (missing_keywords_list analysis));
   (py "category_breakdown", VDict (category_breakdown analysis))].

(** [d.get(key, default)] *)
Fixpoint dict_get {V : Type} (d : list (str * V)) (key : str) (default : V) : V :=
  match d with
  | [] => default
  | (k, v) :: d' => if str_eqb k key then v else dict_get d' key default
  end.

(** [x in v]: membership in a list, in the keys of a dict; a number is not
    iterable, and [None] stands for the TypeError Python raises then. *)
Definition value_contains (x : str) (v : value) : option bool :=
  match v with
  | VList l => Some (mem x l)
  | VDict d => Some (mem x (map fst d))
  | VInt _ | VFloat _ => None
  end.

Definition technical_indicators : list str :=
  [py "sql"; py "python"; py "java"; py "tableau"; py "aws"; py "docker"].

Definition action_indicators : list str :=
  [py "led"; py "managed"; py "developed"; py "implemented"; py "designed"].

(** [sections] is passed and not read. *)
Definition _determine_best_section (keyword : str) (sections : list (str * str)) : str :=
  if existsb (fun indicator => contains indicator (lower keyword)) technical_indicators
  then py "skills"
  else if existsb (fun indicator => contains indicator (lower keyword)) action_indicators
  then py "experience"
  else py "skills".

(** [\n[A-Z][A-Z\s]+:] *)
Definition next_section_pattern : re :=
  seqs [Cls (CChar 10); Cls (CRange 65 90);
        plus (Cls (cunion [CRange 65 90; CSpace])); lit (py ":")].

Definition _find_section (self : matcher) (pattern : re) : str :=
  match search IGNORECASE pattern (cv_text self) with
  | Some m =>
      let start := m_end m in
      let next_section :=
        search IGNORECASE next_section_pattern (skipn start (cv_text self)) in
      let end_ :=
        match next_section with
        | Some n => start + m_start n
        | None => List.length (cv_text self)
        end in
      slice (cv_text self) start end_
  | None => []
  end.

(** The four header patterns of [suggest_keyword_placements], each an
    alternation of literals. *)
Definition section_patterns : list (str * re) :=
  [(py "summary",
    alts [lit (py "summary"); lit (py "professional summary"); lit (py "profile")]);
   (py "experience",
    alts [lit (py "experience"); lit (py "work experience"); lit (py "employment")]);
   (py "skills",
    alts [lit (py "skills"); lit (py "technical skills"); lit (py "competencies")]);
   (py "education",
    alts [lit (py "education"); lit (py "qualifications")])].

Definition cv_sections (self : matcher) : list (str * str) :=
  map (fun entry : str * re => (fst entry, _find_section self (snd entry)))
      section_patterns.

(** One suggestion: the keys [keyword], [suggested_section] and [priority]. *)
Record suggestion := {
  s_keyword : str;
  suggested_section : str;
  priority : str
}.

(** The loop over the first ten missing keywords. *)
Fixpoint suggestions_loop (analysis : match_report) (sections : list (str * str))
    (missing : list str) (suggestions : list suggestion)
  : option (list suggestion) :=
  match missing with
  | [] => Some suggestions
  | missing_kw :: missing' =>
      let section0 := _determine_best_section missing_kw sections in
      match value_contains missing_kw
              (dict_get (as_dict analysis) (py "required_keywords") (VList [])) with
      | Some required =>
          suggestions_loop analysis sections missing'
            (suggestions
               ++ [{| s_keyword := missing_kw;
                      suggested_section := section0;
                      priority := if required : bool then py "HIGH" else py "MEDIUM" |}])
      | None => None
      end
  end.

Definition suggest_keyword_placements (self : matcher) : option (list suggestion) :=
  let analysis := calculate_match_percentage self in
  let sections := cv_sections self in
  suggestions_loop analysis sections (firstn 10 (missing_keywords_list analysis)) [].




(** ** Reading of the statements about the report *)

(** The mapping with every keyword lower-cased. *)
Definition lower_keywords (jd : list (str * list str)) : list (str * list str) :=
  map (fun entry : str * list str => (fst entry, map lower (snd entry))) jd.

End KeywordSuggestions.

(* ===================================================================== *)
(** * src/parsers/jd_parser.py: the keyword checklist *)
(* ===================================================================== *)

Module KeywordChecklist.

Import JobDescriptionParser.
Local Open Scope result_scope.

Definition export_keyword_checklist (self : parser) : result (list (str * list str)) :=
  analysis <- extract_all self ;;
  Ok [(py "Required Skills", required_skills analysis);
      (py "Preferred Skills", preferred_skills analysis);
      (py "Technical Skills", technical_skills analysis);
      (py "Tools & Technologies", tools_technologies analysis);
      (py "Company Values", company_values analysis);
      (py "Key Phrases", firstn 5 (verbatim_phrases analysis))].

(** [d[key]] on a dict that has the key. *)
Fixpoint lookup (d : list (str * list str)) (key : str) : option (list str) :=
  match d with
  | [] => None
  | (k, v) :: d' => if str_eqb k key then Some v else lookup d' key
  end.

End KeywordChecklist.

(* ===================================================================== *)
(** * Reading of further statements *)
(* ===================================================================== *)

Module Readings.

Import Regex.

(** [s.isascii()]: every code point is below 128. *)
Definition isascii (s : str) : bool := forallb (fun c => (c <? 128)%N) s.

(** The six texts [_get_recommendations] chooses from. *)
Definition recommendation_table : list str :=
  [py "Remove all tables and use plain text with bullets";
   py "Convert to single-column layout";
   py "Change all fonts to Calibri, Arial, or Times New Roman (10-12pt)";
   py "Move all header/footer content into main document body";
   py "Remove all images, logos, and graphics";
   py "Convert file to .docx format"].

(** The entries of a list with a given deduction, in order. *)
Definition with_deduction (d : Z) (l : list ATSCompatibilityChecker.issue_record)
  : list ATSCompatibilityChecker.issue_record :=
  filter (fun i => Z.eqb (ATSCompatibilityChecker.deduction i) d) l.

(** All runs of a document, paragraph after paragraph. *)
Definition all_runs (d : ATSCompatibilityChecker.Document)
  : list ATSCompatibilityChecker.run :=
  flat_map ATSCompatibilityChecker.runs (ATSCompatibilityChecker.paragraphs d).

(** A contiguous piece of a text. *)
Definition piece_of (u text : str) : Prop :=
  exists before after : str, text = before ++ u ++ after.

(** The number of times a word occurs in a list. *)
Definition count_of (w : str) (words : list str) : nat :=
  List.length (filter (str_eqb w) words).

(** The character before a position that lies [u] after one where the
    character before was [before]. *)
Definition last_of (u : str) (before : option char) : option char :=
  fold_left (fun _ c => Some c) u before.

(** The strings a pattern stands for, read without its assertions:
    anchors, boundaries and look-aheads stand for the empty string. *)
Fixpoint lang (ic : bool) (r : re) (u : str) : Prop :=
  match r with
  | Eps | Bol | Eol | WordB | Ahead _ => u = []
  | Cls c => exists x, u = [x] /\ cls_mem ic c x = true
  | Seq a b => exists u1 u2, u = u1 ++ u2 /\ lang ic a u1 /\ lang ic b u2
  | Alt a b => lang ic a u \/ lang ic b u
  | Star _ a => exists us, u = concat us /\ Forall (lang ic a) us
  | Group a => lang ic a u
  end.

(** From the position [s] the matcher reads [u] and stands at [s']. *)
Definition reads (s : mstate) (u : str) (s' : mstate) : Prop :=
  rest s = u ++ rest s'
  /\ pos s' = pos s + List.length u
  /\ prev s' = last_of u (prev s).

(** The groups of a pattern whose capture can reach the end of a match. *)
Fixpoint groups (r : re) : list re :=
  match r with
  | Group a => a :: groups a
  | Seq a b | Alt a b => groups a ++ groups b
  | Star _ a => groups a
  | _ => []
  end.

Local Open Scope string_scope.

(** The names [SKILL_PATTERNS] is built from, category by category. *)
Definition skill_table : list (str * list String.string) :=
  [(py "programming",
    ["Python"; "Java"; "JavaScript"; "R"; "SQL"; "C++"; "Scala";
     "Ruby"; "Go"; "TypeScript"]);
   (py "tools",
    ["Tableau"; "Power BI"; "Excel"; "JIRA"; "Git"; "Docker"; "AWS";
     "Azure"; "GCP"; "Kubernetes"; "Jenkins"]);
   (py "frameworks",
    ["React"; "Angular"; "Django"; "Flask"; "Pandas"; "NumPy";
     "TensorFlow"; "PyTorch"; "Spark"]);
   (py "databases",
    ["PostgreSQL"; "MySQL"; "MongoDB"; "Redis"; "Cassandra"; "Oracle";
     "Snowflake"; "Redshift"]);
   (py "methodologies",
    ["Agile"; "Scrum"; "Kanban"; "Waterfall"; "DevOps"; "CI/CD"])].

Local Close Scope string_scope.

Definition skill_names : list str :=
  map (fun w => py w) (flat_map snd skill_table).

(** The capture [c'] after a pattern has matched, [c] being the capture
    before: left as it was, or set by a group of the pattern to a string the
    group stands for. *)
Definition capture_of (ic : bool) (r : re) (c c' : option str) : Prop :=
  c' = c \/ exists g v, In g (groups r) /\ c' = Some v /\ lang ic g v.

End Readings.

(* ===================================================================== *)
(** * src/checkers/ats_detector.py *)
(* ===================================================================== *)

Module ATSSystemDetector.

(** The configuration of one system: a dict with the keys [url_patterns],
    [html_signatures], [focus] and [tips], each of which may be absent
    ([None]); it is read with [config.get(key, default)]. *)
Record config := {
  url_patterns : option (list str);
  html_signatures : option (list str);
  focus : option str;
  tips : option (list str)
}.

(** The class attribute [ATS_SIGNATURES], a dict in insertion order.  It
    belongs to the class: every instance reads and updates the same table,
    so the methods take it as the state. *)
Definition signatures := list (str * config).

Definition ATS_SIGNATURES : signatures :=
  [(py "greenhouse",
    {| url_patterns := Some [py "greenhouse.io"; py "boards.greenhouse.io"];
       html_signatures := Some [py "data-greenhouse"; py "greenhouse"];
       focus := Some (py "Keyword matching + scorecard alignment");
       tips := Some [py "Role title matches highly weighted";
                     py "Answer knockout questions carefully";
                     py "Keywords are heavily weighted"] |});
   (py "workable",
    {| url_patterns := Some [py "workable.com"; py "apply.workable.com"];
       html_signatures := Some [py "workable-app"; py "workable"];
       focus := Some (py "Skills matching + disqualification questions");
       tips := Some [py "Watch for disqualification questions";
                     py "Parses .docx very well";
                     py "Skills matching is primary scoring"] |});
   (py "lever",
    {| url_patterns := Some [py "lever.co"; py "jobs.lever.co"];
       html_signatures := Some [py "lever-form"; py "lever"];
       focus := Some (py "Experience duration + cover letters");
       tips := Some [py "State years of experience clearly";
                     py "Cover letters surfaced to recruiters";
                     py "Write detailed cover letter"] |});
   (py "ashby",
    {| url_patterns := Some [py "ashbyhq.com"; py "jobs.ashbyhq.com"];
       html_signatures := Some [py "ashby-job"; py "ashby"];
       focus := Some (py "Modern, similar to Greenhouse");
       tips := Some [py "Treat similar to Greenhouse";
                     py "Strong keyword matching"] |});
   (py "taleo",
    {| url_patterns := Some [py "taleo.net"; py "taleo.com"];
       html_signatures := Some [py "taleo"];
       focus := Some (py "Strict keyword matching");
       tips := Some [py "Older system, very keyword-focused";
                     py "Use exact terminology";
                     py "Be thorough with all fields"] |});
   (py "workday",
    {| url_patterns := Some [py "myworkday.com"; py "workday.com"];
       html_signatures := Some [py "workday"];
       focus := Some (py "Enterprise, keyword-focused");
       tips := Some [py "Very keyword-driven";
                     py "Complete all optional fields";
                     py "Use exact matches"] |})].

(** [old.update(new)] on two configurations: the keys of [new] win. *)
Definition or_else {A : Type} (new old : option A) : option A :=
  match new with Some v => Some v | None => old end.

Definition update (old new : config) : config :=
  {| url_patterns := or_else (url_patterns new) (url_patterns old);
     html_signatures := or_else (html_signatures new) (html_signatures old);
     focus := or_else (focus new) (focus old);
     tips := or_else (tips new) (tips old) |}.

(** [table[system].update(new)], for a system of the table or not. *)
Fixpoint update_system (table : signatures) (system : str) (new : config) : signatures :=
  match table with
  | [] => []
  | (name, cfg) :: table' =>
      if str_eqb name system then (name, update cfg new) :: table'
      else (name, cfg) :: update_system table' system new
  end.

(** [__init__], for a rules file that is absent or holds a mapping whose
    configurations are mappings with values of the types of the table:
    [rules_file] is [None] when the file is not found, [Some None] when it
    has no key [ats_systems], and [Some (Some systems)] with the systems it
    configures.  What it returns is the class attribute after the merge. *)
Definition init (rules_file : option (option (list (str * config))))
    (table : signatures) : signatures :=
  match rules_file with
  | Some (Some systems) =>
      fold_left
        (fun table0 (entry : str * config) =>
           if mem (fst entry) (map fst table0)
           then update_system table0 (fst entry) (snd entry)
           else table0)
        systems table
  | Some None | None => table
  end.

(** [config.get(key, [])] *)
Definition get_list (o : option (list str)) : list str :=
  match o with Some l => l | None => [] end.

(** One of the two loops of [detect_ats]: the first system, in the order
    of the table, one of whose patterns occurs in the text. *)
Fixpoint scan (field : config -> option (list str)) (text_lower : str)
    (table : signatures) : option str :=
  match table with
  | [] => None
  | (system_name, cfg) :: table' =>
      if existsb (fun pattern => contains pattern text_lower) (get_list (field cfg))
      then Some system_name
      else scan field text_lower table'
  end.

Definition detect_ats (table : signatures) (application_url html_content : option str)
  : option str :=
  let by_url :=
    match application_url with
    | Some (c :: u) => scan url_patterns (lower (c :: u)) table
    | Some [] | None => None
    end in
  match by_url with
  | Some system_name => Some system_name
  | None =>
      match html_content with
      | Some (c :: h) => scan html_signatures (lower (c :: h)) table
      | Some [] | None => None
      end
  end.

Record optimization_tips := { tips_focus : str; tips_list : list str }.

Fixpoint lookup (table : signatures) (name : str) : option config :=
  match table with
  | [] => None
  | (k, cfg) :: table' => if str_eqb k name then Some cfg else lookup table' name
  end.

Definition get_optimization_tips (table : signatures) (ats_name : str)
  : optimization_tips :=
  match lookup table ats_name with
  | None =>
      {| tips_focus := py "General ATS optimization";
         tips_list := [py "Use exact keywords from job description";
                       py "Ensure .docx format";
                       py "Single column layout";
                       py "No graphics or tables"] |}
  | Some cfg =>
      {| tips_focus := match focus cfg with
                       | Some f => f
                       | None => py "General optimization"
                       end;
         tips_list := get_list (tips cfg) |}
  end.

Definition get_all_systems (table : signatures) : list str := map fst table.

(** ** Reading of the statements about the detector *)

(** Some pattern of the system's configuration occurs in the text. *)
Definition occurs_in (field : config -> option (list str)) (text_lower : str)
    (entry : str * config) : bool :=
  existsb (fun pattern => contains pattern text_lower) (get_list (field (snd entry))).

(** The text an argument gives to search in: none when the argument is
    missing or empty. *)
Definition searched (argument : option str) : option str :=
  match argument with
  | Some (c :: u) => Some (lower (c :: u))
  | Some [] | None => None
  end.

End ATSSystemDetector.

(* ===================================================================== *)
(** * src/parsers/structure_analyzer.py *)
(* ===================================================================== *)

Module StructureAnalyzer.

Import Regex.
Local Open Scope result_scope.

(** The instance: the text and its lines, [jd_text.split('\n')]. *)
Record analyzer := {
  jd_text : str;
  lines : list str
}.

Definition init (jd_text0 : str) : analyzer :=
  {| jd_text := jd_text0; lines := split_on 10 jd_text0 |}.

(** One section: the keys [name], [start_line], [end_line] and [content]. *)
Record section_entry := {
  name : str;
  start_line : Z;
  end_line : Z;
  content : list str
}.

(** The three header patterns, those of [analyze_structure]. *)
Definition header_patterns : list re := JobDescriptionParser.header_patterns.

(** The loop over the patterns for one line: the name under the first
    pattern that matches (the loop ends there), or nothing. *)
Fixpoint first_header (patterns : list re) (line_stripped : str) : result (option str) :=
  match patterns with
  | [] => Ok None
  | pattern :: patterns' =>
      match rmatch NOFLAGS pattern line_stripped with
      | Some m =>
          header <- JobDescriptionParser.group1_strip m ;;
          Ok (Some header)
      | None => first_header patterns' line_stripped
      end
  end.

(** The body of the loop over the lines, on [(sections, current_section)]. *)
Definition section_step (n_lines : nat)
    (st : list section_entry * option section_entry) (il : nat * str)
  : result (list section_entry * option section_entry) :=
  let i := fst il in
  header <- first_header header_patterns (strip (snd il)) ;;
  match header with
  | None => Ok st
  | Some name0 =>
      let sections0 :=
        match snd st with
        | Some current =>
            fst st ++ [{| name := name current;
                          start_line := start_line current;
                          end_line := (Z.of_nat i - 1)%Z;
                          content := content current |}]
        | None => fst st
        end in
      Ok (sections0,
          Some {| name := name0;
                  start_line := Z.of_nat i;
                  end_line := (Z.of_nat n_lines - 1)%Z;
                  content := [] |})
  end.

Definition identify_sections (self : analyzer) : result (list section_entry) :=
  st <- JobDescriptionParser.fold_result (section_step (List.length (lines self)))
          (JobDescriptionParser.enumerate (lines self)) ([], None) ;;
  Ok (match snd st with
      | Some current => fst st ++ [current]
      | None => fst st
      end).

(** ** Reading of the statements about the sections *)

(** The sections follow one another without gap or overlap, and after the
    last one comes line [next]. *)
Fixpoint tiles (next : Z) (l : list section_entry) : Prop :=
  match l with
  | [] => True
  | a :: l' =>
      (0 <= start_line a <= end_line a)%Z
      /\ (end_line a + 1)%Z = match l' with
                              | [] => next
                              | b :: _ => start_line b
                              end
      /\ tiles next l'
  end.

(** Section [s] starts at a header line and has the name found there. *)
Definition starts_at_header (self : analyzer) (s : section_entry) : Prop :=
  exists i line,
    start_line s = Z.of_nat i
    /\ nth_error (lines self) i = Some line
    /\ first_header header_patterns (strip line) = Ok (Some (name s))
    /\ content s = [].

(** What the loop of [identify_sections] holds after the lines before
    line [k]: the closed sections reach up to the open one, which starts
    before [k]; every section starts at a header line; and every header
    line before [k] has its section. *)
Definition sections_of (st : list section_entry * option section_entry)
  : list section_entry :=
  fst st ++ match snd st with Some current => [current] | None => [] end.

Definition loop_invariant (self : analyzer) (k : nat)
    (st : list section_entry * option section_entry) : Prop :=
  match snd st with
  | None => fst st = []
  | Some current =>
      tiles (start_line current) (fst st)
      /\ (0 <= start_line current < Z.of_nat k)%Z
      /\ end_line current = (Z.of_nat (List.length (lines self)) - 1)%Z
  end
  /\ Forall (starts_at_header self) (sections_of st)
  /\ (forall i line name0,
        i < k ->
        nth_error (lines self) i = Some line ->
        first_header header_patterns (strip line) = Ok (Some name0) ->
        exists s, In s (sections_of st)
                  /\ start_line s = Z.of_nat i /\ name s = name0).

End StructureAnalyzer.

(* ===================================================================== *)
(** * The percentages of the matcher in binary64 doubles *)
(* ===================================================================== *)

From Stdlib Require Import Qpower.
From Stdlib Require SpecFloat.

Module Doubles.

Import PyStr KeywordMatcher.

(** A finite double (IEEE 754 binary64) is given by its exact value, a
    rational.  Every operation of the integers and doubles used here is
    correctly rounded: its result is the double nearest to the exact
    result, a tie going to the double with the even mantissa. *)

(** 53 bits of mantissa; the last place of a subnormal is [2^-1074]; the
    finite doubles are below [2^1024]. *)
Definition prec : Z := 53.
Definition emin : Z := -1074.
Definition emax : Z := 1024.

Definition pow2 (e : Z) : Q := ((2 # 1) ^ e)%Q.

(** The binary order of magnitude of [x], for [x] not 0: the [e] with
    [2^(e-1) <= |x| < 2^e]. *)
Definition mag (x : Q) : Z :=
  let e := (Z.log2 (Z.abs (Qnum x)) - Z.log2 (Zpos (Qden x)))%Z in
  if Qle_bool (pow2 e) (Qabs x) then (e + 1)%Z else e.

(** The exponent of the last place of the doubles of the magnitude of [x]. *)
Definition ulp_exp (x : Q) : Z := Z.max (mag x - prec) emin.

(** The multiple of [2^ulp_exp x] nearest to [x], a tie going to the even
    multiple. *)
Definition rne (x : Q) : Q :=
  let e := ulp_exp x in
  Qred (inject_Z (round_half_even (x / pow2 e)) * pow2 e).

(** The result of an operation whose exact result is [x]: none when the
    rounded value is too large for a finite double. *)
Definition double (x : Q) : option Q :=
  let y := rne x in
  if Qle_bool (pow2 emax) (Qabs y) then None else Some y.

(** [float(z)] *)
Definition float_of_int (z : Z) : option Q := double (inject_Z z).

(** [x / y] on integers: the quotient, correctly rounded.  None stands for
    ZeroDivisionError and for OverflowError. *)
Definition truediv (x y : Z) : option Q :=
  if (y =? 0)%Z then None else double (inject_Z x / inject_Z y).

(** [x * y] on doubles. *)
Definition mul (x y : Q) : option Q := double (x * y).

(** A number of Python: an [int] or a [float]. *)
Inductive number :=
| Int (z : Z)
| Float (x : Q).

Definition value (n : number) : Q :=
  match n with
  | Int z => inject_Z z
  | Float x => x
  end.

(** [x / y * 100] on integers [x], [y]. *)
Definition percent_double (x y : nat) : option Q :=
  match truediv (Z.of_nat x) (Z.of_nat y), float_of_int 100 with
  | Some q, Some c => mul q c
  | _, _ => None
  end.

(** [round(n, 1)].  An [int] is returned as it is.  A [float] is rounded to
    one decimal in exact arithmetic, a tie going to the even digit
    ([round1]), and the result is the double nearest to that decimal. *)
Definition round_1 (n : number) : option number :=
  match n with
  | Int z => Some (Int z)
  | Float x => option_map Float (double (round1 x))
  end.

(** [(x / y * 100) if y > 0 else 0] *)
Definition percentage_or_0 (x y : nat) : option number :=
  if (0 <? y)%nat then option_map Float (percent_double x y) else Some (Int 0).

(** The number [calculate_match_percentage] stores under
    ['match_percentage']. *)
Definition match_percentage_stored (self : matcher) : option number :=
  let all_keywords := collect_keywords (jd_keywords self) in
  let (matched_set, missing) := check_keywords self all_keywords in
  let total_keywords0 := List.length all_keywords in
  let matched_count := List.length matched_set in
  match percentage_or_0 matched_count total_keywords0 with
  | Some match_percentage0 => round_1 match_percentage0
  | None => None
  end.

(** The number stored under ['percentage'] for one category. *)
Definition category_percentage_stored (self : matcher) (keywords0 : list str)
  : option number :=
  let category_keywords := map (fun k => strip (lower k)) (filter nonempty keywords0) in
  let category_matched := List.length (filter (keyword_found self) category_keywords) in
  let total0 := List.length category_keywords in
  percentage_or_0 category_matched total0.

(** ** Against the arithmetic of the standard library *)

(** The same operations with the binary64 operations of [SpecFloat]. *)
Definition SF_of_int (z : Z) : SpecFloat.spec_float :=
  SpecFloat.binary_normalize 53 1024 z 0 false.

Definition SF_value (f : SpecFloat.spec_float) : option Q :=
  match f with
  | SpecFloat.S754_zero _ => Some 0%Q
  | SpecFloat.S754_finite s m e =>
      Some (Qred (inject_Z (if s then Z.neg m else Z.pos m) * pow2 e))
  | _ => None
  end.

Definition SF_percent (x y : nat) : SpecFloat.spec_float :=
  SpecFloat.SFmul 53 1024
    (SpecFloat.SFdiv 53 1024 (SF_of_int (Z.of_nat x)) (SF_of_int (Z.of_nat y)))
    (SF_of_int 100).

(** The double nearest to [z / 10], as the quotient of two integers. *)
Definition SF_tenths (z : Z) : SpecFloat.spec_float :=
  SpecFloat.SFdiv 53 1024 (SF_of_int z) (SF_of_int 10).

(** Samples: keyword [n] is the letter a, [n + 1] times; the text holds the
    first [matched] keywords, the mapping the first [total]. *)
Definition sample_keyword (n : nat) : str := repeat 97%N (S n).

Definition sample_matcher (matched total : nat) : matcher :=
  init (join (py " ") (map sample_keyword (seq 0 matched)))
       [(py "skills", map sample_keyword (seq 0 total))].

End Doubles.


(* ===================================================================== *)
(** * Facts about the ATS compatibility checker *)
(* ===================================================================== *)

Module ATSFacts.

Import ATSCompatibilityChecker.
Local Open Scope Z_scope.
Unset Implicit Arguments.

Lemma appended_nil (c : checker) : appended c [] = c.
Proof. destruct c; unfold appended; simpl; now rewrite app_nil_r. Qed.

Lemma appended_app (c : checker) (l1 l2 : list issue_record) :
  appended (appended c l1) l2 = appended c (l1 ++ l2).
Proof. unfold appended; simpl; now rewrite app_assoc. Qed.

Lemma total_deduction_app (l1 l2 : list issue_record) :
  total_deduction (l1 ++ l2) = total_deduction l1 + total_deduction l2.
Proof. induction l1 as [|i l1 IH]; simpl; [reflexivity | rewrite IH; lia]. Qed.

Lemma issues_append_appended (i : issue_record) (c : checker) :
  issues_append i c = (tt, appended c [i]).
Proof. reflexivity. Qed.

(** Both sides are pairs of a value and an instance that differ in how the
    appended entries are bracketed. *)
Ltac same_instance :=
  unfold ret, appended; simpl;
  rewrite <- ?app_assoc, ?app_nil_r; simpl;
  try reflexivity;
  try match goal with c : checker |- _ => destruct c; reflexivity end.

(** ** One equation per check: the value returned and the entries appended *)

Lemma check_file_format_eq (c : checker) :
  check_file_format c =
  (- total_deduction (format_issues (cv_path c) (rules c)),
   appended c (format_issues (cv_path c) (rules c))).
Proof.
  unfold check_file_format, format_issues, format_violation, bind, get_self.
  destruct (negb (mem (lower (snd (splitext (cv_path c))))
                      (file_formats_allowed (rules c)))); simpl.
  - reflexivity.
  - now rewrite appended_nil.
Qed.

Lemma layout_columns_eq (secs : list section) (c : checker) :
  layout_columns secs c =
  (if multi_column secs then 10 else 0,
   appended c (if multi_column secs
               then [mk_issue HIGH (py "Multi-column layout detected") 10]
               else [])).
Proof.
  induction secs as [|s secs IH]; simpl.
  - unfold ret; now rewrite appended_nil.
  - destruct (columns s) as [| |n]; simpl; try exact IH.
    destruct (1 <? n); simpl; [reflexivity | exact IH].
Qed.

Lemma check_layout_eq (c : checker) (d : Document) :
  doc c = Some d ->
  check_layout c = (- total_deduction (layout_issues d), appended c (layout_issues d)).
Proof.
  intros Hd. unfold check_layout, bind, get_self. rewrite Hd.
  unfold layout_issues, tables_violation.
  destruct (0 <? tables d)%nat; simpl;
    rewrite layout_columns_eq; destruct (multi_column (sections d));
    same_instance.
Qed.

Lemma check_fonts_eq (c : checker) (d : Document) :
  doc c = Some d ->
  check_fonts c =
  (- total_deduction (font_name_issues (rules c) d ++ font_size_issues (rules c) d),
   appended c (font_name_issues (rules c) d ++ font_size_issues (rules c) d)).
Proof.
  intros Hd. unfold check_fonts, bind, get_self. rewrite Hd.
  unfold font_name_issues, font_size_issues, font_violation, size_violation.
  fold (scan_of (rules c) d).
  destruct (non_standard_fonts (scan_of (rules c) d)) as [|x xs] eqn:Hn;
    destruct (invalid_sizes (scan_of (rules c) d)) as [|y ys] eqn:Hs;
    same_instance.
Qed.

Lemma section_issues_unfold (s : section) :
  section_issues s =
  (if header_violation s
   then [mk_issue MEDIUM (py "Header contains text - ATS may not read it") 8]
   else [])
  ++ (if footer_violation s
      then [mk_issue MEDIUM (py "Footer contains text - ATS may not read it") 7]
      else []).
Proof. reflexivity. Qed.

Lemma headers_footers_loop_eq (secs : list section) (c : checker) :
  headers_footers_loop secs c =
  (total_deduction (flat_map section_issues secs),
   appended c (flat_map section_issues secs)).
Proof.
  revert c; induction secs as [|s secs IH]; intros c.
  - cbn [headers_footers_loop flat_map total_deduction fold_right].
    unfold ret; now rewrite appended_nil.
  - cbn [headers_footers_loop flat_map]. unfold bind.
    fold (header_violation s); fold (footer_violation s).
    rewrite section_issues_unfold.
    destruct (header_violation s), (footer_violation s);
      rewrite ?issues_append_appended; cbv beta iota zeta; unfold ret;
      rewrite ?issues_append_appended; cbv beta iota zeta;
      rewrite IH; apply pair_equal_spec; split;
      try (rewrite ?total_deduction_app;
           cbn [total_deduction fold_right deduction app]; lia);
      rewrite ?appended_app; cbn [app]; rewrite ?appended_nil; reflexivity.
Qed.

Lemma check_headers_footers_eq (c : checker) (d : Document) :
  doc c = Some d ->
  check_headers_footers c =
  (- total_deduction (flat_map section_issues (sections d)),
   appended c (flat_map section_issues (sections d))).
Proof.
  intros Hd. unfold check_headers_footers, bind, get_self. rewrite Hd.
  rewrite headers_footers_loop_eq. reflexivity.
Qed.

Lemma check_graphics_eq (c : checker) (d : Document) :
  doc c = Some d ->
  check_graphics c =
  (- total_deduction (graphics_issues d), appended c (graphics_issues d)).
Proof.
  intros Hd. unfold check_graphics, bind, get_self. rewrite Hd.
  unfold graphics_issues. destruct (has_graphics (rels d)); simpl; unfold ret.
  - reflexivity.
  - now rewrite appended_nil.
Qed.

Lemma check_special_characters_eq (c : checker) (d : Document) :
  doc c = Some d ->
  check_special_characters c =
  (- total_deduction (special_issues d), appended c (special_issues d)).
Proof.
  intros Hd. unfold check_special_characters, bind, get_self. rewrite Hd.
  unfold special_issues, special_violation. fold (found_unusual d).
  destruct (found_unusual d) as [|b bs]; simpl; unfold ret.
  - now rewrite appended_nil.
  - reflexivity.
Qed.

(** Without a loaded document the five content checks return 0 and append
    nothing. *)
Lemma content_checks_unloaded (c : checker) :
  doc c = None ->
  check_layout c = (0, c) /\ check_fonts c = (0, c)
  /\ check_headers_footers c = (0, c) /\ check_graphics c = (0, c)
  /\ check_special_characters c = (0, c).
Proof.
  intros Hd.
  unfold check_layout, check_fonts, check_headers_footers, check_graphics,
    check_special_characters, bind, get_self.
  rewrite Hd. repeat split.
Qed.

(** ** The whole run *)

Lemma run_issues_total (path : str) (r : rules_table) (o : option Document) :
  total_deduction (run_issues path r o) =
  total_deduction (format_issues path r)
  + match o with
    | None => 0
    | Some d =>
        total_deduction (layout_issues d)
        + total_deduction (font_name_issues r d ++ font_size_issues r d)
        + total_deduction (flat_map section_issues (sections d))
        + total_deduction (graphics_issues d)
        + total_deduction (special_issues d)
    end.
Proof.
  unfold run_issues. rewrite total_deduction_app. destruct o as [d|].
  - rewrite !total_deduction_app. lia.
  - reflexivity.
Qed.

(** [calculate_total_score] resets the score, leaves the entries already in
    [self.issues] in place and appends the entries of this run. *)
Lemma calculate_total_score_eq (c : checker) :
  calculate_total_score c =
  (Z.max 0 (100 - total_deduction (run_issues (cv_path c) (rules c) (doc c))),
   mk_checker (cv_path c)
     (issues c ++ run_issues (cv_path c) (rules c) (doc c))
     (100 - total_deduction (run_issues (cv_path c) (rules c) (doc c)))
     (rules c) (doc c)).
Proof.
  destruct c as [p i s r o].
  unfold calculate_total_score, add_to_score, bind, set_score, get_self, ret.
  cbn [cv_path issues score rules doc].
  rewrite check_file_format_eq. cbn [cv_path issues score rules doc appended].
  rewrite run_issues_total.
  destruct o as [d|].
  - rewrite check_layout_eq with (d := d) by reflexivity.
    cbn [cv_path issues score rules doc appended].
    rewrite check_fonts_eq with (d := d) by reflexivity.
    cbn [cv_path issues score rules doc appended].
    rewrite check_headers_footers_eq with (d := d) by reflexivity.
    cbn [cv_path issues score rules doc appended].
    rewrite check_graphics_eq with (d := d) by reflexivity.
    cbn [cv_path issues score rules doc appended].
    rewrite check_special_characters_eq with (d := d) by reflexivity.
    cbn [cv_path issues score rules doc appended].
    unfold run_issues. rewrite <- !app_assoc.
    apply pair_equal_spec; split; [f_equal; lia | f_equal; lia].
  - destruct (content_checks_unloaded
                (mk_checker p (i ++ format_issues p r)
                   (100 + - total_deduction (format_issues p r)) r None) eq_refl)
      as (H1 & H2 & H3 & H4 & H5).
    rewrite H1. cbn [cv_path issues score rules doc].
    rewrite Z.add_0_r.
    rewrite H2. cbn [cv_path issues score rules doc].
    rewrite Z.add_0_r.
    rewrite H3. cbn [cv_path issues score rules doc].
    rewrite Z.add_0_r.
    rewrite H4. cbn [cv_path issues score rules doc].
    rewrite Z.add_0_r.
    rewrite H5. cbn [cv_path issues score rules doc].
    rewrite !Z.add_0_r. unfold run_issues. rewrite app_nil_r.
    reflexivity.
Qed.

Lemma init_loaded (r : rules_table) (f : cv_file) :
  init (file_path f) (Some r) (Some (file_content f)) = Ok (load r f).
Proof. unfold init, load. destruct (is_docx (file_path f)); reflexivity. Qed.

Lemma new_issues_appended {A : Type} (m : M A) (c : checker) {a : A}
    {l : list issue_record} :
  m c = (a, appended c l) -> new_issues m c = l.
Proof.
  intros H. unfold new_issues. rewrite H. cbn [snd appended issues].
  rewrite skipn_app, skipn_all, Nat.sub_diag. reflexivity.
Qed.

(** ** Values of the entries *)

Lemma format_issues_total (path : str) (r : rules_table) :
  total_deduction (format_issues path r) = if format_violation path r then 30 else 0.
Proof. unfold format_issues. now destruct (format_violation path r). Qed.

Lemma layout_issues_total (d : Document) :
  total_deduction (layout_issues d) =
  (if tables_violation d then 15 else 0) + (if multi_column (sections d) then 10 else 0).
Proof.
  unfold layout_issues.
  destruct (tables_violation d), (multi_column (sections d)); reflexivity.
Qed.

Lemma font_issues_total (r : rules_table) (d : Document) :
  total_deduction (font_name_issues r d ++ font_size_issues r d) =
  (if font_violation r d then 10 else 0) + (if size_violation r d then 5 else 0).
Proof.
  unfold font_name_issues, font_size_issues.
  destruct (font_violation r d), (size_violation r d); reflexivity.
Qed.

Lemma section_issues_total (secs : list section) :
  total_deduction (flat_map section_issues secs) =
  8 * Z.of_nat (List.length (filter header_violation secs))
  + 7 * Z.of_nat (List.length (filter footer_violation secs)).
Proof.
  induction secs as [|s secs IH].
  - reflexivity.
  - cbn [flat_map filter]. rewrite total_deduction_app, IH, section_issues_unfold.
    destruct (header_violation s), (footer_violation s);
      cbn [app total_deduction fold_right deduction List.length]; lia.
Qed.

Lemma graphics_issues_total (d : Document) :
  total_deduction (graphics_issues d) = if has_graphics (rels d) then 20 else 0.
Proof. unfold graphics_issues. now destruct (has_graphics (rels d)). Qed.

Lemma special_issues_total (d : Document) :
  total_deduction (special_issues d) = if special_violation d then 5 else 0.
Proof. unfold special_issues. now destruct (special_violation d). Qed.

(** What a loaded document costs, as a sum over the triggers. *)
Lemma content_total (r : rules_table) (d : Document) :
  total_deduction (layout_issues d)
  + total_deduction (font_name_issues r d ++ font_size_issues r d)
  + total_deduction (flat_map section_issues (sections d))
  + total_deduction (graphics_issues d)
  + total_deduction (special_issues d)
  = (if tables_violation d then 15 else 0)
    + (if multi_column (sections d) then 10 else 0)
    + (if font_violation r d then 10 else 0)
    + (if size_violation r d then 5 else 0)
    + 8 * Z.of_nat (header_count d) + 7 * Z.of_nat (footer_count d)
    + (if has_graphics (rels d) then 20 else 0)
    + (if special_violation d then 5 else 0).
Proof.
  rewrite layout_issues_total, font_issues_total, section_issues_total,
    graphics_issues_total, special_issues_total.
  unfold header_count, footer_count. lia.
Qed.

Lemma run_issues_nonneg (path : str) (r : rules_table) (o : option Document) :
  0 <= total_deduction (run_issues path r o).
Proof.
  rewrite run_issues_total, format_issues_total.
  destruct o as [d|].
  - rewrite content_total.
    destruct (format_violation path r), (tables_violation d),
      (multi_column (sections d)), (font_violation r d), (size_violation r d),
      (has_graphics (rels d)), (special_violation d); lia.
  - destruct (format_violation path r); lia.
Qed.

Lemma total_score_eq (r : rules_table) (f : cv_file) :
  total_score r f =
  Z.max 0 (100 - total_deduction
                   (run_issues (file_path f) r
                      (if is_docx (file_path f) then Some (file_content f) else None))).
Proof. unfold total_score. rewrite calculate_total_score_eq. reflexivity. Qed.

Lemma implb_true_le (a b : bool) (x : Z) :
  implb a b = true -> 0 <= x ->
  (if a then x else 0) <= (if b then x else 0).
Proof. destruct a, b; simpl; intros; lia || discriminate. Qed.

(** What "adding violations" gives, trigger by trigger. *)
Lemma adds_violations_le (r : rules_table) (f1 f2 : cv_file) :
  adds_violations r f1 f2 = true ->
  (if format_violation (file_path f1) r then 30 else 0)
  <= (if format_violation (file_path f2) r then 30 else 0)
  /\ total_deduction (layout_issues (file_content f1))
     + total_deduction (font_name_issues r (file_content f1)
                          ++ font_size_issues r (file_content f1))
     + total_deduction (flat_map section_issues (sections (file_content f1)))
     + total_deduction (graphics_issues (file_content f1))
     + total_deduction (special_issues (file_content f1))
     <= total_deduction (layout_issues (file_content f2))
        + total_deduction (font_name_issues r (file_content f2)
                             ++ font_size_issues r (file_content f2))
        + total_deduction (flat_map section_issues (sections (file_content f2)))
        + total_deduction (graphics_issues (file_content f2))
        + total_deduction (special_issues (file_content f2)).
Proof.
  unfold adds_violations. intros Hadd.
  apply andb_prop in Hadd; destruct Hadd as [Hadd Hsp].
  apply andb_prop in Hadd; destruct Hadd as [Hadd Hgr].
  apply andb_prop in Hadd; destruct Hadd as [Hadd Hft].
  apply andb_prop in Hadd; destruct Hadd as [Hadd Hhd].
  apply andb_prop in Hadd; destruct Hadd as [Hadd Hsz].
  apply andb_prop in Hadd; destruct Hadd as [Hadd Hfn].
  apply andb_prop in Hadd; destruct Hadd as [Hadd Hcol].
  apply andb_prop in Hadd; destruct Hadd as [Hfmt Htab].
  apply Nat.leb_le in Hft, Hhd.
  split.
  - apply implb_true_le; [assumption | lia].
  - rewrite !content_total.
    pose proof (@implb_true_le _ _ 15 Htab ltac:(lia)).
    pose proof (@implb_true_le _ _ 10 Hcol ltac:(lia)).
    pose proof (@implb_true_le _ _ 10 Hfn ltac:(lia)).
    pose proof (@implb_true_le _ _ 5 Hsz ltac:(lia)).
    pose proof (@implb_true_le _ _ 20 Hgr ltac:(lia)).
    pose proof (@implb_true_le _ _ 5 Hsp ltac:(lia)).
    lia.
Qed.

(** ** Material added to a document adds violations *)

Lemma fonts_run_keeps (allowed : list str) (lo hi : Z) (acc : fonts_acc) (r : run) :
  (nonempty (non_standard_fonts acc) = true ->
   nonempty (non_standard_fonts (fonts_run allowed lo hi acc r)) = true)
  /\ (nonempty (invalid_sizes acc) = true ->
      nonempty (invalid_sizes (fonts_run allowed lo hi acc r)) = true).
Proof.
  assert (Hadd : forall x s, nonempty s = true -> nonempty (set_add x s) = true).
  { intros x s H. unfold set_add. destruct (mem x s); [exact H|].
    destruct s; [discriminate | reflexivity]. }
  unfold fonts_run.
  destruct (font_name r) as [[|c name]|]; destruct (font_size r) as [hp|];
    cbn [non_standard_fonts invalid_sizes];
    repeat match goal with
           | |- context [if ?b then _ else _] => destruct b
           end;
    cbn [non_standard_fonts invalid_sizes]; split; intros H; auto;
    destruct (invalid_sizes acc); try discriminate; reflexivity.
Qed.

Lemma fonts_runs_keep (allowed : list str) (lo hi : Z) (rs : list run) (acc : fonts_acc) :
  (nonempty (non_standard_fonts acc) = true ->
   nonempty (non_standard_fonts (fold_left (fonts_run allowed lo hi) rs acc)) = true)
  /\ (nonempty (invalid_sizes acc) = true ->
      nonempty (invalid_sizes (fold_left (fonts_run allowed lo hi) rs acc)) = true).
Proof.
  revert acc; induction rs as [|r rs IH]; intros acc; cbn [fold_left]; [tauto|].
  destruct (fonts_run_keeps allowed lo hi acc r) as [H1 H2].
  destruct (IH (fonts_run allowed lo hi acc r)) as [H3 H4]. auto.
Qed.

Lemma fonts_paragraphs_keep (allowed : list str) (lo hi : Z) (ps : list paragraph)
    (acc : fonts_acc) :
  (nonempty (non_standard_fonts acc) = true ->
   nonempty (non_standard_fonts
               (fold_left (fun a p => fold_left (fonts_run allowed lo hi) (runs p) a)
                          ps acc)) = true)
  /\ (nonempty (invalid_sizes acc) = true ->
      nonempty (invalid_sizes
                  (fold_left (fun a p => fold_left (fonts_run allowed lo hi) (runs p) a)
                             ps acc)) = true).
Proof.
  revert acc; induction ps as [|p ps IH]; intros acc; cbn [fold_left]; [tauto|].
  destruct (fonts_runs_keep allowed lo hi (runs p) acc) as [H1 H2].
  destruct (IH (fold_left (fonts_run allowed lo hi) (runs p) acc)) as [H3 H4]. auto.
Qed.

Lemma has_graphics_app (rs more : list (option str)) :
  has_graphics rs = true -> has_graphics (rs ++ more) = true.
Proof.
  induction rs as [|[t|] rs IH]; cbn [has_graphics app]; try discriminate.
  destruct (contains (py "image") (lower t)); auto.
Qed.

Lemma startswith_app (p s u : str) : startswith p s = true -> startswith p (s ++ u) = true.
Proof.
  revert s; induction p as [|x p IH]; intros [|y s]; cbn [startswith app];
    try reflexivity; try discriminate.
  intros H. apply andb_true_iff in H. destruct H as [-> H]. cbn [andb]. now apply IH.
Qed.

Lemma find_from_app (p s u : str) (i : nat) :
  find_from p s i <> None -> find_from p (s ++ u) i <> None.
Proof.
  revert i; induction s as [|c s IH]; intros i.
  - cbn [find_from app]. destruct (startswith p []) eqn:E; [|congruence].
    intros _. destruct p; [|discriminate]. destruct u; cbn [find_from startswith]; discriminate.
  - cbn [app]. cbn [find_from]. destruct (startswith p (c :: s)) eqn:E.
    + intros _. change (c :: s ++ u) with ((c :: s) ++ u).
      rewrite (startswith_app _ _ u E). discriminate.
    + intros H. destruct (startswith p (c :: s ++ u)); [discriminate|]. now apply IH.
Qed.

Lemma contains_app (p s u : str) : contains p s = true -> contains p (s ++ u) = true.
Proof.
  unfold contains, find. intros H.
  destruct (find_from p s 0) eqn:E; [|discriminate].
  destruct (find_from p (s ++ u) 0) eqn:E'; [reflexivity|].
  exfalso. apply (find_from_app p s u 0); congruence.
Qed.

Lemma join_app_prefix (sep : str) (l more : list str) :
  exists u, join sep (l ++ more) = join sep l ++ u.
Proof.
  induction l as [|x l IH].
  - exists (join sep more). reflexivity.
  - destruct IH as (u & E). destruct l as [|y l].
    + cbn [app]. destruct more as [|z more].
      * exists []. now rewrite app_nil_r.
      * exists (sep ++ join sep (z :: more)). reflexivity.
    + exists u. cbn [app join] in *. rewrite E. now rewrite <- !app_assoc.
Qed.

Lemma nonempty_filter_mono {A : Type} (p q : A -> bool) (l : list A) :
  (forall x, p x = true -> q x = true) ->
  nonempty (filter p l) = true -> nonempty (filter q l) = true.
Proof.
  intros Hpq. induction l as [|x l IH]; cbn [filter]; [discriminate|].
  destruct (p x) eqn:Ep.
  - intros _. now rewrite (Hpq x Ep).
  - intros H. destruct (q x); [reflexivity | now apply IH].
Qed.

Lemma extends_adds_violations (r : rules_table) (path : str) (d1 d2 : Document) :
  extends d1 d2 ->
  adds_violations r {| file_path := path; file_content := d1 |}
                    {| file_path := path; file_content := d2 |} = true.
Proof.
  intros (Ht & (ss & Hs) & (ps & Hp) & (rs & Hr)).
  unfold adds_violations. cbn [file_path file_content].
  repeat (apply andb_true_iff; split).
  - now destruct (format_violation path r).
  - unfold tables_violation. destruct (0 <? tables d1)%nat eqn:E; [|reflexivity].
    apply Nat.ltb_lt in E. cbn [implb]. apply Nat.ltb_lt. lia.
  - rewrite Hs. unfold multi_column. rewrite existsb_app.
    now destruct (existsb _ (sections d1)).
  - unfold font_violation, scan_of, fonts_scan. rewrite Hp, fold_left_app.
    destruct (nonempty (non_standard_fonts _)) eqn:E at 1; [|reflexivity].
    cbn [implb]. now apply fonts_paragraphs_keep.
  - unfold size_violation, scan_of, fonts_scan. rewrite Hp, fold_left_app.
    destruct (nonempty (invalid_sizes _)) eqn:E at 1; [|reflexivity].
    cbn [implb]. now apply fonts_paragraphs_keep.
  - unfold header_count. rewrite Hs, filter_app, length_app. apply Nat.leb_le. lia.
  - unfold footer_count. rewrite Hs, filter_app, length_app. apply Nat.leb_le. lia.
  - rewrite Hr. destruct (has_graphics (rels d1)) eqn:E; [|reflexivity].
    cbn [implb]. now apply has_graphics_app.
  - unfold special_violation, found_unusual. rewrite Hp, map_app.
    destruct (join_app_prefix [10%N] (map text (paragraphs d1)) (map text ps)) as (u & ->).
    destruct (nonempty (filter _ unusual_bullets)) eqn:E at 1; [|reflexivity].
    cbn [implb]. revert E. apply nonempty_filter_mono.
    intros b. apply contains_app.
Qed.

(** ** The score: range and monotonicity *)

(** Claim C1, as the code has it.  For every instance (every path, rules
    table and document, whatever [self.issues] and [self.score] held before)
    [calculate_total_score] returns a value between 0 and 100.  For two files
    under one rules table, the second with every violation of the first and
    possibly more, the score of the second is at most the score of the first,
    provided the second is loaded whenever the first is: a file whose
    extension is not [.docx] is never opened, so none of its content is
    deducted.  In particular the score does not rise when tables, sections,
    paragraphs or embedded parts are added to a document under the same
    path. *)
Theorem calculate_total_score_range_and_monotone :
  (forall c : checker, 0 <= fst (calculate_total_score c) <= 100)
  /\ (forall (r : rules_table) (f1 f2 : cv_file),
        adds_violations r f1 f2 = true ->
        (is_docx (file_path f1) = true -> is_docx (file_path f2) = true) ->
        total_score r f2 <= total_score r f1)
  /\ (forall (r : rules_table) (path : str) (d1 d2 : Document),
        extends d1 d2 ->
        total_score r {| file_path := path; file_content := d2 |}
        <= total_score r {| file_path := path; file_content := d1 |}).
Proof.
  assert (Hmono : forall (r : rules_table) (f1 f2 : cv_file),
             adds_violations r f1 f2 = true ->
             (is_docx (file_path f1) = true -> is_docx (file_path f2) = true) ->
             total_score r f2 <= total_score r f1).
  { intros r f1 f2 Hadd Hload.
    destruct (adds_violations_le r f1 f2 Hadd) as [Hfmt Hcontent].
    rewrite !total_score_eq, !run_issues_total, !format_issues_total.
    destruct (is_docx (file_path f2)) eqn:H2.
    - destruct (is_docx (file_path f1)).
      + lia.
      + assert (0 <= total_deduction (layout_issues (file_content f2))
                     + total_deduction (font_name_issues r (file_content f2)
                                          ++ font_size_issues r (file_content f2))
                     + total_deduction (flat_map section_issues
                                          (sections (file_content f2)))
                     + total_deduction (graphics_issues (file_content f2))
                     + total_deduction (special_issues (file_content f2))).
        { rewrite content_total.
          destruct (tables_violation (file_content f2)),
            (multi_column (sections (file_content f2))),
            (font_violation r (file_content f2)),
            (size_violation r (file_content f2)),
            (has_graphics (rels (file_content f2))),
            (special_violation (file_content f2)); lia. }
        lia.
    - destruct (is_docx (file_path f1)).
      + specialize (Hload eq_refl). discriminate.
      + lia. }
  split; [|split; [exact Hmono|]].
  - intros c. rewrite calculate_total_score_eq. cbn [fst].
    pose proof (run_issues_nonneg (cv_path c) (rules c) (doc c)). lia.
  - intros r path d1 d2 He. apply Hmono.
    + now apply extends_adds_violations.
    + cbn [file_path]. auto.
Qed.

(** A docx with a table and an image, and the same file with a header
    added: the hypotheses hold and the score drops from 65 to 57. *)
Lemma calculate_total_score_monotone_witness :
  adds_violations default_rules Examples.cv_docx Examples.cv_docx_header = true
  /\ total_score default_rules Examples.cv_docx = 65
  /\ total_score default_rules Examples.cv_docx_header = 57
  /\ total_score default_rules Examples.cv_docx_header
     <= total_score default_rules Examples.cv_docx.
Proof.
  split; [|split; [|split]].
  - reflexivity.
  - reflexivity.
  - reflexivity.
  - apply (proj1 (proj2 calculate_total_score_range_and_monotone)
             default_rules Examples.cv_docx Examples.cv_docx_header).
    + reflexivity.
    + intros _. reflexivity.
Defined.

(** Claim C1 as stated fails: the same document under a disallowed
    extension has every violation of the original and one more, yet scores
    70 against 65, because the checker opens [.docx] files only. *)
Lemma calculate_total_score_not_monotone :
  adds_violations default_rules Examples.cv_docx Examples.cv_doc = true
  /\ format_violation (file_path Examples.cv_docx) default_rules = false
  /\ format_violation (file_path Examples.cv_doc) default_rules = true
  /\ total_score default_rules Examples.cv_docx = 65
  /\ total_score default_rules Examples.cv_doc = 70.
Proof. repeat split. Qed.

(** ** The file-format check *)

(** Claim C4, as the code has it.  If the lower-cased extension of the path
    is an entry of the allowed list, [check_file_format] returns 0 and leaves
    the instance as it was (no entry is appended).  Otherwise it returns
    minus the class constant [SCORING_WEIGHTS['file_format']], which is 30
    whatever weight the rules table carries, and appends one entry with that
    deduction. *)
Theorem check_file_format_deduction (c : checker) :
  (mem (lower (snd (splitext (cv_path c)))) (file_formats_allowed (rules c)) = true ->
   check_file_format c = (0, c))
  /\ (mem (lower (snd (splitext (cv_path c)))) (file_formats_allowed (rules c)) = false ->
      fst (check_file_format c) = - w_file_format SCORING_WEIGHTS
      /\ fst (check_file_format c) = -30
      /\ map deduction (new_issues check_file_format c) = [30]).
Proof.
  rewrite check_file_format_eq.
  pose proof (new_issues_appended check_file_format c (check_file_format_eq c)) as Hnew.
  rewrite Hnew. unfold format_issues, format_violation.
  split; intros Hmem; rewrite Hmem; cbn [negb].
  - now rewrite appended_nil.
  - repeat split.
Qed.

(** An upper-case [.DOCX] under the default table passes; a PDF under a
    table that asks for 40 points loses 30. *)
Lemma check_file_format_deduction_witness :
  check_file_format Examples.checker_docx_default = (0, Examples.checker_docx_default)
  /\ fst (check_file_format Examples.checker_pdf_40) = -30.
Proof.
  split.
  - apply (proj1 (check_file_format_deduction Examples.checker_docx_default)).
    reflexivity.
  - apply (proj2 (check_file_format_deduction Examples.checker_pdf_40)).
    reflexivity.
Defined.

(** Claim C4 as stated fails twice.  The rules table of [checker_pdf_40]
    sets the file-format weight to 40 and the deduction is still 30; and the
    extension [.docx] is, case ignored, in the allowed set [.DOCX] of
    [checker_docx_upper], yet 30 points are deducted: only the extension is
    lower-cased, not the entries of the set. *)
Lemma check_file_format_ignores_rules :
  file_format_weight (scoring (rules Examples.checker_pdf_40)) = 40
  /\ fst (check_file_format Examples.checker_pdf_40) = -30
  /\ allowed_ignoring_case (cv_path Examples.checker_docx_upper)
       (rules Examples.checker_docx_upper) = true
  /\ fst (check_file_format Examples.checker_docx_upper) = -30
  /\ List.length (new_issues check_file_format Examples.checker_docx_upper) = 1%nat.
Proof. repeat split. Qed.

(** ** Severities *)

(** Claim C5, as the code has it.  The entries a check appends carry the
    severity of the check: HIGH for the file format, for the layout (tables
    and columns) and for graphics, MEDIUM for headers and footers, LOW for
    special characters.  The font check appends up to two entries: the one
    on non-standard font names is MEDIUM, the one on font sizes out of range
    is LOW. *)
Theorem severity_fixed_per_check (c : checker) :
  all_severity HIGH (new_issues check_file_format c)
  /\ all_severity HIGH (new_issues check_layout c)
  /\ (exists names sizes,
        new_issues check_fonts c = names ++ sizes
        /\ Forall (fun i => severity i = MEDIUM
                            /\ startswith (py "Non-standard fonts detected") (issue i) = true)
                  names
        /\ Forall (fun i => severity i = LOW
                            /\ startswith (py "Font sizes outside") (issue i) = true)
                  sizes)
  /\ all_severity MEDIUM (new_issues check_headers_footers c)
  /\ all_severity HIGH (new_issues check_graphics c)
  /\ all_severity LOW (new_issues check_special_characters c).
Proof.
  unfold all_severity.
  rewrite (new_issues_appended check_file_format c (check_file_format_eq c)).
  destruct (doc c) as [d|] eqn:Hd.
  - rewrite (new_issues_appended check_layout c (check_layout_eq c d Hd)).
    rewrite (new_issues_appended check_fonts c (check_fonts_eq c d Hd)).
    rewrite (new_issues_appended check_headers_footers c (check_headers_footers_eq c d Hd)).
    rewrite (new_issues_appended check_graphics c (check_graphics_eq c d Hd)).
    rewrite (new_issues_appended check_special_characters c
               (check_special_characters_eq c d Hd)).
    repeat split.
    + unfold format_issues. destruct (format_violation _ _); repeat constructor.
    + unfold layout_issues.
      destruct (tables_violation d), (multi_column (sections d)); repeat constructor.
    + exists (font_name_issues (rules c) d), (font_size_issues (rules c) d).
      split; [reflexivity|]. unfold font_name_issues, font_size_issues.
      split.
      * destruct (font_violation (rules c) d); repeat constructor.
      * destruct (size_violation (rules c) d); repeat constructor.
    + induction (sections d) as [|s secs IH]; [constructor|].
      cbn [flat_map]. apply Forall_app. split; [|exact IH].
      rewrite section_issues_unfold.
      destruct (header_violation s), (footer_violation s); repeat constructor.
    + unfold graphics_issues. destruct (has_graphics (rels d)); repeat constructor.
    + unfold special_issues. destruct (special_violation d); repeat constructor.
  - destruct (content_checks_unloaded c Hd) as (H1 & H2 & H3 & H4 & H5).
    rewrite <- (appended_nil c) in H1 at 2.
    rewrite <- (appended_nil c) in H2 at 2.
    rewrite <- (appended_nil c) in H3 at 2.
    rewrite <- (appended_nil c) in H4 at 2.
    rewrite <- (appended_nil c) in H5 at 2.
    rewrite (new_issues_appended _ c H1), (new_issues_appended _ c H2),
      (new_issues_appended _ c H3), (new_issues_appended _ c H4),
      (new_issues_appended _ c H5).
    repeat split; try constructor.
    + unfold format_issues. destruct (format_violation _ _); repeat constructor.
    + exists [], []. repeat split; constructor.
Qed.

(** Claim C5 as stated fails on font sizes: for a run in Arial at 14 pt the
    font check appends one entry, on the size, and its severity is LOW. *)
Lemma font_size_issue_is_low :
  map severity (new_issues check_fonts Examples.checker_large_type) = [LOW]
  /\ map deduction (new_issues check_fonts Examples.checker_large_type) = [5].
Proof. split; reflexivity. Qed.

(** ** Headers and footers, section by section *)

(** Claim C10.  For a loaded document each of whose sections has header
    text and footer text, [check_headers_footers] deducts 15 points per
    section and appends two entries per section. *)
Theorem check_headers_footers_per_section (c : checker) (d : Document) :
  doc c = Some d ->
  Forall (fun s => header_violation s = true /\ footer_violation s = true) (sections d) ->
  fst (check_headers_footers c) = - (15 * Z.of_nat (List.length (sections d)))
  /\ List.length (new_issues check_headers_footers c)
     = (2 * List.length (sections d))%nat
  /\ issues (snd (check_headers_footers c))
     = issues c ++ new_issues check_headers_footers c.
Proof.
  intros Hd Hall.
  rewrite (new_issues_appended check_headers_footers c (check_headers_footers_eq c d Hd)).
  rewrite (check_headers_footers_eq c d Hd). cbn [fst snd appended issues].
  split; [|split; [|reflexivity]].
  - rewrite section_issues_total.
    assert (Hh : filter header_violation (sections d) = sections d).
    { apply forallb_filter_id. apply forallb_forall. intros s Hs.
      rewrite Forall_forall in Hall. apply (Hall s Hs). }
    assert (Hf : filter footer_violation (sections d) = sections d).
    { apply forallb_filter_id. apply forallb_forall. intros s Hs.
      rewrite Forall_forall in Hall. apply (Hall s Hs). }
    rewrite Hh, Hf. lia.
  - induction Hall as [|s secs [Hh Hf] _ IH]; [reflexivity|].
    cbn [flat_map List.length]. rewrite length_app, IH, section_issues_unfold, Hh, Hf.
    cbn [app List.length]. lia.
Qed.

(** Two sections with header and footer: 30 points and four entries. *)
Lemma check_headers_footers_per_section_witness :
  fst (check_headers_footers Examples.checker_two_sections) = -30
  /\ List.length (new_issues check_headers_footers Examples.checker_two_sections) = 4%nat.
Proof.
  destruct (check_headers_footers_per_section
              Examples.checker_two_sections Examples.two_sections eq_refl)
    as (Hv & Hn & _).
  - repeat constructor.
  - split; [exact Hv | exact Hn].
Defined.

(** ** The scenarios of the specification *)

(** No table, no image, empty headers and footers, an allowed extension and
    no run at all: 100 points and no issue. *)
Example clean_document_report :
  report_score (fst (generate_report Examples.checker_docx_default)) = 100
  /\ report_issues (fst (generate_report Examples.checker_docx_default)) = []
  /\ report_grade (fst (generate_report Examples.checker_docx_default))
     = py "A - Excellent".
Proof. repeat split. Qed.

(** One table and a font that is not allowed: [100 - 15 - 10], and two
    issues, HIGH and MEDIUM. *)
Example table_and_font_report :
  report_score (fst (generate_report Examples.checker_table_and_font)) = 75
  /\ map severity (report_issues (fst (generate_report Examples.checker_table_and_font)))
     = [HIGH; MEDIUM].
Proof. repeat split. Qed.

(** ** Running the report twice *)

(** The score does not depend on what an earlier run left behind. *)
Lemma calculate_total_score_again (c : checker) :
  fst (calculate_total_score (snd (calculate_total_score c)))
  = fst (calculate_total_score c).
Proof. rewrite !calculate_total_score_eq. reflexivity. Qed.

(** The entries do: [self.issues] is never emptied, so a second run finds
    the entries of the first and appends its own after them. *)
Lemma calculate_total_score_accumulates (c : checker) :
  issues (snd (calculate_total_score (snd (calculate_total_score c))))
  = (issues c ++ run_issues (cv_path c) (rules c) (doc c))
      ++ run_issues (cv_path c) (rules c) (doc c).
Proof. rewrite !calculate_total_score_eq. reflexivity. Qed.

(** Claim C6 at a failing input: a PDF, checked twice through the same
    instance.  Both reports give the score 70; the first lists one issue and
    the second lists it twice. *)
Theorem generate_report_twice :
  report_score (fst (generate_report Examples.checker_pdf)) = 70
  /\ report_score (fst (generate_report (snd (generate_report Examples.checker_pdf)))) = 70
  /\ map deduction (report_issues (fst (generate_report Examples.checker_pdf))) = [30]
  /\ map deduction
       (report_issues (fst (generate_report (snd (generate_report Examples.checker_pdf)))))
     = [30; 30].
Proof. repeat split. Qed.

End ATSFacts.

(* ===================================================================== *)
(** * Facts about strings and the matcher of regular expressions *)
(* ===================================================================== *)

Module StrFacts.

Unset Implicit Arguments.

Lemma str_eqb_eq (a b : str) : str_eqb a b = true <-> a = b.
Proof.
  revert b; induction a as [|x a IH]; intros [|y b]; simpl;
    try (split; [discriminate | discriminate]); try tauto.
  rewrite andb_true_iff, N.eqb_eq, IH. split.
  - intros [-> ->]; reflexivity.
  - intros H; injection H; auto.
Qed.

Lemma str_eqb_refl (a : str) : str_eqb a a = true.
Proof. now apply str_eqb_eq. Qed.

Lemma mem_In (x : str) (l : list str) : mem x l = true <-> In x l.
Proof.
  unfold mem. rewrite existsb_exists. split.
  - intros (y & Hy & He). apply str_eqb_eq in He. now subst.
  - intros H. exists x. split; [assumption | apply str_eqb_refl].
Qed.

Lemma mem_false_not_In (x : str) (l : list str) : mem x l = false <-> ~ In x l.
Proof.
  rewrite <- mem_In. destruct (mem x l); split; intros; easy.
Qed.

Lemma set_add_In (x y : str) (s : list str) :
  In y (set_add x s) <-> y = x \/ In y s.
Proof.
  unfold set_add. destruct (mem x s) eqn:E.
  - apply mem_In in E. split; [auto | intros [->|]; assumption].
  - rewrite in_app_iff. simpl. intuition.
Qed.

Lemma set_add_NoDup (x : str) (s : list str) : NoDup s -> NoDup (set_add x s).
Proof.
  intros H. unfold set_add. destruct (mem x s) eqn:E; [assumption|].
  apply mem_false_not_In in E.
  apply NoDup_app; [assumption | repeat constructor; intros [] | ].
  intros a Ha [<-|[]]. contradiction.
Qed.

Lemma set_add_fresh (x : str) (s : list str) : ~ In x s -> set_add x s = s ++ [x].
Proof. intros H. unfold set_add. apply mem_false_not_In in H. now rewrite H. Qed.

(** [isword] does not see the case of a letter. *)
Lemma isword_lower_char (c : char) : isword (lower_char c) = isword c.
Proof.
  unfold lower_char, isupper, between.
  destruct (N.leb 65 c) eqn:H1; destruct (N.leb c 90) eqn:H2; simpl; try reflexivity.
  apply N.leb_le in H1, H2.
  unfold isword, isalpha, isupper, islower, isdigit, between.
  assert (E1 : N.leb 65 c = true) by now apply N.leb_le.
  assert (E2 : N.leb c 90 = true) by now apply N.leb_le.
  assert (E3 : N.leb 97 (c + 32) = true) by (apply N.leb_le; lia).
  assert (E4 : N.leb (c + 32) 122 = true) by (apply N.leb_le; lia).
  rewrite E1, E2, E3, E4. simpl. now rewrite !orb_true_r.
Qed.

Lemma lower_char_idem (c : char) : lower_char (lower_char c) = lower_char c.
Proof.
  unfold lower_char. destruct (isupper c) eqn:E.
  - assert (E' : isupper (c + 32) = false).
    { unfold isupper, between in *.
      apply andb_true_iff in E. destruct E as [H1 H2]. apply N.leb_le in H1, H2.
      apply andb_false_iff. right. apply N.leb_gt. lia. }
    now rewrite E'.
  - now rewrite E.
Qed.

End StrFacts.

Module RegexFacts.

Import Regex StrFacts.
Unset Implicit Arguments.

Lemma run_seqs_cons (f : flags) (a : re) (l : list re) (s : mstate)
    (k : mstate -> option mstate) :
  run f (seqs (a :: l)) s k = run f a s (fun s' => run f (seqs l) s' k).
Proof. destruct l; reflexivity. Qed.

(** A literal matches where the subject starts with it, and moves on by
    its length. *)
Lemma run_lit (f : flags) (w : str) (s : mstate) (k : mstate -> option mstate) :
  run f (lit w) s k =
  if lit_starts (ignorecase f) w (rest s) then k (consume (List.length w) s) else None.
Proof.
  revert s; induction w as [|x w IH]; intros s.
  - reflexivity.
  - unfold lit. cbn [map]. rewrite run_seqs_cons. fold (lit w).
    cbn [run lit_starts List.length consume].
    destruct (rest s) as [|c t]; [reflexivity|].
    destruct (cls_mem (ignorecase f) (CChar x) c); [|reflexivity].
    cbn [andb]. rewrite IH. reflexivity.
Qed.

Lemma consume_rest (n : nat) (s : mstate) : rest (consume n s) = skipn n (rest s).
Proof.
  revert s; induction n as [|n IH]; intros s; [reflexivity|].
  cbn [consume]. destruct (rest s) as [|x t] eqn:E; [now rewrite E|].
  rewrite IH. reflexivity.
Qed.

(** The character before the position reached: the last one consumed. *)
Lemma consume_prev (n : nat) (s : mstate) :
  (n <= List.length (rest s))%nat ->
  prev (consume n s) =
  match n with
  | O => prev s
  | S n' => nth_error (rest s) n'
  end.
Proof.
  revert s; induction n as [|n IH]; intros s Hn; [reflexivity|].
  cbn [consume]. destruct (rest s) as [|x t] eqn:E; [simpl in Hn; lia|].
  rewrite IH by (simpl in *; lia). cbn [rest prev].
  destruct n; reflexivity.
Qed.

Lemma lit_starts_length (ic : bool) (w t : str) :
  lit_starts ic w t = true -> (List.length w <= List.length t)%nat.
Proof.
  revert t; induction w as [|x w IH]; intros [|c t] H; simpl in *; try lia; try discriminate.
  apply andb_true_iff in H. destruct H as [_ H]. apply IH in H. lia.
Qed.

(** Where a search finds its match: at the current position, or further on. *)
Lemma search_at_some (f : flags) (r : re) (p : nat) (pv : option char) (rs : str) :
  search_at f r p pv rs =
  match match_at f r p pv rs with
  | Some me => Some me
  | None =>
      match rs with
      | [] => None
      | x :: rs' => search_at f r (S p) (Some x) rs'
      end
  end.
Proof. destruct rs; reflexivity. Qed.

(** ** Captures

    Whatever a match returns has gone through the continuation, and the
    capture, once set, stays set. *)

Lemma star_loop_through (step : mstate -> (mstate -> option mstate) -> option mstate)
    (g : bool) (k : mstate -> option mstate) (e : mstate) :
  (forall s k', step s k' = Some e ->
                exists s', k' s' = Some e /\ (captured s -> captured s')) ->
  forall n s0, star_loop step g k n s0 = Some e ->
               exists s', k s' = Some e /\ (captured s0 -> captured s').
Proof.
  intros Hstep. induction n as [|n IH]; intros s0 H; cbn [star_loop] in H.
  - exists s0. auto.
  - assert (Hmore : step s0
                      (fun s' => if (List.length (rest s') <? List.length (rest s0))%nat
                                 then star_loop step g k n s' else None) = Some e ->
                    exists s', k s' = Some e /\ (captured s0 -> captured s')).
    { intros Hm. apply Hstep in Hm. destruct Hm as (s1 & H1 & C1).
      destruct (List.length (rest s1) <? List.length (rest s0))%nat; [|discriminate].
      apply IH in H1. destruct H1 as (s' & Hk & C'). exists s'. auto. }
    destruct g.
    + destruct (step s0 _) as [e'|] eqn:E.
      * injection H as ->. now apply Hmore.
      * exists s0. auto.
    + destruct (k s0) as [e'|] eqn:E.
      * injection H as ->. exists s0. auto.
      * now apply Hmore.
Qed.

Lemma run_through (f : flags) (r : re) (e : mstate) :
  forall s k, run f r s k = Some e ->
    exists s', k s' = Some e
               /\ (captured s \/ captures r = true -> captured s').
Proof.
  induction r as [|c|a IHa b IHb|a IHa b IHb|g a IHa|a IHa| | | |a IHa];
    intros s k H; cbn [run captures] in *.
  - exists s. split; [assumption | intros [C|C]; [assumption | discriminate]].
  - destruct (rest s) as [|x t]; [discriminate|].
    destruct (cls_mem (ignorecase f) c x); [|discriminate].
    eexists. split; [exact H|]. intros [C|C]; [exact C | discriminate].
  - apply IHa in H. destruct H as (s1 & H1 & C1).
    apply IHb in H1. destruct H1 as (s' & H' & C').
    exists s'. split; [assumption|]. intros [C|C].
    + apply C'. left. apply C1. now left.
    + apply orb_true_iff in C. destruct C as [C|C].
      * apply C'. left. apply C1. now right.
      * apply C'. now right.
  - destruct (run f a s k) as [e'|] eqn:E.
    + injection H as ->. apply IHa in E. destruct E as (s' & H' & C').
      exists s'. split; [assumption|]. intros [C|C]; apply C'; [now left|].
      apply andb_true_iff in C. right. tauto.
    + apply IHb in H. destruct H as (s' & H' & C').
      exists s'. split; [assumption|]. intros [C|C]; apply C'; [now left|].
      apply andb_true_iff in C. right. tauto.
  - apply (star_loop_through (run f a) g k e) in H.
    + destruct H as (s' & H' & C'). exists s'. split; [assumption|].
      intros [C|C]; [auto | discriminate].
    + intros s0 k' H0. apply IHa in H0. destruct H0 as (s' & H' & C').
      exists s'. split; [assumption|]. intros C. apply C'. now left.
  - apply IHa in H. destruct H as (s1 & H1 & _).
    eexists. split; [exact H1|]. intros _. unfold captured. cbn [cap]. discriminate.
  - destruct (at_bol f s); [|discriminate].
    exists s. split; [assumption | intros [C|C]; [assumption | discriminate]].
  - destruct (at_eol f s); [|discriminate].
    exists s. split; [assumption | intros [C|C]; [assumption | discriminate]].
  - destruct (at_boundary s); [|discriminate].
    exists s. split; [assumption | intros [C|C]; [assumption | discriminate]].
  - destruct (run f a s (fun s' => Some s')); [|discriminate].
    exists s. split; [assumption | intros [C|C]; [assumption | discriminate]].
Qed.

(** The matches of a pattern that always captures have their group. *)
Lemma match_at_group1 (f : flags) (r : re) (p : nat) (pv : option char) (rs : str)
    (m : match_obj) (e : mstate) :
  captures r = true -> match_at f r p pv rs = Some (m, e) -> group1 m <> None.
Proof.
  intros Hc H. unfold match_at in H.
  destruct (run f r (start_state p pv rs) (fun e0 => Some e0)) as [e'|] eqn:E;
    [|discriminate].
  injection H as <- <-. cbn [group1].
  apply run_through in E. destruct E as (s' & Hs & C).
  injection Hs as ->. apply C. now right.
Qed.

Lemma search_at_group1 (f : flags) (r : re) (rs : str) :
  captures r = true ->
  forall p pv m e, search_at f r p pv rs = Some (m, e) -> group1 m <> None.
Proof.
  intros Hc. induction rs as [|x rs IH]; intros p pv m e H; rewrite search_at_some in H.
  - destruct (match_at f r p pv []) as [[m' e']|] eqn:E; [|discriminate].
    injection H as -> ->. eapply match_at_group1; eauto.
  - destruct (match_at f r p pv (x :: rs)) as [[m' e']|] eqn:E.
    + injection H as -> ->. eapply match_at_group1; eauto.
    + eapply IH; eauto.
Qed.

Lemma search_group1 (f : flags) (r : re) (text : str) (m : match_obj) :
  captures r = true -> search f r text = Some m -> group1 m <> None.
Proof.
  intros Hc H. unfold search in H.
  destruct (search_at f r 0 None text) as [[m' e]|] eqn:E; [|discriminate].
  injection H as ->. eapply search_at_group1; eauto.
Qed.

Lemma rmatch_group1 (f : flags) (r : re) (text : str) (m : match_obj) :
  captures r = true -> rmatch f r text = Some m -> group1 m <> None.
Proof.
  intros Hc H. unfold rmatch in H.
  destruct (match_at f r 0 None text) as [[m' e]|] eqn:E; [|discriminate].
  injection H as ->. eapply match_at_group1; eauto.
Qed.

Lemma finditer_at_group1 (f : flags) (r : re) :
  captures r = true ->
  forall fuel p pv rs m,
    In m (finditer_at fuel f r p pv rs) -> group1 m <> None.
Proof.
  intros Hc. induction fuel as [|fuel IH]; intros p pv rs m H; cbn [finditer_at] in H.
  - contradiction.
  - destruct (search_at f r p pv rs) as [[m' e]|] eqn:E; [|contradiction].
    destruct H as [<-|H].
    + eapply search_at_group1; eauto.
    + destruct (m_start m' <? m_end m')%nat.
      * eapply IH; eauto.
      * destruct (rest e) as [|x rs']; [contradiction|]. eapply IH; eauto.
Qed.

Lemma finditer_group1 (f : flags) (r : re) (text : str) (m : match_obj) :
  captures r = true -> In m (finditer f r text) -> group1 m <> None.
Proof. intros Hc H. eapply finditer_at_group1; eauto. Qed.

End RegexFacts.

(* ===================================================================== *)
(** * Facts about the keyword matcher *)
(* ===================================================================== *)

Module KeywordMatcherFacts.

Import Regex KeywordMatcher StrFacts RegexFacts.
Unset Implicit Arguments.

(** ** The keyword pattern *)

Lemma keyword_match_at (k : str) (p : nat) (pv : option char) (rs : str) :
  is_some (match_at IGNORECASE (keyword_pattern k) p pv rs) =
  (at_boundary (start_state p pv rs)
   && lit_starts true k rs
   && at_boundary (consume (List.length k) (start_state p pv rs)))%bool.
Proof.
  unfold match_at, keyword_pattern.
  cbn [run]. destruct (at_boundary (start_state p pv rs)); [|reflexivity].
  rewrite run_lit. cbn [ignorecase IGNORECASE rest start_state andb].
  destruct (lit_starts true k rs); [|reflexivity].
  cbn [andb].
  destruct (at_boundary (consume (List.length k) (start_state p pv rs))); reflexivity.
Qed.

Lemma lit_starts_ignoring_case (k t : str) :
  lit_starts true k t = starts_ignoring_case k t.
Proof.
  revert t; induction k as [|x k IH]; intros [|c t]; simpl; try reflexivity.
  now rewrite IH.
Qed.

Lemma starts_ignoring_case_lower (k t : str) :
  starts_ignoring_case k (lower t) = starts_ignoring_case k t.
Proof.
  revert t; induction k as [|x k IH]; intros [|c t]; simpl; try reflexivity.
  now rewrite lower_char_idem, IH.
Qed.

Lemma starts_ignoring_case_length (k t : str) :
  starts_ignoring_case k t = true -> (List.length k <= List.length t)%nat.
Proof.
  revert t; induction k as [|x k IH]; intros [|c t] H; simpl in *; try lia; try discriminate.
  apply andb_true_iff in H. destruct H as [_ H]. apply IH in H. lia.
Qed.

(** Where the text reads the keyword, case ignored, its characters are word
    characters where the keyword's are. *)
Lemma starts_ignoring_case_nth (k t : str) (i : nat) (x : char) :
  starts_ignoring_case k t = true -> nth_error k i = Some x ->
  exists c, nth_error t i = Some c /\ isword c = isword x.
Proof.
  revert t i; induction k as [|y k IH]; intros [|c t] i H Hx; simpl in H;
    try discriminate; try (destruct i; discriminate).
  apply andb_true_iff in H. destruct H as [Hc H].
  destruct i as [|i]; simpl in *.
  - injection Hx as ->. exists c. split; [reflexivity|].
    apply N.eqb_eq in Hc.
    rewrite <- (isword_lower_char c), <- (isword_lower_char x). now rewrite Hc.
  - eauto.
Qed.

Lemma word_edged_first (k : str) :
  word_edged k = true -> exists x, nth_error k 0 = Some x /\ isword x = true.
Proof.
  destruct k as [|c k]; simpl; [discriminate|]. intros H.
  apply andb_true_iff in H. exists c. tauto.
Qed.

Lemma nth_error_last (k : str) (d : char) :
  k <> [] -> nth_error k (List.length k - 1) = Some (last k d).
Proof.
  induction k as [|c k IH]; [congruence|]. intros _.
  destruct k as [|c' k]; [reflexivity|].
  replace (List.length (c :: c' :: k) - 1)%nat
    with (S (List.length (c' :: k) - 1)) by (simpl; lia).
  cbn [nth_error]. rewrite IH by discriminate. reflexivity.
Qed.

Lemma word_edged_last (k : str) :
  word_edged k = true ->
  exists x, nth_error k (List.length k - 1) = Some x /\ isword x = true.
Proof.
  intros H. destruct k as [|c k']; [discriminate|].
  unfold word_edged in H. apply andb_true_iff in H. destruct H as [_ H].
  exists (last (c :: k') c). split; [|exact H].
  apply (nth_error_last (c :: k') c). discriminate.
Qed.

(** For a keyword that begins and ends with a word character, the pattern
    matches at a position exactly where the text reads the keyword, with no
    word character before and none after. *)
Lemma keyword_match_at_word_edged (k : str) (p : nat) (pv : option char) (rs : str) :
  word_edged k = true ->
  is_some (match_at IGNORECASE (keyword_pattern k) p pv rs) =
  (starts_ignoring_case k rs
   && negb (is_word_opt pv)
   && negb (is_word_opt (hd_error (skipn (List.length k) rs))))%bool.
Proof.
  intros Hk. rewrite keyword_match_at, lit_starts_ignoring_case.
  destruct (starts_ignoring_case k rs) eqn:Hs.
  2:{ now rewrite andb_false_r. }
  rewrite andb_true_r. cbn [andb].
  destruct (word_edged_first k Hk) as (x & Hx & Wx).
  destruct (starts_ignoring_case_nth k rs 0 x Hs Hx) as (c & Hc & Wc).
  destruct (word_edged_last k Hk) as (y & Hy & Wy).
  destruct (starts_ignoring_case_nth k rs _ y Hs Hy) as (c' & Hc' & Wc').
  pose proof (starts_ignoring_case_length k rs Hs) as Hlen.
  assert (Hpos : (0 < List.length k)%nat).
  { destruct k; [discriminate | simpl; lia]. }
  f_equal.
  - unfold at_boundary. cbn [prev rest start_state].
    destruct rs as [|c0 rs]; [discriminate|]. simpl in Hc. injection Hc as ->.
    cbn [hd_error is_word_opt]. rewrite Wc, Wx.
    destruct pv; simpl; [now destruct (isword c0) | reflexivity].
  - unfold at_boundary. rewrite consume_rest, consume_prev by assumption.
    cbn [rest start_state].
    destruct (List.length k) as [|n] eqn:En; [lia|].
    cbn [Nat.sub] in Hc'. rewrite Nat.sub_0_r in Hc'. rewrite Hc'.
    cbn [is_word_opt]. rewrite Wc', Wy.
    destruct (hd_error (skipn (S n) rs)); simpl; [now destruct (isword c0) | reflexivity].
Qed.

Lemma is_word_opt_lower (o : option char) :
  is_word_opt (option_map lower_char o) = is_word_opt o.
Proof. destruct o; simpl; [apply isword_lower_char | reflexivity]. Qed.

Lemma hd_error_skipn_lower (n : nat) (t : str) :
  hd_error (skipn n (lower t)) = option_map lower_char (hd_error (skipn n t)).
Proof.
  unfold lower. rewrite skipn_map. now destruct (skipn n t).
Qed.

(** The search over the lower-cased text, position by position, against
    the scan that defines a whole-word occurrence. *)
Lemma keyword_search_scan (k : str) :
  word_edged k = true ->
  forall (t : str) (p : nat) (pv : option char),
    is_some (search_at IGNORECASE (keyword_pattern k) p
               (option_map lower_char pv) (lower t))
    = occurs_from k pv t.
Proof.
  intros Hk. induction t as [|c t IH]; intros p pv.
  - rewrite search_at_some.
    pose proof (keyword_match_at_word_edged k p (option_map lower_char pv) (lower [])
                  Hk) as Hm.
    cbn [occurs_from]. rewrite orb_false_r.
    rewrite is_word_opt_lower, hd_error_skipn_lower, is_word_opt_lower,
      starts_ignoring_case_lower in Hm.
    rewrite <- Hm.
    destruct (match_at IGNORECASE (keyword_pattern k) p (option_map lower_char pv)
                (lower [])); reflexivity.
  - rewrite search_at_some.
    pose proof (keyword_match_at_word_edged k p (option_map lower_char pv)
                  (lower (c :: t)) Hk) as Hm.
    rewrite is_word_opt_lower, hd_error_skipn_lower, is_word_opt_lower,
      starts_ignoring_case_lower in Hm.
    cbn [occurs_from]. rewrite <- Hm.
    destruct (match_at IGNORECASE (keyword_pattern k) p (option_map lower_char pv)
                (lower (c :: t))); [reflexivity|].
    cbn [is_some orb lower map]. apply (IH (S p) (Some c)).
Qed.

Lemma keyword_found_whole_word (cv_text0 : str) (jd : list (str * list str)) (k : str) :
  word_edged k = true ->
  keyword_found (init cv_text0 jd) k = occurs_whole_word k cv_text0.
Proof.
  intros Hk. unfold keyword_found, search, occurs_whole_word. cbn [cv_text init].
  rewrite <- (keyword_search_scan k Hk cv_text0 0 None). cbn [option_map].
  destruct (search_at IGNORECASE (keyword_pattern k) 0 None (lower cv_text0));
    reflexivity.
Qed.

(** ** The two loops *)

Lemma inner_loop_listed (kws : list str) (acc : list str) :
  fold_left
    (fun all_keywords keyword =>
       if nonempty keyword then set_add (strip (lower keyword)) all_keywords
       else all_keywords) kws acc
  = fold_left add_keyword (map normalize (filter nonempty kws)) acc.
Proof.
  revert acc; induction kws as [|kw kws IH]; intros acc; [reflexivity|].
  cbn [fold_left filter]. destruct (nonempty kw); cbn [map fold_left]; apply IH.
Qed.

Lemma collect_keywords_listed_from (jd : list (str * list str)) (acc : list str) :
  fold_left
    (fun all_keywords (entry : str * list str) =>
       fold_left
         (fun all_keywords keyword =>
            if nonempty keyword then set_add (strip (lower keyword)) all_keywords
            else all_keywords) (snd entry) all_keywords) jd acc
  = fold_left add_keyword (listed_keywords jd) acc.
Proof.
  revert acc; induction jd as [|e jd IH]; intros acc; [reflexivity|].
  cbn [fold_left listed_keywords flat_map]. rewrite fold_left_app, inner_loop_listed.
  apply IH.
Qed.

Lemma collect_keywords_listed (jd : list (str * list str)) :
  collect_keywords jd = fold_left add_keyword (listed_keywords jd) [].
Proof. apply collect_keywords_listed_from. Qed.

Lemma add_keywords_In (l acc : list str) (k : str) :
  In k (fold_left add_keyword l acc) <-> In k acc \/ In k l.
Proof.
  revert acc; induction l as [|x l IH]; intros acc; cbn [fold_left].
  - simpl. tauto.
  - rewrite IH. unfold add_keyword. rewrite set_add_In. simpl. intuition.
Qed.

Lemma add_keywords_NoDup (l acc : list str) :
  NoDup acc -> NoDup (fold_left add_keyword l acc).
Proof.
  revert acc; induction l as [|x l IH]; intros acc H; cbn [fold_left]; [assumption|].
  apply IH. now apply set_add_NoDup.
Qed.

Lemma add_keywords_fresh (l acc : list str) :
  NoDup (acc ++ l) -> fold_left add_keyword l acc = acc ++ l.
Proof.
  revert acc; induction l as [|x l IH]; intros acc H; cbn [fold_left].
  - now rewrite app_nil_r.
  - unfold add_keyword at 2. rewrite set_add_fresh.
    + rewrite IH; rewrite <- app_assoc; [reflexivity | exact H].
    + apply NoDup_remove_2 in H. intros Hin. apply H. apply in_or_app. now left.
Qed.

Lemma collect_keywords_In (jd : list (str * list str)) (k : str) :
  In k (collect_keywords jd) <-> In k (listed_keywords jd).
Proof. rewrite collect_keywords_listed, add_keywords_In. simpl. tauto. Qed.

Lemma collect_keywords_NoDup (jd : list (str * list str)) : NoDup (collect_keywords jd).
Proof. rewrite collect_keywords_listed. apply add_keywords_NoDup. constructor. Qed.

(** On a set, the second loop sorts the keywords into the found and the
    others, in order. *)
Lemma check_keywords_from (self : matcher) (l m x : list str) :
  NoDup (m ++ l) ->
  fold_left
    (fun (acc : list str * list str) keyword =>
       if keyword_found self keyword
       then (set_add keyword (fst acc), snd acc)
       else (fst acc, snd acc ++ [keyword])) l (m, x)
  = (m ++ filter (keyword_found self) l,
     x ++ filter (fun k => negb (keyword_found self k)) l).
Proof.
  revert m x; induction l as [|k l IH]; intros m x H; cbn [fold_left filter].
  - now rewrite !app_nil_r.
  - destruct (keyword_found self k); cbn [fst snd negb].
    + rewrite set_add_fresh.
      * rewrite IH; rewrite <- app_assoc; [reflexivity | exact H].
      * apply NoDup_remove_2 in H. intros Hin. apply H. apply in_or_app. now left.
    + rewrite IH.
      * now rewrite <- app_assoc.
      * apply NoDup_remove_1 in H. exact H.
Qed.

Lemma check_keywords_filter (self : matcher) (l : list str) :
  NoDup l ->
  check_keywords self l
  = (filter (keyword_found self) l, filter (fun k => negb (keyword_found self k)) l).
Proof. intros H. unfold check_keywords. now rewrite check_keywords_from. Qed.

Lemma filter_split_length {A : Type} (f : A -> bool) (l : list A) :
  (List.length (filter f l) + List.length (filter (fun a => negb (f a)) l)
   = List.length l)%nat.
Proof.
  induction l as [|a l IH]; [reflexivity|]. cbn [filter].
  destruct (f a); cbn [negb List.length]; lia.
Qed.

Lemma counted_as_matched_found (self : matcher) (k : str) :
  In k (listed_keywords (jd_keywords self)) ->
  counted_as_matched self k = keyword_found self k.
Proof.
  intros Hk. unfold counted_as_matched.
  rewrite check_keywords_filter by apply collect_keywords_NoDup. cbn [fst].
  apply collect_keywords_In in Hk.
  destruct (keyword_found self k) eqn:E.
  - apply mem_In, filter_In. now split.
  - apply mem_false_not_In. rewrite filter_In. intros [_ H]. congruence.
Qed.

(** ** Whole-word matching *)

(** Whole-word matching where the code achieves it.  A keyword of the
    mapping that, lower-cased and stripped, begins and ends with a word
    character (a letter, a digit or the underscore) is counted as matched
    exactly when it occurs in the document text as a whole word or phrase,
    case ignored: with no word character right before the occurrence and
    none right after.  So where such a keyword occurs only inside larger
    words it is not counted. *)
Theorem keyword_matched_iff_whole_word
    (cv_text0 : str) (jd : list (str * list str)) (k : str) :
  In k (listed_keywords jd) ->
  word_edged k = true ->
  counted_as_matched (init cv_text0 jd) k = occurs_whole_word k cv_text0
  /\ (occurs_only_inside_words k cv_text0 = true ->
      counted_as_matched (init cv_text0 jd) k = false).
Proof.
  intros Hin Hk.
  assert (E : counted_as_matched (init cv_text0 jd) k = occurs_whole_word k cv_text0).
  { rewrite counted_as_matched_found by exact Hin.
    now apply keyword_found_whole_word. }
  split; [exact E|].
  rewrite E. unfold occurs_only_inside_words. intros H.
  apply andb_true_iff in H. destruct H as [_ H].
  now apply negb_true_iff in H.
Qed.

(** [sql] in a text that has it as a word, and in one that has it only
    inside [MySQL]. *)
Lemma keyword_matched_iff_whole_word_witness :
  counted_as_matched (init (py "I use SQL daily") [(py "skills", [py "SQL"])]) (py "sql")
  = occurs_whole_word (py "sql") (py "I use SQL daily")
  /\ counted_as_matched (init (py "I use MySQL daily") [(py "skills", [py "SQL"])]) (py "sql")
     = false.
Proof.
  split.
  - apply (keyword_matched_iff_whole_word (py "I use SQL daily")
             [(py "skills", [py "SQL"])] (py "sql")); [now left | reflexivity].
  - apply (keyword_matched_iff_whole_word (py "I use MySQL daily")
             [(py "skills", [py "SQL"])] (py "sql")); [now left | reflexivity | reflexivity].
Defined.

(** Claim C7 at two failing inputs, for a keyword that ends in a character
    that is not a word character.  [C++] stands as a whole word in the first
    text and is not counted (the pattern asks for a word boundary after the
    last [+], so for a word character right after it); in the second text it
    occurs only inside [c++11] and is counted. *)
Lemma keyword_with_symbol_edge :
  occurs_whole_word (py "c++") (py "I know C++ well") = true
  /\ counted_as_matched (init (py "I know C++ well") Examples.cpp_keywords) (py "c++") = false
  /\ matched_keywords
       (calculate_match_percentage (init (py "I know C++ well") Examples.cpp_keywords)) = 0%nat
  /\ occurs_only_inside_words (py "c++") (py "I know c++11") = true
  /\ counted_as_matched (init (py "I know c++11") Examples.cpp_keywords) (py "c++") = true
  /\ matched_keywords
       (calculate_match_percentage (init (py "I know c++11") Examples.cpp_keywords)) = 1%nat.
Proof. repeat split. Qed.

(** ** Rounding *)

Local Open Scope Q_scope.

Ltac lra_over_floor :=
  change (inject_Z 1) with 1 in *;
  repeat match goal with
         | |- context [inject_Z ?z] =>
             let q := fresh "q" in
             set (q := inject_Z z) in *; clearbody q
         end;
  lra.

Lemma round_half_even_near (x : Q) :
  Qabs (inject_Z (round_half_even x) - x) <= 1 # 2.
Proof.
  unfold round_half_even.
  pose proof (Qfloor_le x) as Hlo. pose proof (Qlt_floor x) as Hhi.
  rewrite inject_Z_plus in Hhi.
  apply Qabs_Qle_condition.
  destruct (Qcompare_spec (x - inject_Z (Qfloor x)) (1 # 2)) as [He|Hl|Hg].
  - destruct (Z.even (Qfloor x)); rewrite ?inject_Z_plus; split; lra_over_floor.
  - split; lra_over_floor.
  - rewrite inject_Z_plus. split; lra_over_floor.
Qed.

Lemma tenths_as_product (z : Z) : z # 10 == inject_Z z * (1 # 10).
Proof. unfold Qeq, inject_Z, Qmult; simpl. lia. Qed.

Lemma round1_rounded (x : Q) : rounded_to_tenth (round1 x) x.
Proof.
  unfold rounded_to_tenth, round1. split.
  - eexists. apply Qred_correct.
  - rewrite Qred_correct, tenths_as_product.
    pose proof (round_half_even_near (x * (10 # 1))) as H.
    apply Qabs_Qle_condition in H. apply Qabs_Qle_condition.
    set (q := inject_Z (round_half_even (x * (10 # 1)))) in *. clearbody q.
    split; lra.
Qed.

Lemma round1_zero : round1 0 == 0.
Proof. reflexivity. Qed.

Lemma round1_range (x : Q) : 0 <= x <= 100 -> 0 <= round1 x <= 100.
Proof.
  intros [Hlo Hhi]. unfold round1. rewrite Qred_correct.
  pose proof (round_half_even_near (x * (10 # 1))) as H.
  apply Qabs_Qle_condition in H.
  assert (Hz : inject_Z (-1) < inject_Z (round_half_even (x * (10 # 1)))
               /\ inject_Z (round_half_even (x * (10 # 1))) < inject_Z 1001).
  { set (q := inject_Z (round_half_even (x * (10 # 1)))) in *. clearbody q.
    split; [change (inject_Z (-1)) with (-1 # 1) | change (inject_Z 1001) with (1001 # 1)];
      lra. }
  destruct Hz as [Hz1 Hz2]. rewrite <- Zlt_Qlt in Hz1, Hz2.
  rewrite tenths_as_product.
  assert (H0 : inject_Z 0 <= inject_Z (round_half_even (x * (10 # 1))))
    by (rewrite <- Zle_Qle; lia).
  assert (H1 : inject_Z (round_half_even (x * (10 # 1))) <= inject_Z 1000)
    by (rewrite <- Zle_Qle; lia).
  change (inject_Z 0) with 0 in H0. change (inject_Z 1000) with (1000 # 1) in H1.
  set (q := inject_Z (round_half_even (x * (10 # 1)))) in *. clearbody q.
  split; lra.
Qed.

Lemma percent_range (m t : nat) : (m <= t)%nat -> (0 < t)%nat -> 0 <= percent m t <= 100.
Proof.
  intros Hm Ht. unfold percent.
  assert (Hpos : 0 < Z.of_nat t # 1) by (unfold Qlt; simpl; lia).
  assert (H0 : 0 <= (Z.of_nat m # 1) / (Z.of_nat t # 1)).
  { apply Qle_shift_div_l; [exact Hpos|]. unfold Qle; simpl. lia. }
  assert (H1 : (Z.of_nat m # 1) / (Z.of_nat t # 1) <= 1).
  { apply Qle_shift_div_r; [exact Hpos|]. rewrite Qmult_1_l.
    unfold Qle. cbn [Qnum Qden]. lia. }
  set (q := (Z.of_nat m # 1) / (Z.of_nat t # 1)) in *. clearbody q.
  split; lra.
Qed.

Local Close Scope Q_scope.

(** ** The report *)

Lemma report_counts (self : matcher) :
  let l := collect_keywords (jd_keywords self) in
  let r := calculate_match_percentage self in
  total_keywords r = List.length l
  /\ matched_keywords r = List.length (filter (keyword_found self) l)
  /\ missing_keywords r = List.length (filter (fun k => negb (keyword_found self k)) l)
  /\ missing_keywords_list r = firstn 20 (filter (fun k => negb (keyword_found self k)) l)
  /\ match_percentage r
     = round1 (if (0 <? List.length l)%nat
               then percent (List.length (filter (keyword_found self) l)) (List.length l)
               else 0%Q)
  /\ category_breakdown r = category_matches self.
Proof.
  cbv zeta. unfold calculate_match_percentage.
  rewrite check_keywords_filter by apply collect_keywords_NoDup.
  repeat split.
Qed.

(** ** The breakdown by category *)

Lemma str_eqb_neq (a b : str) : str_eqb a b = false <-> a <> b.
Proof.
  rewrite <- str_eqb_eq. destruct (str_eqb a b); split; intros; easy.
Qed.

Lemma dict_set_fresh {V : Type} (d : list (str * V)) (key : str) (value : V) :
  ~ In key (map fst d) -> dict_set d key value = d ++ [(key, value)].
Proof.
  induction d as [|[k v] d IH]; intros H; [reflexivity|].
  cbn [dict_set]. cbn [map fst In] in H.
  assert (E : str_eqb k key = false) by (apply str_eqb_neq; intros ->; apply H; now left).
  rewrite E, IH; [reflexivity | intros Hin; apply H; now right].
Qed.

(** With one entry per category, the breakdown has one entry per category
    of the mapping, in order. *)
Lemma category_matches_from (self : matcher) (jd acc : list (str * list str))
    (d : list (str * category_stats)) :
  map fst d = map fst acc ->
  NoDup (map fst (acc ++ jd)) ->
  fold_left
    (fun d (entry : str * list str) =>
       dict_set d (fst entry) (category_entry self (snd entry))) jd d
  = d ++ map (fun entry => (fst entry, category_entry self (snd entry))) jd.
Proof.
  revert acc d; induction jd as [|e jd IH]; intros acc d Hd Hnd; cbn [fold_left map].
  - now rewrite app_nil_r.
  - rewrite dict_set_fresh.
    + rewrite (IH (acc ++ [e])).
      * now rewrite <- app_assoc.
      * rewrite !map_app, Hd. reflexivity.
      * now rewrite <- app_assoc.
    + rewrite Hd. rewrite map_app in Hnd. cbn [map] in Hnd.
      apply NoDup_remove_2 in Hnd. intros Hin. apply Hnd. apply in_or_app. now left.
Qed.

Lemma category_matches_map (self : matcher) :
  NoDup (map fst (jd_keywords self)) ->
  category_matches self
  = map (fun entry => (fst entry, category_entry self (snd entry))) (jd_keywords self).
Proof.
  intros H. unfold category_matches.
  now rewrite (category_matches_from self (jd_keywords self) [] []).
Qed.

Lemma sum_total_listed (self : matcher) (jd : list (str * list str)) :
  sum_total (map (fun entry => (fst entry, category_entry self (snd entry))) jd)
  = List.length (listed_keywords jd).
Proof.
  induction jd as [|e jd IH]; [reflexivity|].
  cbn [map sum_total fold_right listed_keywords flat_map snd].
  rewrite length_app. fold (sum_total
    (map (fun entry => (fst entry, category_entry self (snd entry))) jd)).
  rewrite IH. reflexivity.
Qed.

Lemma sum_matched_listed (self : matcher) (jd : list (str * list str)) :
  sum_matched (map (fun entry => (fst entry, category_entry self (snd entry))) jd)
  = List.length (filter (keyword_found self) (listed_keywords jd)).
Proof.
  induction jd as [|e jd IH]; [reflexivity|].
  cbn [map sum_matched fold_right listed_keywords flat_map snd].
  rewrite filter_app, length_app. fold (sum_matched
    (map (fun entry => (fst entry, category_entry self (snd entry))) jd)).
  rewrite IH. reflexivity.
Qed.

Lemma collect_keywords_NoDup_listed (jd : list (str * list str)) :
  NoDup (listed_keywords jd) -> collect_keywords jd = listed_keywords jd.
Proof.
  intros H. rewrite collect_keywords_listed. now rewrite add_keywords_fresh.
Qed.

End KeywordMatcherFacts.
(* ===================================================================== *)
(** * Facts about the percentages in doubles *)
(* ===================================================================== *)

Module DoubleFacts.

Import PyStr KeywordMatcher KeywordMatcherFacts Doubles.
Unset Implicit Arguments.
Local Open Scope Q_scope.

(** ** Powers of two *)

Lemma pow2_pos (e : Z) : 0 < pow2 e.
Proof. unfold pow2. apply Qpower_0_lt. reflexivity. Qed.

Lemma pow2_add (a b : Z) : pow2 (a + b) == pow2 a * pow2 b.
Proof. unfold pow2. apply Qpower_plus. discriminate. Qed.

Lemma pow2_le (a b : Z) : (a <= b)%Z -> pow2 a <= pow2 b.
Proof. intros H. unfold pow2. apply Qpower_le_compat_l; [exact H | discriminate]. Qed.

Lemma pow2_lt_inv (a b : Z) : pow2 a < pow2 b -> (a < b)%Z.
Proof. intros H. unfold pow2 in H. apply Qpower_lt_compat_l_inv in H; [exact H | reflexivity]. Qed.

Lemma pow2_Z (e : Z) : (0 <= e)%Z -> pow2 e == inject_Z (2 ^ e).
Proof. intros H. unfold pow2. now rewrite Zpower_Qpower. Qed.

Lemma pow2_opp (e : Z) : pow2 e * pow2 (- e) == 1.
Proof. rewrite <- pow2_add. now rewrite Z.add_opp_diag_r. Qed.

(** ** The order of magnitude *)

Lemma Qabs_frac (x : Q) : Qabs x = Z.abs (Qnum x) # Qden x.
Proof. destruct x as [n d]. reflexivity. Qed.

Lemma mag_lower (x : Q) : ~ x == 0 -> pow2 (mag x - 1) <= Qabs x.
Proof.
  intros Hx. unfold mag.
  set (n := Z.abs (Qnum x)). set (d := Z.pos (Qden x)).
  set (e := (Z.log2 n - Z.log2 d)%Z).
  destruct (Qle_bool (pow2 e) (Qabs x)) eqn:E.
  - apply Qle_bool_iff in E. now replace (e + 1 - 1)%Z with e by lia.
  - assert (Hn : (0 < n)%Z).
    { unfold n. destruct x as [[|p|p] q]; cbn; try lia. exfalso. apply Hx. reflexivity. }
    assert (Hd : (0 < d)%Z) by (unfold d; lia).
    destruct (Z.log2_spec n Hn) as [Hn1 _].
    destruct (Z.log2_spec d Hd) as [_ Hd2].
    pose proof (Z.log2_nonneg n) as Hn0. pose proof (Z.log2_nonneg d) as Hd0.
    rewrite Qabs_frac. fold n.
    assert (Hs : pow2 (e - 1) * pow2 (Z.succ (Z.log2 d)) == pow2 (Z.log2 n)).
    { rewrite <- pow2_add. unfold e. now replace (Z.log2 n - Z.log2 d - 1 + Z.succ (Z.log2 d))%Z
        with (Z.log2 n) by lia. }
    assert (H1 : pow2 (e - 1) * inject_Z d <= inject_Z n).
    { apply Qle_trans with (pow2 (e - 1) * pow2 (Z.succ (Z.log2 d))).
      - apply Qmult_le_l; [apply pow2_pos|].
        rewrite pow2_Z by lia. rewrite <- Zle_Qle. lia.
      - rewrite Hs, pow2_Z by lia. now rewrite <- Zle_Qle. }
    assert (E2 : n # Qden x == inject_Z n / inject_Z d).
    { unfold d. unfold Qeq, Qdiv, Qmult, Qinv, inject_Z. cbn. lia. }
    rewrite E2. apply Qle_shift_div_l; [unfold d; reflexivity | exact H1].
Qed.

Lemma mag_le (x : Q) (k : Z) : (0 <= k)%Z -> Qabs x < pow2 k -> (mag x <= k)%Z.
Proof.
  intros Hk Hx. destruct (Qeq_dec x 0) as [E|E].
  - assert (Hn : Qnum x = 0%Z).
    { unfold Qeq in E. cbn in E. lia. }
    unfold mag. rewrite Hn. change (Z.log2 (Z.abs 0)) with 0%Z.
    pose proof (Z.log2_nonneg (Z.pos (Qden x))) as Hd.
    destruct (Qle_bool _ (Qabs x)) eqn:B; [|lia].
    apply Qle_bool_iff in B. exfalso.
    rewrite Qabs_frac, Hn in B. cbn [Z.abs] in B.
    pose proof (pow2_pos (0 - Z.log2 (Z.pos (Qden x)))) as P.
    apply (Qlt_irrefl 0). eapply Qlt_le_trans; [exact P|].
    eapply Qle_trans; [exact B|]. unfold Qle. cbn [Qnum Qden]. rewrite !Z.mul_0_l. lia.
  - pose proof (mag_lower x E) as H.
    assert (H2 : pow2 (mag x - 1) < pow2 k) by (eapply Qle_lt_trans; eauto).
    apply pow2_lt_inv in H2. lia.
Qed.

Lemma ulp_exp_le (x : Q) (k : Z) :
  (0 <= k)%Z -> (emin <= k - prec)%Z -> Qabs x < pow2 k -> (ulp_exp x <= k - prec)%Z.
Proof.
  intros Hk He Hx. unfold ulp_exp. pose proof (mag_le x k Hk Hx). lia.
Qed.

(** ** Rounding to an integer *)

Lemma round_half_even_le (y : Q) (N : Z) :
  y <= inject_Z N -> (round_half_even y <= N)%Z.
Proof.
  intros H. pose proof (round_half_even_near y) as Hn.
  apply Qabs_Qle_condition in Hn. destruct Hn as [_ Hn].
  assert (Hlt : inject_Z (round_half_even y) < inject_Z (N + 1)).
  { rewrite inject_Z_plus. change (inject_Z 1) with 1.
    set (r := inject_Z (round_half_even y)) in *. set (n := inject_Z N) in *.
    clearbody r n. lra. }
  rewrite <- Zlt_Qlt in Hlt. lia.
Qed.

Lemma round_half_even_ge (y : Q) (N : Z) :
  inject_Z N <= y -> (N <= round_half_even y)%Z.
Proof.
  intros H. pose proof (round_half_even_near y) as Hn.
  apply Qabs_Qle_condition in Hn. destruct Hn as [Hn _].
  assert (Hlt : inject_Z (N - 1) < inject_Z (round_half_even y)).
  { unfold Z.sub. rewrite inject_Z_plus. change (inject_Z (- (1))) with (-1 # 1).
    set (r := inject_Z (round_half_even y)) in *. set (n := inject_Z N) in *.
    clearbody r n. lra. }
  rewrite <- Zlt_Qlt in Hlt. lia.
Qed.

(** ** Rounding to a double *)

Lemma rne_eq (x : Q) :
  rne x == inject_Z (round_half_even (x / pow2 (ulp_exp x))) * pow2 (ulp_exp x).
Proof. unfold rne. apply Qred_correct. Qed.

Lemma pow2_nonzero (e : Z) : ~ pow2 e == 0.
Proof. intros E. pose proof (pow2_pos e) as H. rewrite E in H. now apply Qlt_irrefl in H. Qed.

Lemma scaled_error (x : Q) (e : Z) :
  Qabs (inject_Z (round_half_even (x / pow2 e)) * pow2 e - x) <= (1 # 2) * pow2 e.
Proof.
  pose proof (round_half_even_near (x / pow2 e)) as Hn.
  assert (Ex : x == x / pow2 e * pow2 e).
  { rewrite Qmult_comm. symmetry. apply Qmult_div_r. apply pow2_nonzero. }
  assert (E : inject_Z (round_half_even (x / pow2 e)) * pow2 e - x
              == (inject_Z (round_half_even (x / pow2 e)) - x / pow2 e) * pow2 e).
  { rewrite Ex at 2. ring. }
  rewrite E, Qabs_Qmult, (Qabs_pos (pow2 e)) by (apply Qlt_le_weak, pow2_pos).
  apply Qmult_le_compat_r; [exact Hn | apply Qlt_le_weak, pow2_pos].
Qed.

Lemma pow2_half (e : Z) : (1 # 2) * pow2 e == pow2 (e - 1).
Proof.
  unfold Z.sub. rewrite pow2_add. change (pow2 (- (1))) with (1 # 2). ring.
Qed.

(** The error of rounding a number below [2^k] is at most half a unit of
    the last place of the doubles below [2^k]. *)
Lemma rne_error_le (x : Q) (k : Z) :
  (0 <= k)%Z -> (emin <= k - prec)%Z -> Qabs x < pow2 k ->
  Qabs (rne x - x) <= pow2 (k - prec - 1).
Proof.
  intros Hk He Hx. rewrite rne_eq.
  eapply Qle_trans; [apply scaled_error|].
  rewrite pow2_half. apply pow2_le.
  pose proof (ulp_exp_le x k Hk He Hx). lia.
Qed.

Lemma rne_nonneg (x : Q) : 0 <= x -> 0 <= rne x.
Proof.
  intros Hx. rewrite rne_eq.
  apply Qmult_le_0_compat; [|apply Qlt_le_weak, pow2_pos].
  change 0 with (inject_Z 0). rewrite <- Zle_Qle.
  apply round_half_even_ge. change (inject_Z 0) with 0.
  apply Qle_shift_div_l; [apply pow2_pos|]. now rewrite Qmult_0_l.
Qed.

(** An integer that the doubles of the magnitude of [x] hold bounds the
    rounded value as it bounds [x]. *)
Lemma rne_le_int (x : Q) (c : Z) :
  (ulp_exp x <= 0)%Z -> x <= inject_Z c -> rne x <= inject_Z c.
Proof.
  intros He Hx. rewrite rne_eq. set (e := ulp_exp x) in *.
  assert (Ec : inject_Z c == inject_Z (c * 2 ^ (- e)) * pow2 e).
  { rewrite inject_Z_mult, <- pow2_Z by lia.
    rewrite <- Qmult_assoc, (Qmult_comm (pow2 (- e))), pow2_opp. ring. }
  rewrite Ec. apply Qmult_le_compat_r; [|apply Qlt_le_weak, pow2_pos].
  rewrite <- Zle_Qle. apply round_half_even_le.
  apply Qle_shift_div_r; [apply pow2_pos|]. now rewrite <- Ec.
Qed.

Lemma double_some (x : Q) : Qabs (rne x) < pow2 emax -> double x = Some (rne x).
Proof.
  intros H. unfold double.
  destruct (Qle_bool (pow2 emax) (Qabs (rne x))) eqn:E; [|reflexivity].
  apply Qle_bool_iff in E. exfalso. apply (Qlt_irrefl (pow2 emax)).
  eapply Qle_lt_trans; eauto.
Qed.

(** A number between 0 and an integer below [2^k], [k] at most 53, rounds
    to a finite double between 0 and that integer, at most half a unit of
    the last place away. *)
Lemma double_below (x : Q) (c k : Z) :
  (0 <= k <= 53)%Z -> 0 <= x -> x <= inject_Z c -> (c < 2 ^ k)%Z ->
  double x = Some (rne x)
  /\ 0 <= rne x <= inject_Z c
  /\ Qabs (rne x - x) <= pow2 (k - 54).
Proof.
  intros Hk H0 Hc Hb.
  assert (Hx : Qabs x < pow2 k).
  { rewrite Qabs_pos by exact H0. eapply Qle_lt_trans; [exact Hc|].
    rewrite pow2_Z by lia. now rewrite <- Zlt_Qlt. }
  assert (He : (ulp_exp x <= k - prec)%Z).
  { apply ulp_exp_le; [lia | unfold emin, prec; lia | exact Hx]. }
  assert (Hr : 0 <= rne x <= inject_Z c).
  { split; [now apply rne_nonneg|].
    apply rne_le_int; [unfold prec in He; lia | exact Hc]. }
  split; [|split; [exact Hr|]].
  - apply double_some. rewrite Qabs_pos by apply Hr.
    apply Qle_lt_trans with (inject_Z c); [apply Hr|].
    apply Qlt_trans with (pow2 k).
    + rewrite pow2_Z by lia. now rewrite <- Zlt_Qlt.
    + unfold pow2. apply Qpower_lt_compat_l; [unfold emax; lia | reflexivity].
  - replace (k - 54)%Z with (k - prec - 1)%Z by (unfold prec; lia).
    apply (rne_error_le x k); [lia | unfold emin, prec; lia | exact Hx].
Qed.

(** ** The operations of the report *)

Lemma pow2_m45 : pow2 (-45) = 1 # 35184372088832.
Proof. reflexivity. Qed.

Lemma pow2_m47 : pow2 (-47) = 1 # 140737488355328.
Proof. reflexivity. Qed.

Lemma pow2_m53 : pow2 (-53) = 1 # 9007199254740992.
Proof. reflexivity. Qed.

Lemma float_of_int_100 : float_of_int 100 = Some (100 # 1).
Proof. vm_compute. reflexivity. Qed.

Lemma quotient_range (m t : nat) :
  (0 < t)%nat -> (m <= t)%nat ->
  0 <= inject_Z (Z.of_nat m) / inject_Z (Z.of_nat t) <= 1.
Proof.
  intros Ht Hm.
  assert (Hpos : 0 < inject_Z (Z.of_nat t)).
  { change 0 with (inject_Z 0). rewrite <- Zlt_Qlt. lia. }
  split.
  - apply Qle_shift_div_l; [exact Hpos|]. rewrite Qmult_0_l.
    change 0 with (inject_Z 0). rewrite <- Zle_Qle. lia.
  - apply Qle_shift_div_r; [exact Hpos|]. rewrite Qmult_1_l.
    rewrite <- Zle_Qle. lia.
Qed.

(** The quotient of two counts, the first at most the second: a double
    between 0 and 1, at most [2^-53] from the exact quotient. *)
Lemma truediv_counts (m t : nat) :
  (0 < t)%nat -> (m <= t)%nat ->
  let x := inject_Z (Z.of_nat m) / inject_Z (Z.of_nat t) in
  truediv (Z.of_nat m) (Z.of_nat t) = Some (rne x)
  /\ 0 <= rne x <= 1
  /\ Qabs (rne x - x) <= pow2 (-53).
Proof.
  intros Ht Hm x. destruct (quotient_range m t Ht Hm) as [H0 H1]. fold x in H0, H1.
  destruct (double_below x 1 1) as (Hd & Hr & He); [lia | exact H0 | exact H1 | lia |].
  unfold truediv.
  assert (E : (Z.of_nat t =? 0)%Z = false) by (apply Z.eqb_neq; lia).
  rewrite E. fold x. split; [exact Hd|]. split; [exact Hr | exact He].
Qed.

(** [x / y * 100] in doubles, for two counts: a double between 0 and 100,
    at most [2^-47 + 100 * 2^-53] from the exact value. *)
Lemma percent_double_counts (m t : nat) :
  (0 < t)%nat -> (m <= t)%nat ->
  exists p,
    percent_double m t = Some p
    /\ 0 <= p <= 100
    /\ Qabs (p - percent m t) <= pow2 (-47) + (100 # 1) * pow2 (-53).
Proof.
  intros Ht Hm. destruct (truediv_counts m t Ht Hm) as (Hq & Hr & He).
  cbv zeta in Hq, Hr, He.
  set (x := inject_Z (Z.of_nat m) / inject_Z (Z.of_nat t)) in *.
  set (q := rne x) in *.
  assert (H0 : 0 <= q * (100 # 1)).
  { destruct Hr as [Hr _]. clearbody q. lra. }
  assert (H1 : q * (100 # 1) <= inject_Z 100).
  { destruct Hr as [_ Hr]. change (inject_Z 100) with (100 # 1). clearbody q. lra. }
  destruct (double_below (q * (100 # 1)) 100 7) as (Hd & Hp & Hp');
    [lia | exact H0 | exact H1 | lia |].
  exists (rne (q * (100 # 1))).
  split; [|split].
  - unfold percent_double. rewrite Hq, float_of_int_100. exact Hd.
  - exact Hp.
  - change (percent m t) with (x * (100 # 1)).
    change (7 - 54)%Z with (-47)%Z in Hp'.
    apply Qabs_Qle_condition in He. apply Qabs_Qle_condition in Hp'.
    apply Qabs_Qle_condition.
    set (p := rne (q * (100 # 1))) in *.
    set (a := pow2 (-47)) in *. set (b := pow2 (-53)) in *.
    clearbody p q x a b. split; lra.
Qed.

(** [round(p, 1)] for a double between 0 and 100: the double nearest to the
    decimal, between 0 and 100 and at most [2^-47] from the decimal. *)
Lemma round_1_small (p : Q) :
  0 <= p <= 100 ->
  round_1 (Float p) = Some (Float (rne (round1 p)))
  /\ 0 <= rne (round1 p) <= 100
  /\ Qabs (rne (round1 p) - round1 p) <= pow2 (-47).
Proof.
  intros Hp. pose proof (round1_range p Hp) as [H0 H1].
  destruct (double_below (round1 p) 100 7) as (Hd & Hr & He);
    [lia | exact H0 | exact H1 | lia |].
  split; [|split; [exact Hr | exact He]].
  cbn [round_1]. now rewrite Hd.
Qed.

(** What the report stores for [m] keywords of [t]. *)
Lemma stored_counts (m t : nat) :
  (0 < t)%nat -> (m <= t)%nat ->
  exists p,
    percent_double m t = Some p
    /\ match percentage_or_0 m t with
       | Some x => round_1 x
       | None => None
       end = Some (Float (rne (round1 p)))
    /\ Qabs (p - percent m t) <= pow2 (-45)
    /\ Qabs (rne (round1 p) - p) <= (1 # 20) + pow2 (-47)
    /\ Qabs (rne (round1 p) - percent m t) <= (1 # 20) + pow2 (-45)
    /\ 0 <= rne (round1 p) <= 100.
Proof.
  intros Ht Hm. destruct (percent_double_counts m t Ht Hm) as (p & Ep & Hp & He).
  destruct (round_1_small p Hp) as (Er & Hr & He').
  destruct (round1_rounded p) as [_ Hn].
  exists p. split; [exact Ep|]. split.
  { unfold percentage_or_0. apply Nat.ltb_lt in Ht. rewrite Ht, Ep. exact Er. }
  rewrite pow2_m47, pow2_m53 in He. rewrite pow2_m47 in He'. rewrite pow2_m45, pow2_m47.
  apply Qabs_Qle_condition in He. apply Qabs_Qle_condition in He'.
  apply Qabs_Qle_condition in Hn.
  set (x := percent m t) in *. set (d := round1 p) in *. set (v := rne d) in *.
  clearbody x d v.
  split; [|split; [|split; [|exact Hr]]]; apply Qabs_Qle_condition; split; lra.
Qed.

(** ** Ties *)

(** Two numbers at most [d] apart round to the same integer unless one of
    them is within [d] of the middle between two integers. *)
Lemma round_half_even_stable (y y' d : Q) :
  Qabs (y - y') <= d ->
  (forall k : Z, d < Qabs (y' - inject_Z k - (1 # 2))) ->
  round_half_even y = round_half_even y'.
Proof.
  intros Hd Hk.
  pose proof (round_half_even_near y) as Hy.
  pose proof (round_half_even_near y') as Hy'.
  apply Qabs_Qle_condition in Hd, Hy, Hy'.
  destruct (Z.lt_trichotomy (round_half_even y) (round_half_even y')) as [Hlt|[E|Hgt]];
    [|exact E|]; exfalso.
  - specialize (Hk (round_half_even y' - 1)%Z).
    assert (Hz : inject_Z (round_half_even y) <= inject_Z (round_half_even y' - 1))
      by (rewrite <- Zle_Qle; lia).
    unfold Z.sub in Hk, Hz. rewrite inject_Z_plus in Hk, Hz.
    change (inject_Z (- (1))) with (-1 # 1) in Hk, Hz.
    set (z := inject_Z (round_half_even y)) in *.
    set (z' := inject_Z (round_half_even y')) in *. clearbody z z'.
    rewrite Qabs_pos in Hk by lra. lra.
  - specialize (Hk (round_half_even y')).
    assert (Hz : inject_Z (round_half_even y' + 1) <= inject_Z (round_half_even y))
      by (rewrite <- Zle_Qle; lia).
    rewrite inject_Z_plus in Hz. change (inject_Z 1) with 1 in Hz.
    set (z := inject_Z (round_half_even y)) in *.
    set (z' := inject_Z (round_half_even y')) in *. clearbody z z'.
    rewrite Qabs_neg in Hk by lra. lra.
Qed.

(** Ten times the percentage of [m] in [t], when it is not the middle
    between two integers, is at least [1 / (2 t)] from every such middle. *)
Lemma away_from_ties (m t : nat) (k : Z) :
  (0 < t)%nat ->
  (2000 * m) mod (2 * t) <> t ->
  1 <= Qabs (percent m t * (10 # 1) - inject_Z k - (1 # 2))
       * inject_Z (Z.of_nat (2 * t)).
Proof.
  intros Ht Hmod.
  set (N := (2000 * Z.of_nat m - (2 * k + 1) * Z.of_nat t)%Z).
  assert (HT : 0 < inject_Z (Z.of_nat t)).
  { change 0 with (inject_Z 0). rewrite <- Zlt_Qlt. lia. }
  assert (E : (percent m t * (10 # 1) - inject_Z k - (1 # 2))
              * inject_Z (Z.of_nat (2 * t)) == inject_Z N).
  { unfold percent, N. change (Z.of_nat m # 1) with (inject_Z (Z.of_nat m)).
    change (Z.of_nat t # 1) with (inject_Z (Z.of_nat t)).
    rewrite Nat2Z.inj_mul. change (Z.of_nat 2) with 2%Z.
    unfold Z.sub. rewrite inject_Z_plus, inject_Z_opp, !inject_Z_mult, inject_Z_plus,
      inject_Z_mult.
    change (inject_Z 2) with (2 # 1). change (inject_Z 2000) with (2000 # 1).
    change (inject_Z 1) with 1.
    field. intros E0. rewrite E0 in HT. now apply Qlt_irrefl in HT. }
  assert (HN : N <> 0%Z).
  { intros E0. apply Hmod. unfold N in E0.
    assert (Hz : ((2000 * Z.of_nat m) mod (2 * Z.of_nat t) = Z.of_nat t)%Z).
    { replace (2000 * Z.of_nat m)%Z with (Z.of_nat t + k * (2 * Z.of_nat t))%Z by lia.
      rewrite Z_mod_plus_full. apply Z.mod_small. lia. }
    apply Nat2Z.inj. rewrite Nat2Z.inj_mod.
    rewrite !Nat2Z.inj_mul. exact Hz. }
  assert (E2 : Qabs (percent m t * (10 # 1) - inject_Z k - (1 # 2))
               * inject_Z (Z.of_nat (2 * t)) == inject_Z (Z.abs N)).
  { rewrite <- (Qabs_pos (inject_Z (Z.of_nat (2 * t)))).
    - rewrite <- Qabs_Qmult, E. unfold Qabs, inject_Z. reflexivity.
    - change 0 with (inject_Z 0). rewrite <- Zle_Qle. lia. }
  rewrite E2. change 1 with (inject_Z 1). rewrite <- Zle_Qle. lia.
Qed.

(** With fewer than [2^40] keywords, the double product and the exact
    percentage round to the same decimal unless the exact percentage is the
    middle between two decimals. *)
Lemma same_decimal (m t : nat) (p : Q) :
  (0 < t)%nat -> (Z.of_nat t < 2 ^ 40)%Z ->
  (2000 * m) mod (2 * t) <> t ->
  Qabs (p - percent m t) <= pow2 (-45) ->
  round1 p = round1 (percent m t).
Proof.
  intros Ht Hb Hmod Hp. unfold round1. f_equal. f_equal.
  apply (round_half_even_stable _ _ ((10 # 1) * pow2 (-45))).
  - assert (E : p * (10 # 1) - percent m t * (10 # 1) == (10 # 1) * (p - percent m t))
      by ring.
    rewrite E, Qabs_Qmult. change (Qabs (10 # 1)) with (10 # 1).
    apply Qmult_le_l; [reflexivity | exact Hp].
  - intros k. pose proof (away_from_ties m t k Ht Hmod) as H.
    set (u := Qabs (percent m t * (10 # 1) - inject_Z k - (1 # 2))) in *.
    assert (Hu : 0 <= u) by apply Qabs_nonneg.
    assert (HT : inject_Z (Z.of_nat (2 * t)) <= inject_Z (2 ^ 41 - 1)).
    { rewrite <- Zle_Qle. lia. }
    assert (HT0 : 0 < inject_Z (Z.of_nat (2 * t))).
    { change 0 with (inject_Z 0). rewrite <- Zlt_Qlt. lia. }
    rewrite pow2_m45.
    change (inject_Z (2 ^ 41 - 1)) with (2199023255551 # 1) in HT.
    set (T := inject_Z (Z.of_nat (2 * t))) in *. clearbody u T.
    destruct (Qlt_le_dec ((10 # 1) * (1 # 35184372088832)) u) as [Hlt|Hle]; [exact Hlt|].
    exfalso.
    assert (H2 : u * T <= (10 # 1) * (1 # 35184372088832) * (2199023255551 # 1)).
    { apply Qle_trans with ((10 # 1) * (1 # 35184372088832) * T).
      - apply Qmult_le_compat_r; [exact Hle | now apply Qlt_le_weak].
      - apply Qmult_le_l; [reflexivity | exact HT]. }
    assert (H3 : (10 # 1) * (1 # 35184372088832) * (2199023255551 # 1) < 1) by reflexivity.
    apply (Qlt_irrefl 1). eapply Qle_lt_trans; [exact H|].
    eapply Qle_lt_trans; [exact H2 | exact H3].
Qed.

(** ** The stored percentage *)

Lemma match_percentage_stored_eq (self : matcher) :
  match_percentage_stored self
  = match percentage_or_0 (matched_keywords (calculate_match_percentage self))
                          (total_keywords (calculate_match_percentage self)) with
    | Some x => round_1 x
    | None => None
    end.
Proof.
  unfold match_percentage_stored, calculate_match_percentage.
  destruct (check_keywords self (collect_keywords (jd_keywords self))) as [ms mi].
  reflexivity.
Qed.

Lemma matched_at_most_total (self : matcher) :
  (matched_keywords (calculate_match_percentage self)
   <= total_keywords (calculate_match_percentage self))%nat.
Proof.
  destruct (report_counts self) as (Ht & Hm & _). cbv zeta in *.
  rewrite Ht, Hm. apply filter_length_le.
Qed.

(** Claim C2, as the code has it.  With no keyword the report stores the
    integer 0.  Otherwise it stores a double: the double nearest to the
    decimal [round1 p], where [p] is the double the product
    [matched / total * 100] gives.  [p] is within [2^-45] of the exact
    percentage, and the stored double lies between 0 and 100, within
    [0.05 + 2^-47] of [p] and within [0.05 + 2^-45] of the exact
    percentage.  With fewer than [2^40]
    keywords the decimal is the exact percentage rounded to one decimal
    (a tie to the even digit), unless the exact percentage is such a tie.
    The list of missing keywords has at most 20 entries.  (Matched and
    missing keywords add up to the total.) *)
Theorem match_percentage_stored_rounded (self : matcher) :
  let r := calculate_match_percentage self in
  (total_keywords r = 0%nat -> match_percentage_stored self = Some (Int 0))
  /\ ((0 < total_keywords r)%nat ->
      exists p,
        percent_double (matched_keywords r) (total_keywords r) = Some p
        /\ match_percentage_stored self = Some (Float (rne (round1 p)))
        /\ Qabs (p - percent (matched_keywords r) (total_keywords r)) <= pow2 (-45)
        /\ Qabs (rne (round1 p) - p) <= (1 # 20) + pow2 (-47)
        /\ Qabs (rne (round1 p) - percent (matched_keywords r) (total_keywords r))
           <= (1 # 20) + pow2 (-45)
        /\ 0 <= rne (round1 p) <= 100
        /\ ((Z.of_nat (total_keywords r) < 2 ^ 40)%Z ->
            (2000 * matched_keywords r) mod (2 * total_keywords r) <> total_keywords r ->
            round1 p = match_percentage r))
  /\ (List.length (missing_keywords_list r) <= 20)%nat
  /\ (matched_keywords r + missing_keywords r = total_keywords r)%nat.
Proof.
  cbv zeta. rewrite match_percentage_stored_eq.
  pose proof (matched_at_most_total self) as Hle.
  destruct (report_counts self) as (Ht & Hm & Hx & Hl & Hp & _). cbv zeta in *.
  split; [|split; [|split]].
  - intros E. rewrite E. reflexivity.
  - intros Hpos.
    destruct (stored_counts _ _ Hpos Hle) as (p & Ep & Es & H1 & H2 & H3 & H4).
    exists p. split; [exact Ep|]. split; [exact Es|]. split; [exact H1|].
    split; [exact H2|]. split; [exact H3|]. split; [exact H4|].
    intros Hb Hmod. rewrite Hp, <- Ht, <- Hm.
    pose proof Hpos as Hb'. apply Nat.ltb_lt in Hb'. rewrite Hb'.
    now apply same_decimal.
  - rewrite Hl, length_firstn. lia.
  - rewrite Ht, Hm, Hx. apply filter_split_length.
Qed.

(** The scenario of the specification: two keywords of three are found,
    and the report stores the double nearest to 66.7. *)
Lemma match_percentage_stored_rounded_witness :
  (0 < total_keywords (calculate_match_percentage Examples.matcher_scenario))%nat
  /\ match_percentage_stored Examples.matcher_scenario = Some (Float (rne (667 # 10))).
Proof.
  split; [vm_compute; lia|].
  destruct (match_percentage_stored_rounded Examples.matcher_scenario) as (_ & H & _).
  destruct H as (p & Ep & Es & _); [vm_compute; lia|].
  rewrite Es. vm_compute in Ep. injection Ep as <-. reflexivity.
Defined.

(** Claim C2 as stated fails at a tie.  With 23 keywords of 80 found the
    exact percentage is 28.75, which rounds to 28.8 (to the even digit, and
    upwards as well).  The product in doubles is just below 28.75, and the
    report stores the double nearest to 28.7, more than 0.05 below the
    exact percentage. *)
Lemma match_percentage_23_of_80 :
  matched_keywords (calculate_match_percentage (sample_matcher 23 80)) = 23%nat
  /\ total_keywords (calculate_match_percentage (sample_matcher 23 80)) = 80%nat
  /\ percent 23 80 == 115 # 4
  /\ round1 (percent 23 80) == 288 # 10
  /\ match_percentage_stored (sample_matcher 23 80) = Some (Float (rne (287 # 10)))
  /\ rne (287 # 10) < 287 # 10
  /\ (1 # 20) < Qabs (rne (287 # 10) - percent 23 80).
Proof. repeat split; vm_compute; reflexivity. Qed.

(** ** The breakdown by category *)

(** The number stored for a category is within [2^-45] of the exact
    percentage of the category. *)
Lemma category_percentage_stored_near (self : matcher) (keywords0 : list str) :
  exists n,
    category_percentage_stored self keywords0 = Some n
    /\ Qabs (value n - percentage (category_entry self keywords0)) <= pow2 (-45).
Proof.
  unfold category_percentage_stored, category_entry. cbn [percentage].
  set (l := map (fun k => strip (lower k)) (filter nonempty keywords0)).
  unfold percentage_or_0.
  destruct (0 <? List.length l)%nat eqn:E.
  - apply Nat.ltb_lt in E.
    destruct (stored_counts (List.length (filter (keyword_found self) l)) (List.length l) E)
      as (p & Ep & _ & H & _); [apply filter_length_le|].
    rewrite Ep. exists (Float p). split; [reflexivity | exact H].
  - exists (Int 0). split; [reflexivity|]. cbn [value]. rewrite pow2_m45. apply Qle_bool_iff. reflexivity.
Qed.

(** Claim C8, as the code has it.  When no keyword is listed twice (neither
    within a category nor in two categories, lower-cased and stripped), the
    sums of the per-category counts are the top-level counts, and the
    percentage recomputed from them is within [0.05 + 2^-45] of the number
    the report stores: the tolerance of rounding to one decimal and that of
    the doubles.  Recomputed in doubles, it is within [0.05 + 2^-47]. *)
Theorem breakdown_near_stored_percentage (self : matcher) :
  NoDup (map fst (jd_keywords self)) ->
  NoDup (listed_keywords (jd_keywords self)) ->
  let r := calculate_match_percentage self in
  sum_matched (category_breakdown r) = matched_keywords r
  /\ sum_total (category_breakdown r) = total_keywords r
  /\ exists n,
       match_percentage_stored self = Some n
       /\ Qabs (value n - recomputed_percentage r) <= (1 # 20) + pow2 (-45)
       /\ ((0 < sum_total (category_breakdown r))%nat ->
           exists p,
             percent_double (sum_matched (category_breakdown r))
                            (sum_total (category_breakdown r)) = Some p
             /\ Qabs (value n - p) <= (1 # 20) + pow2 (-47)).
Proof.
  intros Hkeys Hlisted. cbv zeta.
  pose proof (matched_at_most_total self) as Hle.
  destruct (report_counts self) as (Ht & Hm & _ & _ & _ & Hb).
  cbv zeta in *.
  assert (Hs : sum_matched (category_breakdown (calculate_match_percentage self))
               = matched_keywords (calculate_match_percentage self)).
  { rewrite Hb, Hm, category_matches_map by exact Hkeys.
    rewrite sum_matched_listed, collect_keywords_NoDup_listed by exact Hlisted.
    reflexivity. }
  assert (Hn : sum_total (category_breakdown (calculate_match_percentage self))
               = total_keywords (calculate_match_percentage self)).
  { rewrite Hb, Ht, category_matches_map by exact Hkeys.
    rewrite sum_total_listed, collect_keywords_NoDup_listed by exact Hlisted.
    reflexivity. }
  split; [exact Hs | split; [exact Hn|]].
  unfold recomputed_percentage. rewrite Hs, Hn, match_percentage_stored_eq.
  destruct (0 <? total_keywords (calculate_match_percentage self))%nat eqn:E.
  - apply Nat.ltb_lt in E.
    destruct (stored_counts _ _ E Hle) as (p & Ep & Es & _ & H' & H & _).
    rewrite Es. eexists. split; [reflexivity|]. split; [exact H|].
    intros _. exists p. split; [exact Ep | exact H'].
  - apply Nat.ltb_ge in E.
    assert (E0 : total_keywords (calculate_match_percentage self) = 0%nat) by lia.
    rewrite E0. exists (Int 0). split; [reflexivity|]. split.
    + rewrite pow2_m45. apply Qle_bool_iff. reflexivity.
    + intros H. inversion H.
Qed.

(** Three keywords in two categories, each listed once. *)
Lemma breakdown_near_stored_percentage_witness :
  sum_matched (category_breakdown (calculate_match_percentage Examples.matcher_disjoint))
  = matched_keywords (calculate_match_percentage Examples.matcher_disjoint)
  /\ exists n,
       match_percentage_stored Examples.matcher_disjoint = Some n
       /\ Qabs (value n
                - recomputed_percentage
                    (calculate_match_percentage Examples.matcher_disjoint))
          <= (1 # 20) + pow2 (-45).
Proof.
  assert (H1 : NoDup (map fst (jd_keywords Examples.matcher_disjoint))).
  { repeat constructor; simpl; intuition discriminate. }
  assert (H2 : NoDup (listed_keywords (jd_keywords Examples.matcher_disjoint))).
  { repeat constructor; simpl; intuition discriminate. }
  destruct (breakdown_near_stored_percentage Examples.matcher_disjoint H1 H2)
    as (Hs & _ & n & Hn & Hq & _).
  split; [exact Hs|]. exists n. split; [exact Hn | exact Hq].
Defined.

(** Claim C8 as stated fails when a keyword is listed under two
    categories: the top level counts it once, the breakdown once per
    category.  With [SQL] under both categories and [Python] under one, the
    report stores 50.0 and the breakdown sums to 2 of 3 (66.67).  And where
    every keyword is listed once the difference can exceed 0.05: with 3
    keywords of 16 found the recomputed percentage is 18.75 and the report
    stores the double nearest to 18.8, which is above 18.8. *)
Lemma breakdown_counts_keyword_twice :
  (match_percentage_stored Examples.matcher_two_categories = Some (Float (50 # 1))
   /\ sum_matched (category_breakdown
                     (calculate_match_percentage Examples.matcher_two_categories)) = 2%nat
   /\ sum_total (category_breakdown
                   (calculate_match_percentage Examples.matcher_two_categories)) = 3%nat
   /\ recomputed_percentage (calculate_match_percentage Examples.matcher_two_categories)
      == 200 # 3
   /\ 16 < Qabs ((50 # 1)
                 - recomputed_percentage
                     (calculate_match_percentage Examples.matcher_two_categories)))
  /\ (match_percentage_stored (sample_matcher 3 16) = Some (Float (rne (188 # 10)))
      /\ recomputed_percentage (calculate_match_percentage (sample_matcher 3 16))
         == 75 # 4
      /\ (1 # 20) < Qabs (rne (188 # 10)
                          - recomputed_percentage
                              (calculate_match_percentage (sample_matcher 3 16)))).
Proof. repeat split; vm_compute; reflexivity. Qed.

(** ** Against the arithmetic of the standard library *)

(** For every count up to 40 and every smaller one, the percentage in
    doubles is the one [SpecFloat]'s binary64 division and multiplication
    give. *)
Lemma percent_double_as_SpecFloat :
  forallb (fun t =>
             forallb (fun m =>
                        match percent_double m t, SF_value (SF_percent m t) with
                        | Some a, Some b => Qeq_bool a b
                        | _, _ => false
                        end)
                     (seq 0 (S t)))
          (seq 1 40)
  = true.
Proof. vm_compute. reflexivity. Qed.

(** For the same counts, [round(p, 1)] is the double that [SpecFloat]'s
    division gives for the tenths by ten. *)
Lemma round_1_as_SpecFloat :
  forallb (fun t =>
             forallb (fun m =>
                        match percent_double m t with
                        | Some p =>
                            match round_1 (Float p),
                                  SF_value (SF_tenths (round_half_even (p * (10 # 1)))) with
                            | Some (Float a), Some b => Qeq_bool a b
                            | _, _ => false
                            end
                        | None => false
                        end)
                     (seq 0 (S t)))
          (seq 1 40)
  = true.
Proof. vm_compute. reflexivity. Qed.

End DoubleFacts.


(* ===================================================================== *)
(** * Facts about the job-description parser *)
(* ===================================================================== *)

Module JDParserFacts.

Import Regex JobDescriptionParser StrFacts RegexFacts.
Unset Implicit Arguments.
Local Open Scope result_scope.

(** ** Loops that cannot raise *)

Lemma fold_result_ok {A B : Type} (f : A -> B -> result A) (l : list B) :
  (forall a x, In x l -> exists a', f a x = Ok a') ->
  forall a, exists a', fold_result f l a = Ok a'.
Proof.
  induction l as [|x l IH]; intros Hf a; cbn [fold_result].
  - now exists a.
  - destruct (Hf a x (or_introl eq_refl)) as (a1 & E). rewrite E. cbn [rbind].
    apply IH. intros a0 y Hy. apply Hf. now right.
Qed.

Lemma fold_result_unchanged {A B : Type} (f : A -> B -> result A) (l : list B) (a : A) :
  (forall x, In x l -> f a x = Ok a) -> fold_result f l a = Ok a.
Proof.
  induction l as [|x l IH]; intros Hf; cbn [fold_result]; [reflexivity|].
  rewrite (Hf x (or_introl eq_refl)). cbn [rbind]. apply IH.
  intros y Hy. apply Hf. now right.
Qed.

Lemma map_result_ok {A B : Type} (f : A -> result B) (l : list A) :
  (forall x, In x l -> exists y, f x = Ok y) -> exists ys, map_result f l = Ok ys.
Proof.
  induction l as [|x l IH]; intros Hf; cbn [map_result].
  - now exists [].
  - destruct (Hf x (or_introl eq_refl)) as (y & E). rewrite E. cbn [rbind].
    destruct IH as (ys & Eys); [intros z Hz; apply Hf; now right|].
    rewrite Eys. cbn [rbind]. now exists (y :: ys).
Qed.

Lemma group1_strip_ok (m : match_obj) :
  group1 m <> None -> exists g, group1_strip m = Ok g.
Proof.
  unfold group1_strip. destruct (group1 m) as [g|]; [|congruence].
  intros _. now exists (strip g).
Qed.

Lemma index_found (sub0 s : str) :
  contains sub0 s = true -> exists i, index sub0 s = Ok i.
Proof.
  unfold contains, index. destruct (find sub0 s) as [i|]; [|discriminate].
  intros _. now exists i.
Qed.

(** ** The title *)

Lemma title_patterns_capture : forallb captures title_patterns = true.
Proof. reflexivity. Qed.

(** The loop over the templates returns the first cleaned-up title of at
    most six words. *)
Lemma title_from_patterns_eq (text : str) (patterns : list re) :
  forallb captures patterns = true ->
  title_from_patterns text patterns =
  Ok (match filter (fun t => (word_count t <=? 6)%nat)
                   (flat_map (fun p => match template_title text p with
                                       | Some t => [t]
                                       | None => []
                                       end) patterns) with
      | [] => None
      | t :: _ => Some t
      end).
Proof.
  induction patterns as [|p patterns IH]; intros Hc; [reflexivity|].
  cbn [forallb] in Hc. apply andb_true_iff in Hc. destruct Hc as [Hp Hc].
  cbn [title_from_patterns flat_map]. unfold template_title at 1.
  destruct (search MULTILINE_IGNORECASE p text) as [m|] eqn:E.
  - pose proof (search_group1 _ _ _ _ Hp E) as Hg.
    unfold group1_strip. destruct (group1 m) as [g|]; [|congruence].
    cbn [rbind app filter]. unfold word_count at 1.
    destruct (List.length (PyStr.split (sub NOFLAGS (plus ws) (py " ") (strip g))) <=? 6)%nat.
    + reflexivity.
    + now apply IH.
  - cbn [app]. now apply IH.
Qed.

Lemma all_capitalized_eq (words : list str) :
  all_capitalized words = Ok (forallb word_capitalized words).
Proof.
  induction words as [|w words IH]; [reflexivity|].
  cbn [all_capitalized forallb]. destruct w as [|c w]; cbn [rbind word_capitalized].
  - exact IH.
  - unfold item. cbn [nth_error rbind].
    destruct (isalpha c); cbn [implb].
    + destruct (isupper c); [exact IH | reflexivity].
    + exact IH.
Qed.

(** The fallback returns the words of the first sentence that qualifies. *)
Lemma title_from_sentences_eq (sents : list str) :
  title_from_sentences sents =
  Ok (match filter (fun sent => title_words (PyStr.split (strip sent))) sents with
      | [] => None
      | sent :: _ => Some (join (py " ") (PyStr.split (strip sent)))
      end).
Proof.
  induction sents as [|sent sents IH]; [reflexivity|].
  cbn [title_from_sentences filter]. unfold title_words at 1.
  destruct ((2 <=? List.length (PyStr.split (strip sent)))%nat
            && (List.length (PyStr.split (strip sent)) <=? 5)%nat)%bool; cbn [andb].
  - rewrite all_capitalized_eq. cbn [rbind].
    destruct (forallb word_capitalized (PyStr.split (strip sent))); [reflexivity | exact IH].
  - exact IH.
Qed.

Lemma extract_job_title_ok (self : parser) : exists t, extract_job_title self = Ok t.
Proof.
  unfold extract_job_title.
  rewrite title_from_patterns_eq by apply title_patterns_capture. cbn [rbind].
  destruct (filter _ _) as [|t ts]; [|now exists t].
  rewrite title_from_sentences_eq. cbn [rbind].
  destruct (filter _ _) as [|s ss]; eexists; reflexivity.
Qed.

Lemma prefixes_nil (s : str) : In [] (prefixes s).
Proof. destruct s; now left. Qed.

Lemma prefixes_substrings (s u : str) : In u (prefixes s) -> In u (substrings s).
Proof. intros H. destruct s; cbn [substrings]; apply in_or_app; now left. Qed.

Lemma substrings_tail (c : char) (s u : str) :
  In u (substrings s) -> In u (substrings (c :: s)).
Proof. intros H. cbn [substrings]. apply in_or_app. now right. Qed.

(** The pieces of [split_on] are contiguous pieces of the string, the
    first of them a prefix. *)
Lemma split_on_pieces (sep : char) (s : str) :
  exists w ws, split_on sep s = w :: ws
               /\ In w (prefixes s)
               /\ (forall u, In u ws -> In u (substrings s)).
Proof.
  induction s as [|c s IH].
  - exists [], []. repeat split; [now left | intros u []].
  - destruct IH as (w & ws & E & Hw & Hws). cbn [split_on].
    destruct (N.eqb c sep).
    + exists [], (split_on sep s). repeat split; [now left|].
      rewrite E. intros u [<-|Hu]; apply substrings_tail.
      * now apply prefixes_substrings.
      * now apply Hws.
    + rewrite E. exists (c :: w), ws. repeat split.
      * cbn [prefixes]. right. now apply in_map.
      * intros u Hu. apply substrings_tail. now apply Hws.
Qed.

Lemma split_on_substrings (sep : char) (s u : str) :
  In u (split_on sep s) -> In u (substrings s).
Proof.
  destruct (split_on_pieces sep s) as (w & ws & E & Hw & Hws). rewrite E.
  intros [<-|Hu]; [now apply prefixes_substrings | now apply Hws].
Qed.

Lemma no_title_span_sentence (text : str) :
  no_title_span text = true -> no_title_sentence text = true.
Proof.
  unfold no_title_span, no_title_sentence. rewrite !forallb_forall.
  intros H sent Hs. apply H. eapply split_on_substrings; eauto.
Qed.

Lemma filter_nil_forallb {A : Type} (p : A -> bool) (l : list A) :
  forallb (fun x => negb (p x)) l = true -> filter p l = [].
Proof.
  induction l as [|x l IH]; [reflexivity|]. cbn [forallb filter].
  intros H. apply andb_true_iff in H. destruct H as [Hx H].
  apply negb_true_iff in Hx. rewrite Hx. now apply IH.
Qed.

Lemma no_template_title_filter (text : str) (patterns : list re) :
  forallb (fun pattern =>
             match template_title text pattern with
             | Some t => negb (word_count t <=? 6)%nat
             | None => true
             end) patterns = true ->
  filter (fun t => (word_count t <=? 6)%nat)
         (flat_map (fun p => match template_title text p with
                             | Some t => [t]
                             | None => []
                             end) patterns) = [].
Proof.
  induction patterns as [|p patterns IH]; [reflexivity|]. cbn [forallb flat_map].
  intros H. apply andb_true_iff in H. destruct H as [Hp H].
  rewrite filter_app, (IH H), app_nil_r.
  destruct (template_title text p) as [t|]; [|reflexivity].
  cbn [filter]. apply negb_true_iff in Hp. now rewrite Hp.
Qed.

Lemma extract_job_title_from_sentences (self : parser) :
  no_template_title (jd_text self) = true ->
  no_title_sentence (jd_text self) = true ->
  extract_job_title self = Ok (py "Unknown Title").
Proof.
  intros Ht Hs. unfold extract_job_title.
  rewrite title_from_patterns_eq by apply title_patterns_capture.
  rewrite (no_template_title_filter _ _ Ht). cbn [rbind].
  rewrite title_from_sentences_eq.
  unfold no_title_sentence in Hs. rewrite (filter_nil_forallb _ _ Hs).
  reflexivity.
Qed.

(** Claim C9.  When no template finds a title of at most six words and
    the first 500 characters hold no span of two to five words whose
    alphabetic words are all capitalized, [extract_job_title] returns the
    sentinel; it is enough that no sentence of the first 500 characters (a
    piece between full stops, the only spans the fallback looks at) is such a
    span.  A title returned from a template has at most six words. *)
Theorem extract_job_title_sentinel (self : parser) :
  (no_template_title (jd_text self) = true ->
   no_title_span (jd_text self) = true ->
   extract_job_title self = Ok (py "Unknown Title"))
  /\ (no_template_title (jd_text self) = true ->
      no_title_sentence (jd_text self) = true ->
      extract_job_title self = Ok (py "Unknown Title"))
  /\ (forall title,
        title_from_patterns (jd_text self) title_patterns = Ok (Some title) ->
        (word_count title <= 6)%nat
        /\ extract_job_title self = Ok title).
Proof.
  split; [|split].
  - intros Ht Hs. apply extract_job_title_from_sentences; [exact Ht|].
    now apply no_title_span_sentence.
  - apply extract_job_title_from_sentences.
  - intros title H. split.
    + rewrite title_from_patterns_eq in H by apply title_patterns_capture.
      injection H as H.
      destruct (filter _ _) as [|t ts] eqn:E; [discriminate|].
      injection H as ->.
      assert (Hin : In title (title :: ts)) by now left.
      rewrite <- E in Hin. apply filter_In in Hin. destruct Hin as [_ Hw].
      now apply Nat.leb_le.
    + unfold extract_job_title. rewrite H. reflexivity.
Qed.

(** A posting in lower case with no template in it yields the sentinel;
    the posting of the scenario yields a title of three words. *)
Lemma extract_job_title_sentinel_witness :
  extract_job_title Examples.parser_no_title = Ok (py "Unknown Title")
  /\ (word_count (py "Senior Data Analyst") <= 6)%nat
  /\ extract_job_title Examples.parser_scenario = Ok (py "Senior Data Analyst").
Proof.
  split.
  - apply (proj1 (extract_job_title_sentinel Examples.parser_no_title));
      vm_compute; reflexivity.
  - apply (proj2 (proj2 (extract_job_title_sentinel Examples.parser_scenario))).
    vm_compute. reflexivity.
Defined.

(** ** Required and preferred skills *)

Lemma marker_windows_ok (self : parser) (markers : list str) :
  forall section0, exists s, marker_windows self markers section0 = Ok s.
Proof.
  induction markers as [|marker markers IH]; intros section0; cbn [marker_windows].
  - now exists section0.
  - destruct (contains marker (jd_text_lower self)) eqn:E; [|apply IH].
    destruct (index_found _ _ E) as (i & Ei). rewrite Ei. cbn [rbind]. apply IH.
Qed.

Lemma marker_windows_none (self : parser) (markers : list str) (section0 : str) :
  no_marker markers self = true -> marker_windows self markers section0 = Ok section0.
Proof.
  unfold no_marker.
  induction markers as [|marker markers IH]; intros H; cbn [marker_windows]; [reflexivity|].
  cbn [forallb] in H. apply andb_true_iff in H. destruct H as [Hm H].
  apply negb_true_iff in Hm. rewrite Hm. now apply IH.
Qed.

Lemma bullet_patterns_capture : forallb captures bullet_patterns = true.
Proof. reflexivity. Qed.

Lemma _extract_bullets_loop_ok (text : str) (patterns : list re) :
  forallb captures patterns = true ->
  forall bullets, exists l, _extract_bullets_loop text patterns bullets = Ok l.
Proof.
  induction patterns as [|p patterns IH]; intros Hc bullets; cbn [_extract_bullets_loop].
  - now exists bullets.
  - cbn [forallb] in Hc. apply andb_true_iff in Hc. destruct Hc as [Hp Hc].
    destruct (map_result_ok group1_strip (finditer MULTILINE p text)) as (found & E).
    { intros m Hm. apply group1_strip_ok. eapply finditer_group1; eauto. }
    rewrite E. cbn [rbind]. now apply IH.
Qed.

Lemma _extract_bullets_ok (text : str) : exists l, _extract_bullets text = Ok l.
Proof. apply _extract_bullets_loop_ok, bullet_patterns_capture. Qed.

Lemma _extract_bullets_empty : _extract_bullets [] = Ok [].
Proof. reflexivity. Qed.

Lemma extract_required_vs_preferred_ok (self : parser) :
  exists rp, extract_required_vs_preferred self = Ok rp
             /\ (no_marker REQUIRED_MARKERS self = true -> required rp = [])
             /\ (no_marker PREFERRED_MARKERS self = true -> preferred rp = []).
Proof.
  unfold extract_required_vs_preferred.
  destruct (marker_windows_ok self REQUIRED_MARKERS []) as (rs & Er).
  destruct (marker_windows_ok self PREFERRED_MARKERS []) as (ps & Ep).
  destruct (_extract_bullets_ok rs) as (req & Eq).
  destruct (_extract_bullets_ok ps) as (pref & Eq').
  rewrite Er. cbn [rbind]. rewrite Ep. cbn [rbind].
  rewrite Eq. cbn [rbind]. rewrite Eq'. cbn [rbind].
  eexists. split; [reflexivity|]. cbn [required preferred]. split; intros H.
  - rewrite (marker_windows_none _ _ [] H) in Er. injection Er as <-.
    rewrite _extract_bullets_empty in Eq. now injection Eq.
  - rewrite (marker_windows_none _ _ [] H) in Ep. injection Ep as <-.
    rewrite _extract_bullets_empty in Eq'. now injection Eq'.
Qed.

(** ** Company values *)

Lemma company_values_loop_ok (self : parser) (markers : list str) :
  forall values, exists l, company_values_loop self markers values = Ok l.
Proof.
  induction markers as [|marker markers IH]; intros values; cbn [company_values_loop].
  - now exists values.
  - destruct (contains marker (jd_text_lower self)) eqn:E; [|apply IH].
    destruct (index_found _ _ E) as (i & Ei). rewrite Ei. cbn [rbind]. apply IH.
Qed.

Lemma company_values_loop_none (self : parser) (markers : list str) (values : list str) :
  no_marker markers self = true -> company_values_loop self markers values = Ok values.
Proof.
  unfold no_marker.
  induction markers as [|marker markers IH]; intros H; cbn [company_values_loop];
    [reflexivity|].
  cbn [forallb] in H. apply andb_true_iff in H. destruct H as [Hm H].
  apply negb_true_iff in Hm. rewrite Hm. now apply IH.
Qed.

Lemma extract_company_values_ok (self : parser) :
  exists v, extract_company_values self = Ok v
            /\ (no_marker value_markers self = true -> v = []).
Proof.
  unfold extract_company_values.
  destruct (company_values_loop_ok self value_markers []) as (l & E).
  rewrite E. cbn [rbind]. eexists. split; [reflexivity|].
  intros H. rewrite (company_values_loop_none _ _ [] H) in E. now injection E as <-.
Qed.

(** ** Structure *)

Lemma range_bound (a b j : nat) : In j (range a b) -> (j < b)%nat.
Proof. unfold range. rewrite in_seq. lia. Qed.

Lemma collect_bullets_ok (lines : list str) (js : list nat) :
  (forall j, In j js -> (j < List.length lines)%nat) ->
  forall bullets, exists l, collect_bullets lines js bullets = Ok l.
Proof.
  induction js as [|j js IH]; intros Hjs bullets; cbn [collect_bullets].
  - now exists bullets.
  - assert (Hj : (j < List.length lines)%nat) by (apply Hjs; now left).
    unfold item. destruct (nth_error lines j) as [line|] eqn:E.
    2:{ apply nth_error_None in E. lia. }
    cbn [rbind].
    assert (Hrest : forall j0, In j0 js -> (j0 < List.length lines)%nat)
      by (intros j0 H0; apply Hjs; now right).
    destruct (rmatch NOFLAGS bullet_line (strip line)) as [m|] eqn:Em.
    + destruct (group1_strip_ok m) as (g & Eg).
      { eapply rmatch_group1; [|exact Em]. reflexivity. }
      rewrite Eg. cbn [rbind]. now apply IH.
    + destruct (nonempty (strip line)
                && negb (is_some (rmatch NOFLAGS capital_start (strip line))))%bool.
      * now exists bullets.
      * now apply IH.
Qed.

Lemma header_patterns_capture : forallb captures header_patterns = true.
Proof. reflexivity. Qed.

Lemma header_step_ok (lines : list str) (i : nat) (line_stripped : str)
    (st : structure_info) (pattern : re) :
  captures pattern = true ->
  exists st', header_step lines i line_stripped st pattern = Ok st'.
Proof.
  intros Hc. unfold header_step.
  destruct (rmatch NOFLAGS pattern line_stripped) as [m|] eqn:Em; [|now exists st].
  destruct (group1_strip_ok m) as (header & Eh).
  { eapply rmatch_group1; eauto. }
  rewrite Eh. cbn [rbind].
  destruct (collect_bullets_ok lines
              (range (i + 1) (Nat.min (i + 20) (List.length lines)))) with (bullets := @nil str)
    as (bullets & Eb).
  { intros j Hj. apply range_bound in Hj. lia. }
  destruct (contains (py "responsibilit") (lower header)
            || contains (py "what you") (lower header))%bool.
  - rewrite Eb. cbn [rbind]. eexists; reflexivity.
  - destruct (contains (py "requirement") (lower header)
              || contains (py "about you") (lower header)
              || contains (py "qualification") (lower header))%bool.
    + rewrite Eb. cbn [rbind]. eexists; reflexivity.
    + eexists; reflexivity.
Qed.

Lemma header_step_no_match (lines : list str) (i : nat) (line_stripped : str)
    (st : structure_info) (pattern : re) :
  is_some (rmatch NOFLAGS pattern line_stripped) = false ->
  header_step lines i line_stripped st pattern = Ok st.
Proof.
  unfold header_step. destruct (rmatch NOFLAGS pattern line_stripped); [discriminate|].
  reflexivity.
Qed.

Lemma enumerate_In {A : Type} (l : list A) (i : nat) (x : A) :
  In (i, x) (enumerate l) -> In x l.
Proof. unfold enumerate. apply in_combine_r. Qed.

Lemma analyze_structure_ok (self : parser) :
  exists st, analyze_structure self = Ok st
             /\ (no_header_line self = true -> st = empty_structure).
Proof.
  unfold analyze_structure.
  set (lines := split_on 10 (jd_text self)).
  destruct (fold_result_ok
              (fun st (il : nat * str) =>
                 fold_result (header_step lines (fst il) (strip (snd il)))
                             header_patterns st)
              (enumerate lines)) with (a := empty_structure) as (st & E).
  { intros a il _. apply fold_result_ok. intros a0 p Hp.
    apply header_step_ok.
    pose proof header_patterns_capture as Hc. rewrite forallb_forall in Hc. now apply Hc. }
  exists st. split; [exact E|].
  intros Hn. unfold no_header_line in Hn. fold lines in Hn.
  rewrite forallb_forall in Hn.
  rewrite fold_result_unchanged in E; [now injection E|].
  intros [i line] Hil. apply enumerate_In in Hil. cbn [fst snd].
  apply fold_result_unchanged. intros p Hp.
  apply header_step_no_match.
  specialize (Hn line Hil). rewrite forallb_forall in Hn.
  apply negb_true_iff. now apply Hn.
Qed.

(** ** The extractions that cannot raise, when they find nothing *)

Lemma extract_technical_skills_none (self : parser) :
  no_skill_match self = true -> extract_technical_skills self = [].
Proof.
  unfold no_skill_match, extract_technical_skills.
  assert (H : forall (l : list (str * re)) (acc : list str),
             forallb (fun entry : str * re =>
                        negb (nonempty (finditer IGNORECASE (snd entry) (jd_text self)))) l
             = true ->
             fold_left
               (fun skills (entry : str * re) =>
                  fold_left (fun skills m => set_add (group0 m) skills)
                            (finditer IGNORECASE (snd entry) (jd_text self)) skills)
               l acc = acc).
  { induction l as [|e l IH]; intros acc Hl; [reflexivity|].
    cbn [forallb] in Hl. apply andb_true_iff in Hl. destruct Hl as [He Hl].
    cbn [fold_left]. destruct (finditer IGNORECASE (snd e) (jd_text self));
      [|discriminate].
    cbn [fold_left]. now apply IH. }
  intros Hn. now rewrite H.
Qed.

Lemma phrase_step_acc (lo hi : nat) (phrases : list str) (sent0 : str) :
  phrase_step lo hi phrases sent0 = phrases ++ phrase_step lo hi [] sent0.
Proof.
  unfold phrase_step. destruct (strip sent0) as [|c s]; [now rewrite app_nil_r|].
  destruct ((lo <=? _)%nat && (_ <=? hi)%nat)%bool; [|now rewrite app_nil_r].
  destruct (existsb _ _); [reflexivity | now rewrite app_nil_r].
Qed.

Lemma extract_verbatim_phrases_none (self : parser) :
  no_phrase self = true -> extract_verbatim_phrases self 10 30 = [].
Proof.
  unfold no_phrase, extract_verbatim_phrases.
  generalize (Regex.split NOFLAGS sentence_break (jd_text self)). intros sentences H.
  assert (E : forall acc, fold_left (phrase_step 10 30) sentences acc = acc).
  { induction sentences as [|s sentences IH]; intros acc; [reflexivity|].
    cbn [forallb] in H. apply andb_true_iff in H. destruct H as [Hs H].
    cbn [fold_left]. rewrite phrase_step_acc.
    destruct (phrase_step 10 30 [] s); [|discriminate].
    rewrite app_nil_r. now apply IH. }
  now rewrite E.
Qed.

Lemma calculate_keyword_density_none (self : parser) :
  density_words self = [] -> calculate_keyword_density self = [].
Proof. unfold calculate_keyword_density. now intros ->. Qed.

Lemma extract_experience_requirements_none (self : parser) :
  no_experience_match self = true -> extract_experience_requirements self = [].
Proof.
  unfold no_experience_match, extract_experience_requirements. intros H.
  apply andb_true_iff in H. destruct H as [He Hd].
  destruct (finditer IGNORECASE EXPERIENCE_PATTERN (jd_text self)); [|discriminate].
  cbn [map].
  assert (E : forall (l : list re) (acc : list str),
             forallb (fun pattern =>
                        negb (nonempty (finditer IGNORECASE pattern (jd_text self)))) l
             = true ->
             fold_left
               (fun reqs pattern =>
                  reqs ++ map group0 (finditer IGNORECASE pattern (jd_text self)))
               l acc = acc).
  { induction l as [|p l IH]; intros acc Hl; [reflexivity|].
    cbn [forallb] in Hl. apply andb_true_iff in Hl. destruct Hl as [Hp Hl].
    cbn [fold_left]. destruct (finditer IGNORECASE p (jd_text self)); [|discriminate].
    cbn [map]. rewrite app_nil_r. now apply IH. }
  now rewrite E.
Qed.

(** ** extract_all *)

(** Claim C3.  On every instance, so on every text, [extract_all] returns
    an analysis and raises nothing.  Each list of the analysis is there (the
    record has no optional field) and is empty when the sub-extraction that
    fills it finds nothing: no skill pattern matches; no required, preferred
    or value marker occurs; no sentence qualifies as a phrase; no line is a
    section header; there is no word to count; no experience pattern
    matches. *)
Theorem extract_all_never_raises (self : parser) :
  exists a, extract_all self = Ok a
    /\ (no_skill_match self = true ->
        technical_skills a = [] /\ tools_technologies a = [])
    /\ (no_marker REQUIRED_MARKERS self = true -> required_skills a = [])
    /\ (no_marker PREFERRED_MARKERS self = true -> preferred_skills a = [])
    /\ (no_phrase self = true -> verbatim_phrases a = [])
    /\ (no_marker value_markers self = true -> company_values a = [])
    /\ (no_header_line self = true -> structure_of a = empty_structure)
    /\ (density_words self = [] -> keyword_density a = [])
    /\ (no_experience_match self = true -> experience_requirements a = []).
Proof.
  unfold extract_all.
  destruct (extract_required_vs_preferred_ok self) as (rp & Erp & Hreq & Hpref).
  destruct (extract_job_title_ok self) as (t & Et).
  destruct (extract_company_values_ok self) as (v & Ev & Hv).
  destruct (analyze_structure_ok self) as (st & Est & Hst).
  rewrite Erp. cbn [rbind]. rewrite Et. cbn [rbind].
  rewrite Ev. cbn [rbind]. rewrite Est. cbn [rbind].
  eexists. split; [reflexivity|].
  cbn [technical_skills tools_technologies required_skills preferred_skills
       verbatim_phrases company_values structure_of keyword_density
       experience_requirements].
  repeat split; try assumption.
  - now apply extract_technical_skills_none.
  - now apply extract_technical_skills_none.
  - apply extract_verbatim_phrases_none.
  - apply calculate_keyword_density_none.
  - apply extract_experience_requirements_none.
Qed.

(** The empty posting: every sub-extraction finds nothing, so the analysis
    exists and all its lists are empty. *)
Lemma extract_all_never_raises_witness :
  exists a, extract_all Examples.parser_empty = Ok a
    /\ technical_skills a = [] /\ tools_technologies a = []
    /\ required_skills a = [] /\ preferred_skills a = []
    /\ verbatim_phrases a = [] /\ company_values a = []
    /\ structure_of a = empty_structure
    /\ keyword_density a = [] /\ experience_requirements a = [].
Proof.
  destruct (extract_all_never_raises Examples.parser_empty)
    as (a & E & Hs & Hr & Hp & Hv & Hc & Hst & Hd & He).
  exists a. split; [exact E|].
  destruct (Hs eq_refl) as [Ht Hto].
  repeat split;
    [exact Ht | exact Hto | exact (Hr eq_refl) | exact (Hp eq_refl)
     | exact (Hv eq_refl) | exact (Hc eq_refl) | exact (Hst eq_refl)
     | exact (Hd eq_refl) | exact (He eq_refl)].
Defined.

(** The analysis depends on the text, its lower-cased copy and the tokens
    only: the two tables [__init__] sets up are never read. *)
Lemma extract_all_reads_text_only (p q : parser) :
  jd_text p = jd_text q ->
  jd_text_lower p = jd_text_lower q ->
  spacy_doc p = spacy_doc q ->
  extract_all p = extract_all q.
Proof.
  destruct p as [t1 l1 d1 k1 s1], q as [t2 l2 d2 k2 s2]. cbn [jd_text jd_text_lower spacy_doc].
  intros -> -> ->. reflexivity.
Qed.

End JDParserFacts.

(* ===================================================================== *)
(** * Further facts about the ATS compatibility checker *)
(* ===================================================================== *)

From Stdlib Require Import Sorted Permutation.

Module SetFacts.

Import StrFacts.
Unset Implicit Arguments.

(** ** [list(set(l))] *)

Lemma dedup_by_In {A : Type} (eqb : A -> A -> bool) (l : list A) (x : A) :
  (forall a b, eqb a b = true <-> a = b) ->
  In x (dedup_by eqb l) <-> In x l.
Proof.
  intros Heq. induction l as [|a l IH]; cbn [dedup_by]; [tauto|].
  cbn [In]. rewrite filter_In, IH. split.
  - intros [H|[H _]]; auto.
  - intros [H|H]; [now left|].
    destruct (eqb a x) eqn:E; [left; now apply Heq | right; now split].
Qed.

Lemma dedup_by_NoDup {A : Type} (eqb : A -> A -> bool) (l : list A) :
  (forall a b, eqb a b = true <-> a = b) ->
  NoDup (dedup_by eqb l).
Proof.
  intros Heq. induction l as [|a l IH]; cbn [dedup_by]; constructor.
  - rewrite filter_In. intros [_ H].
    assert (E : eqb a a = true) by now apply Heq.
    rewrite E in H. discriminate.
  - now apply NoDup_filter.
Qed.

Lemma dedup_In (l : list str) (x : str) : In x (dedup l) <-> In x l.
Proof. apply dedup_by_In. apply str_eqb_eq. Qed.

Lemma dedup_NoDup (l : list str) : NoDup (dedup l).
Proof. apply dedup_by_NoDup. apply str_eqb_eq. Qed.

Lemma dedup_length (l : list str) : (List.length (dedup l) <= List.length l)%nat.
Proof.
  apply NoDup_incl_length; [apply dedup_NoDup|].
  intros x. apply dedup_In.
Qed.

(** ** Substrings *)

Lemma find_from_shift (p s : str) (i j : nat) :
  is_some (find_from p s i) = is_some (find_from p s j).
Proof.
  revert i j; induction s as [|c s IH]; intros i j; cbn [find_from].
  - destruct (startswith p []); reflexivity.
  - destruct (startswith p (c :: s)); [reflexivity | apply IH].
Qed.

Lemma contains_cons (p s : str) (c : char) :
  contains p s = true -> contains p (c :: s) = true.
Proof.
  unfold contains, find. cbn [find_from].
  destruct (startswith p (c :: s)); [reflexivity|].
  intros H. pose proof (find_from_shift p s 1 0) as E.
  destruct (find_from p s 0); [|discriminate].
  destruct (find_from p s 1); [reflexivity | discriminate].
Qed.

Lemma contains_after (p a s : str) :
  contains p s = true -> contains p (a ++ s) = true.
Proof.
  intros H. induction a as [|c a IH]; [exact H|].
  cbn [app]. now apply contains_cons.
Qed.

(** ** Stripping *)

Lemma dropwhile_idem (p : char -> bool) (s : str) :
  dropwhile p (dropwhile p s) = dropwhile p s.
Proof.
  induction s as [|c s IH]; [reflexivity|]. cbn [dropwhile].
  destruct (p c) eqn:E; [exact IH|]. cbn [dropwhile]. now rewrite E.
Qed.

Lemma dropwhile_head (p : char -> bool) (s : str) (c : char) (t : str) :
  dropwhile p s = c :: t -> p c = false.
Proof.
  induction s as [|x s IH]; cbn [dropwhile]; [discriminate|].
  destruct (p x) eqn:E; [exact IH|]. intros H. injection H as -> _. exact E.
Qed.

Lemma dropwhile_suffix (p : char -> bool) (s : str) :
  exists w, s = w ++ dropwhile p s.
Proof.
  induction s as [|x s (w & IH)]; [now exists []|]. cbn [dropwhile].
  destruct (p x); [|now exists []].
  exists (x :: w). cbn [app]. now rewrite <- IH.
Qed.

Lemma rstrip_prefix (s : str) : exists w, s = rstrip s ++ w.
Proof.
  unfold rstrip. destruct (dropwhile_suffix isspace (rev s)) as (w & Hw).
  exists (rev w). rewrite <- rev_app_distr, <- Hw. now rewrite rev_involutive.
Qed.

Lemma strip_idem (s : str) : strip (strip s) = strip s.
Proof.
  unfold strip. set (t := lstrip s).
  assert (Hl : lstrip (rstrip t) = rstrip t).
  { destruct (rstrip t) as [|c r] eqn:E; [reflexivity|].
    destruct (rstrip_prefix t) as (w & Hw). rewrite E in Hw.
    unfold t, lstrip in Hw. cbn [app] in Hw. apply dropwhile_head in Hw.
    unfold lstrip. cbn [dropwhile]. now rewrite Hw. }
  rewrite Hl. unfold rstrip. now rewrite rev_involutive, dropwhile_idem.
Qed.

Lemma dropwhile_Forall (P : char -> Prop) (p : char -> bool) (s : str) :
  Forall P s -> Forall P (dropwhile p s).
Proof.
  induction 1 as [|x s Hx Hs IH]; cbn [dropwhile]; [constructor|].
  destruct (p x); [exact IH | now constructor].
Qed.

Lemma strip_Forall (P : char -> Prop) (s : str) : Forall P s -> Forall P (strip s).
Proof.
  intros H. unfold strip, rstrip, lstrip.
  apply Forall_rev, dropwhile_Forall, Forall_rev, dropwhile_Forall, H.
Qed.

Lemma startswith_prefix (p u : str) : startswith p (p ++ u) = true.
Proof.
  induction p as [|c p IH]; [reflexivity|]. cbn [app startswith].
  now rewrite N.eqb_refl, IH.
Qed.

End SetFacts.

Module ATSReportFacts.

Import ATSCompatibilityChecker ATSFacts StrFacts SetFacts Readings.
Local Open Scope Z_scope.
Unset Implicit Arguments.

(** ** The report, from the run *)

Lemma generate_report_eq (c : checker) :
  generate_report c =
  ({| report_score := fst (calculate_total_score c);
      report_grade := _get_grade (fst (calculate_total_score c));
      report_issues := sorted_by_deduction (issues (snd (calculate_total_score c)));
      report_recommendations :=
        dedup (flat_map recommendation_for (issues (snd (calculate_total_score c)))) |},
   snd (calculate_total_score c)).
Proof.
  unfold generate_report, bind, get_self, _get_recommendations, ret.
  destruct (calculate_total_score c) as [v c']. reflexivity.
Qed.

(** ** The order of the issues *)

Lemma insert_desc_permutation (x : issue_record) (l : list issue_record) :
  Permutation (insert_desc x l) (x :: l).
Proof.
  induction l as [|y l IH]; cbn [insert_desc]; [reflexivity|].
  destruct (deduction x <? deduction y); [|reflexivity].
  rewrite IH. apply perm_swap.
Qed.

Lemma sorted_by_deduction_permutation (l : list issue_record) :
  Permutation (sorted_by_deduction l) l.
Proof.
  induction l as [|x l IH]; [reflexivity|].
  unfold sorted_by_deduction in *. cbn [fold_right].
  rewrite insert_desc_permutation. now constructor.
Qed.

Lemma insert_desc_sorted (x : issue_record) (l : list issue_record) :
  StronglySorted (fun a b => deduction b <= deduction a) l ->
  StronglySorted (fun a b => deduction b <= deduction a) (insert_desc x l).
Proof.
  induction l as [|y l IH]; intros H; cbn [insert_desc].
  - repeat constructor.
  - destruct (deduction x <? deduction y) eqn:E.
    + apply Z.ltb_lt in E. inversion H as [|? ? Hs Hf]; subst.
      constructor; [now apply IH|].
      apply Forall_forall. intros z Hz.
      apply (Permutation_in _ (insert_desc_permutation x l)) in Hz.
      destruct Hz as [<-|Hz]; [lia|].
      rewrite Forall_forall in Hf. now apply Hf.
    + apply Z.ltb_ge in E. constructor; [exact H|].
      constructor; [exact E|].
      inversion H as [|? ? Hs Hf]; subst.
      apply Forall_forall. intros z Hz. rewrite Forall_forall in Hf.
      specialize (Hf z Hz). cbv beta in Hf. lia.
Qed.

Lemma sorted_by_deduction_sorted (l : list issue_record) :
  StronglySorted (fun a b => deduction b <= deduction a) (sorted_by_deduction l).
Proof.
  induction l as [|x l IH]; [constructor|].
  unfold sorted_by_deduction in *. cbn [fold_right]. now apply insert_desc_sorted.
Qed.

Lemma with_deduction_insert (d : Z) (x : issue_record) (l : list issue_record) :
  with_deduction d (insert_desc x l) = with_deduction d (x :: l).
Proof.
  induction l as [|y l IH]; cbn [insert_desc]; [reflexivity|].
  destruct (deduction x <? deduction y) eqn:E; [|reflexivity].
  apply Z.ltb_lt in E. unfold with_deduction in *. cbn [filter] in *. rewrite IH.
  destruct (deduction x =? d) eqn:Ex; destruct (deduction y =? d) eqn:Ey;
    try reflexivity.
  apply Z.eqb_eq in Ex, Ey. lia.
Qed.

Lemma with_deduction_sorted (d : Z) (l : list issue_record) :
  with_deduction d (sorted_by_deduction l) = with_deduction d l.
Proof.
  induction l as [|x l IH]; [reflexivity|].
  unfold sorted_by_deduction in *. cbn [fold_right].
  rewrite with_deduction_insert. unfold with_deduction in *. cbn [filter].
  now rewrite IH.
Qed.

(** The issues of a report are the issues the instance holds after the run,
    rearranged: none is lost or added, the deductions never increase down
    the list, and the issues of one deduction keep the order in which they
    were appended. *)
Theorem report_issues_sorted (c : checker) :
  Permutation (report_issues (fst (generate_report c)))
              (issues (snd (generate_report c)))
  /\ StronglySorted (fun a b => deduction b <= deduction a)
       (report_issues (fst (generate_report c)))
  /\ forall d, with_deduction d (report_issues (fst (generate_report c)))
               = with_deduction d (issues (snd (generate_report c))).
Proof.
  rewrite generate_report_eq. cbn [fst snd report_issues].
  split; [apply sorted_by_deduction_permutation|].
  split; [apply sorted_by_deduction_sorted|].
  intros d. apply with_deduction_sorted.
Qed.

Lemma total_deduction_permutation (l1 l2 : list issue_record) :
  Permutation l1 l2 -> total_deduction l1 = total_deduction l2.
Proof.
  induction 1; cbn [total_deduction fold_right] in *; try lia.
  unfold total_deduction in *. lia.
Qed.

(** On an instance that has not been run before, the score of the report
    is 100 less the deductions of the issues the report lists, and 0 when
    that is negative; the grade is the grade of that score. *)
Theorem report_score_from_listed_issues (c : checker) :
  issues c = [] ->
  report_score (fst (generate_report c))
  = Z.max 0 (100 - total_deduction (report_issues (fst (generate_report c))))
  /\ report_grade (fst (generate_report c))
     = _get_grade (Z.max 0 (100 - total_deduction
                                    (report_issues (fst (generate_report c))))).
Proof.
  intros Hi. rewrite generate_report_eq. cbn [fst snd report_issues report_score report_grade].
  rewrite calculate_total_score_eq. cbn [fst snd issues]. rewrite Hi. cbn [app].
  rewrite (total_deduction_permutation _ _ (sorted_by_deduction_permutation _)).
  split; reflexivity.
Qed.

Lemma report_score_from_listed_issues_witness :
  issues Examples.checker_table_and_font = []
  /\ report_score (fst (generate_report Examples.checker_table_and_font))
     = Z.max 0 (100 - total_deduction
                        (report_issues (fst (generate_report Examples.checker_table_and_font)))).
Proof.
  split; [reflexivity|].
  apply (report_score_from_listed_issues Examples.checker_table_and_font). reflexivity.
Defined.

(** ** Recommendations *)

Lemma recommendation_for_table (i : issue_record) (r : str) :
  In r (recommendation_for i) -> In r recommendation_table.
Proof.
  unfold recommendation_for, recommendation_table.
  repeat match goal with
         | |- context [if ?b then _ else _] => destruct b
         end; cbn [In]; tauto.
Qed.

(** The recommendations of a report come from the table of six texts, none
    is repeated, so there are at most six; and a text is recommended exactly
    when some issue the instance holds calls for it. *)
Theorem recommendations_from_table (c : checker) :
  NoDup (report_recommendations (fst (generate_report c)))
  /\ incl (report_recommendations (fst (generate_report c))) recommendation_table
  /\ (List.length (report_recommendations (fst (generate_report c))) <= 6)%nat
  /\ forall r, In r (report_recommendations (fst (generate_report c)))
               <-> exists i, In i (issues (snd (generate_report c)))
                             /\ In r (recommendation_for i).
Proof.
  rewrite generate_report_eq. cbn [fst snd report_recommendations].
  set (l := issues (snd (calculate_total_score c))).
  assert (Hincl : incl (dedup (flat_map recommendation_for l)) recommendation_table).
  { intros r Hr. apply dedup_In, in_flat_map in Hr. destruct Hr as (i & _ & Hi).
    eapply recommendation_for_table; eauto. }
  split; [apply dedup_NoDup|].
  split; [exact Hincl|].
  split.
  - apply (NoDup_incl_length (dedup_NoDup _) Hincl).
  - intros r. rewrite dedup_In, in_flat_map. reflexivity.
Qed.

Lemma contains_table_lower (n : N) :
  contains (py "table")
    (lower (py "Found " ++ str_N n ++ py " table(s) - ATS may not parse correctly")) = true.
Proof.
  unfold lower. rewrite !map_app, app_assoc. apply contains_after. reflexivity.
Qed.

(** What the issues with a fixed text call for: a table issue for the
    advice on tables, the multi-column issue for the advice on columns, a
    header or footer issue for the advice on headers and footers, the
    graphics issue for the advice on images; the issue on unusual bullets
    calls for nothing. *)
Theorem recommendation_per_check (d : Document) (s : section) :
  flat_map recommendation_for (layout_issues d)
  = (if tables_violation d
     then [py "Remove all tables and use plain text with bullets"] else [])
    ++ (if multi_column (sections d) then [py "Convert to single-column layout"] else [])
  /\ flat_map recommendation_for (section_issues s)
     = (if header_violation s
        then [py "Move all header/footer content into main document body"] else [])
       ++ (if footer_violation s
           then [py "Move all header/footer content into main document body"] else [])
  /\ flat_map recommendation_for (graphics_issues d)
     = (if has_graphics (rels d) then [py "Remove all images, logos, and graphics"] else [])
  /\ flat_map recommendation_for (special_issues d) = [].
Proof.
  split; [|split; [|split]].
  - unfold layout_issues.
    assert (Ht : recommendation_for
                   (mk_issue HIGH
                      (py "Found " ++ str_N (N.of_nat (tables d))
                         ++ py " table(s) - ATS may not parse correctly") 15)
                 = [py "Remove all tables and use plain text with bullets"]).
    { unfold recommendation_for. cbn [issue]. now rewrite contains_table_lower. }
    destruct (tables_violation d), (multi_column (sections d));
      cbn [app flat_map]; rewrite ?Ht; reflexivity.
  - unfold section_issues.
    destruct (header_violation s), (footer_violation s); reflexivity.
  - unfold graphics_issues. destruct (has_graphics (rels d)); reflexivity.
  - unfold special_issues, special_violation, found_unusual.
    generalize (fun b => contains b (join [10%N] (map text (paragraphs d)))).
    intros q. unfold unusual_bullets. cbn [filter].
    destruct (q [8594%N]), (q [9658%N]), (q [9642%N]), (q [9643%N]),
      (q [9632%N]), (q [9633%N]), (q [9670%N]), (q [9671%N]);
      vm_compute; reflexivity.
Qed.

(** ** The guarded loop over the relationships *)

(** Graphics are detected exactly when some relationship names an image
    and every relationship before it could be read: a relationship whose
    target cannot be read ends the loop, and hides the images after it. *)
Theorem has_graphics_iff (rs : list (option str)) :
  has_graphics rs = true
  <-> exists (readable : list str) (target_ref : str) (others : list (option str)),
        rs = map Some readable ++ Some target_ref :: others
        /\ contains (py "image") (lower target_ref) = true.
Proof.
  induction rs as [|[t|] rs IH]; cbn [has_graphics].
  - split; [discriminate|]. intros (pre & t & post & H & _).
    destruct pre; discriminate.
  - destruct (contains (py "image") (lower t)) eqn:E.
    + split; [|reflexivity]. intros _. exists [], t, rs. now split.
    + rewrite IH. split.
      * intros (pre & t' & post & -> & H). exists (t :: pre), t', post. now split.
      * intros (pre & t' & post & H & Hc).
        destruct pre as [|p pre]; cbn [map app] in H; injection H as -> ->.
        -- congruence.
        -- exists pre, t', post. now split.
  - split; [discriminate|]. intros (pre & t & post & H & _).
    destruct pre; discriminate.
Qed.

(** ** The scan of the fonts *)

Lemma fonts_scan_flat (allowed : list str) (lo hi : Z) (ps : list paragraph)
    (acc : fonts_acc) :
  fold_left (fun acc p => fold_left (fonts_run allowed lo hi) (runs p) acc) ps acc
  = fold_left (fonts_run allowed lo hi) (flat_map runs ps) acc.
Proof.
  revert acc; induction ps as [|p ps IH]; intros acc; [reflexivity|].
  cbn [fold_left flat_map]. now rewrite fold_left_app, IH.
Qed.

Lemma fonts_run_names (allowed : list str) (lo hi : Z) (acc : fonts_acc) (r : run) :
  non_standard_fonts (fonts_run allowed lo hi acc r)
  = match font_name r with
    | Some (c :: name) =>
        if negb (mem (c :: name) allowed)
        then set_add (c :: name) (non_standard_fonts acc)
        else non_standard_fonts acc
    | _ => non_standard_fonts acc
    end.
Proof.
  unfold fonts_run.
  destruct (font_name r) as [[|c name]|]; destruct (font_size r) as [hp|];
    try reflexivity;
    destruct (N.eqb hp 0); try reflexivity;
    match goal with |- context [if ?b then _ else _] => destruct b end; reflexivity.
Qed.

(** The size of a run is out of range: it is set, not zero, and below the
    least or above the greatest size, counted in half-points. *)
Lemma size_out_of_range (lo hi : Z) (hp : N) :
  (negb (Qeq_bool (size_pt hp) 0)
   && (Qlt_bool (size_pt hp) (inject_Z lo) || Qlt_bool (inject_Z hi) (size_pt hp)))%bool
  = true
  <-> hp <> 0%N /\ (Z.of_N hp < 2 * lo \/ 2 * hi < Z.of_N hp).
Proof.
  unfold Qlt_bool, Qle_bool, Qeq_bool, size_pt, inject_Z. cbn [Qnum Qden].
  rewrite andb_true_iff, orb_true_iff, !negb_true_iff, Z.eqb_neq, !Z.leb_gt.
  split; intros [H1 H2]; split; lia.
Qed.

Lemma fonts_run_sizes (allowed : list str) (lo hi : Z) (acc : fonts_acc) (r : run) :
  invalid_sizes (fonts_run allowed lo hi acc r)
  = invalid_sizes acc
    ++ match font_size r with
       | Some hp =>
           if (negb (N.eqb hp 0)
               && (negb (Qeq_bool (size_pt hp) 0)
                   && (Qlt_bool (size_pt hp) (inject_Z lo)
                       || Qlt_bool (inject_Z hi) (size_pt hp))))%bool
           then [hp] else []
       | None => []
       end.
Proof.
  unfold fonts_run.
  destruct (font_name r) as [[|c name]|]; destruct (font_size r) as [hp|];
    cbn [invalid_sizes]; rewrite ?app_nil_r; try reflexivity;
    destruct (N.eqb hp 0); cbn [negb andb invalid_sizes]; rewrite ?app_nil_r;
    try reflexivity;
    match goal with |- context [if ?b then _ else _] => destruct b end;
    cbn [invalid_sizes]; rewrite ?app_nil_r; try reflexivity.
Qed.

Lemma fonts_runs_names (allowed : list str) (lo hi : Z) (rs : list run) :
  forall acc,
    (NoDup (non_standard_fonts acc) ->
     NoDup (non_standard_fonts (fold_left (fonts_run allowed lo hi) rs acc)))
    /\ forall nm,
         In nm (non_standard_fonts (fold_left (fonts_run allowed lo hi) rs acc))
         <-> In nm (non_standard_fonts acc)
             \/ (nm <> [] /\ mem nm allowed = false
                 /\ exists rn, In rn rs /\ font_name rn = Some nm).
Proof.
  induction rs as [|r rs IH]; intros acc; cbn [fold_left].
  - split; [auto|]. intros nm. split; [auto|].
    intros [H|(_ & _ & rn & [] & _)]. exact H.
  - destruct (IH (fonts_run allowed lo hi acc r)) as [IH1 IH2]. split.
    + intros Hnd. apply IH1. rewrite fonts_run_names.
      destruct (font_name r) as [[|c name]|]; try exact Hnd.
      destruct (negb (mem (c :: name) allowed)); [|exact Hnd].
      now apply set_add_NoDup.
    + intros nm. rewrite IH2, fonts_run_names. split.
      * intros [H|(H1 & H2 & rn & Hin & Hf)].
        -- destruct (font_name r) as [[|c name]|] eqn:En; auto.
           destruct (negb (mem (c :: name) allowed)) eqn:Em; auto.
           apply set_add_In in H. destruct H as [->|H]; auto.
           right. split; [discriminate|]. split; [now apply negb_true_iff|].
           exists r. split; [now left | exact En].
        -- right. split; [exact H1|]. split; [exact H2|].
           exists rn. split; [now right | exact Hf].
      * intros [H|(H1 & H2 & rn & [<-|Hin] & Hf)].
        -- left. destruct (font_name r) as [[|c name]|]; auto.
           destruct (negb (mem (c :: name) allowed)); auto.
           apply set_add_In. now right.
        -- left. rewrite Hf. destruct nm as [|c name]; [congruence|].
           rewrite H2. cbn [negb]. apply set_add_In. now left.
        -- right. split; [exact H1|]. split; [exact H2|]. now exists rn.
Qed.

Lemma fonts_runs_sizes (allowed : list str) (lo hi : Z) (rs : list run) :
  forall acc hp,
    In hp (invalid_sizes (fold_left (fonts_run allowed lo hi) rs acc))
    <-> In hp (invalid_sizes acc)
        \/ (hp <> 0%N /\ (Z.of_N hp < 2 * lo \/ 2 * hi < Z.of_N hp)
            /\ exists rn, In rn rs /\ font_size rn = Some hp).
Proof.
  induction rs as [|r rs IH]; intros acc hp; cbn [fold_left].
  - split; [auto|]. intros [H|(_ & _ & rn & [] & _)]. exact H.
  - rewrite IH, fonts_run_sizes, in_app_iff. split.
    + intros [[H|H]|(H1 & H2 & rn & Hin & Hf)].
      * now left.
      * right. destruct (font_size r) as [hp'|] eqn:Es; [|contradiction].
        destruct (negb (N.eqb hp' 0) && _)%bool eqn:Ec; [|contradiction].
        destruct H as [->|[]].
        apply andb_true_iff in Ec. destruct Ec as [_ Ec].
        apply size_out_of_range in Ec. destruct Ec as [E1 E2].
        split; [exact E1|]. split; [exact E2|]. exists r. split; [now left | exact Es].
      * right. split; [exact H1|]. split; [exact H2|].
        exists rn. split; [now right | exact Hf].
    + intros [H|(H1 & H2 & rn & [<-|Hin] & Hf)].
      * left. now left.
      * left. right. rewrite Hf.
        assert (E : (negb (N.eqb hp 0)
                     && (negb (Qeq_bool (size_pt hp) 0)
                         && (Qlt_bool (size_pt hp) (inject_Z lo)
                             || Qlt_bool (inject_Z hi) (size_pt hp))))%bool = true).
        { apply andb_true_iff. split.
          - apply negb_true_iff, N.eqb_neq. exact H1.
          - apply size_out_of_range. now split. }
        rewrite E. now left.
      * right. split; [exact H1|]. split; [exact H2|]. now exists rn.
Qed.

Lemma nonempty_In {A : Type} (l : list A) : nonempty l = true <-> exists x, In x l.
Proof.
  destruct l as [|a l]; cbn [nonempty].
  - split; [discriminate | intros (x & [])].
  - split; [intros _; exists a; now left | reflexivity].
Qed.

(** The deduction for fonts is made exactly when some run names a font
    that is not in the allowed list, the names compared as written; the
    issue lists each such font once. *)
Theorem font_violation_iff (r : rules_table) (d : Document) :
  (font_violation r d = true
   <-> exists rn nm, In rn (all_runs d) /\ font_name rn = Some nm
                     /\ nm <> [] /\ mem nm (fonts_allowed r) = false)
  /\ NoDup (non_standard_fonts (scan_of r d))
  /\ forall nm, In nm (non_standard_fonts (scan_of r d))
                <-> nm <> [] /\ mem nm (fonts_allowed r) = false
                    /\ exists rn, In rn (all_runs d) /\ font_name rn = Some nm.
Proof.
  unfold font_violation, scan_of, fonts_scan, all_runs.
  rewrite fonts_scan_flat.
  set (lo := get_default (range_min (fonts_size_range r)) 10).
  set (hi := get_default (range_max (fonts_size_range r)) 12).
  destruct (fonts_runs_names (fonts_allowed r) lo hi (flat_map runs (paragraphs d))
              {| fonts_used := []; non_standard_fonts := []; invalid_sizes := [] |})
    as [Hnd Hin].
  cbn [non_standard_fonts] in Hnd, Hin.
  assert (Hl : forall nm,
             In nm (non_standard_fonts
                      (fold_left (fonts_run (fonts_allowed r) lo hi)
                         (flat_map runs (paragraphs d))
                         {| fonts_used := []; non_standard_fonts := [];
                            invalid_sizes := [] |}))
             <-> nm <> [] /\ mem nm (fonts_allowed r) = false
                 /\ exists rn, In rn (flat_map runs (paragraphs d))
                               /\ font_name rn = Some nm).
  { intros nm. rewrite Hin. cbn [In]. tauto. }
  split; [|split; [apply Hnd; constructor | exact Hl]].
  rewrite nonempty_In. split.
  - intros (nm & H). apply Hl in H. destruct H as (H1 & H2 & rn & H3 & H4).
    now exists rn, nm.
  - intros (rn & nm & H1 & H2 & H3 & H4). exists nm. apply Hl.
    split; [exact H3|]. split; [exact H4|]. now exists rn.
Qed.

(** The deduction for font sizes is made exactly when some run has a size
    that is set, not zero, and outside the range of the rules (10 to 12
    points where the rules give no bound); sizes are in half-points. *)
Theorem size_violation_iff (r : rules_table) (d : Document) :
  size_violation r d = true
  <-> exists rn hp, In rn (all_runs d) /\ font_size rn = Some hp /\ hp <> 0%N
                    /\ (Z.of_N hp < 2 * get_default (range_min (fonts_size_range r)) 10
                        \/ 2 * get_default (range_max (fonts_size_range r)) 12 < Z.of_N hp).
Proof.
  unfold size_violation, scan_of, fonts_scan, all_runs.
  rewrite fonts_scan_flat, nonempty_In.
  set (lo := get_default (range_min (fonts_size_range r)) 10).
  set (hi := get_default (range_max (fonts_size_range r)) 12).
  split.
  - intros (hp & H). apply fonts_runs_sizes in H. cbn [invalid_sizes In] in H.
    destruct H as [[]|(H1 & H2 & rn & H3 & H4)]. now exists rn, hp.
  - intros (rn & hp & H1 & H2 & H3 & H4). exists hp. apply fonts_runs_sizes.
    right. split; [exact H3|]. split; [exact H4|]. now exists rn.
Qed.

(** ** What a check returns and what it records *)

Lemma returned_is_recorded (m : M Z) (c : checker) (l : list issue_record) :
  m c = (- total_deduction l, appended c l) ->
  fst (m c) = - total_deduction (new_issues m c)
  /\ snd (m c) = appended c (new_issues m c).
Proof.
  intros H. rewrite (@new_issues_appended Z m c _ _ H), H. now split.
Qed.

Lemma returned_nothing (m : M Z) (c : checker) :
  m c = (0, c) ->
  fst (m c) = - total_deduction (new_issues m c)
  /\ snd (m c) = appended c (new_issues m c).
Proof.
  intros H. apply (returned_is_recorded m c []). now rewrite appended_nil.
Qed.

(** Each of the six checks returns, negated, the sum of the deductions of
    the issues it appends, and changes nothing of the instance but the list
    of issues, to which it only appends. *)
Theorem check_returns_what_it_records (c : checker) :
  Forall (fun check : M Z =>
            fst (check c) = - total_deduction (new_issues check c)
            /\ snd (check c) = appended c (new_issues check c))
         [check_file_format; check_layout; check_fonts; check_headers_footers;
          check_graphics; check_special_characters].
Proof.
  repeat constructor.
  1, 2: apply (returned_is_recorded _ _ _ (check_file_format_eq c)).
  all: destruct (doc c) as [d|] eqn:Hd.
  all: try (destruct (content_checks_unloaded c Hd) as (H1 & H2 & H3 & H4 & H5)).
  all: first
         [ apply (returned_is_recorded _ _ _ (check_layout_eq c d Hd))
         | apply (returned_is_recorded _ _ _ (check_fonts_eq c d Hd))
         | apply (returned_is_recorded _ _ _ (check_headers_footers_eq c d Hd))
         | apply (returned_is_recorded _ _ _ (check_graphics_eq c d Hd))
         | apply (returned_is_recorded _ _ _ (check_special_characters_eq c d Hd))
         | apply (returned_nothing _ _ H1)
         | apply (returned_nothing _ _ H2)
         | apply (returned_nothing _ _ H3)
         | apply (returned_nothing _ _ H4)
         | apply (returned_nothing _ _ H5) ].
Qed.

(** ** What a run leaves on the instance *)

(** A report leaves the path, the rules and the document of the instance as
    they were and keeps the issues it finds there, appending its own after
    them.  The score it reports is the attribute [score] it leaves, or 0
    where that attribute is negative: the attribute itself is not clamped. *)
Lemma generate_report_frame (c : checker) :
  cv_path (snd (generate_report c)) = cv_path c
  /\ rules (snd (generate_report c)) = rules c
  /\ doc (snd (generate_report c)) = doc c
  /\ issues (snd (generate_report c))
     = issues c ++ run_issues (cv_path c) (rules c) (doc c)
  /\ score (snd (generate_report c))
     = 100 - total_deduction (run_issues (cv_path c) (rules c) (doc c))
  /\ report_score (fst (generate_report c)) = Z.max 0 (score (snd (generate_report c))).
Proof.
  rewrite generate_report_eq, calculate_total_score_eq.
  cbn [fst snd cv_path rules doc issues score report_score].
  repeat split.
Qed.

Lemma iter_reports_frame (c : checker) (n : nat) :
  let cn := Nat.iter n (fun c0 => snd (generate_report c0)) c in
  cv_path cn = cv_path c /\ rules cn = rules c /\ doc cn = doc c
  /\ issues cn
     = issues c ++ concat (repeat (run_issues (cv_path c) (rules c) (doc c)) n).
Proof.
  cbv zeta. induction n as [|n IH]; cbn [repeat concat].
  - cbn [Nat.iter nat_rect]. rewrite app_nil_r. repeat split.
  - rewrite Nat.iter_succ. destruct IH as (H1 & H2 & H3 & H4).
    destruct (generate_report_frame (Nat.iter n (fun c0 => snd (generate_report c0)) c))
      as (F1 & F2 & F3 & F4 & _).
    rewrite F1, F2, F3, F4, H1, H2, H3, H4.
    repeat split. rewrite <- app_assoc. f_equal.
    clear. induction n as [|n IH]; cbn [repeat concat]; [now rewrite app_nil_r|].
    rewrite <- app_assoc. now rewrite IH.
Qed.

(** However often an instance has produced its report before, the next
    report has the same score and grade; its list of issues holds what the
    instance started with and then the issues of one run once per run. *)
Theorem report_after_n_runs (c : checker) (n : nat) :
  let cn := Nat.iter n (fun c0 => snd (generate_report c0)) c in
  report_score (fst (generate_report cn)) = report_score (fst (generate_report c))
  /\ report_grade (fst (generate_report cn)) = report_grade (fst (generate_report c))
  /\ issues (snd (generate_report cn))
     = issues c ++ concat (repeat (run_issues (cv_path c) (rules c) (doc c)) (S n)).
Proof.
  cbv zeta. pose proof (iter_reports_frame c (S n)) as HS. cbv zeta in HS.
  destruct HS as (_ & _ & _ & HS). rewrite Nat.iter_succ in HS.
  destruct (iter_reports_frame c n) as (H1 & H2 & H3 & H4).
  split; [|split; [|exact HS]].
  - rewrite !generate_report_eq, !calculate_total_score_eq.
    cbn [fst report_score]. now rewrite H1, H2, H3.
  - rewrite !generate_report_eq, !calculate_total_score_eq.
    cbn [fst report_grade]. now rewrite H1, H2, H3.
Qed.

(** ** A file that is not loaded *)

Lemma not_docx_violates_default (path : str) :
  is_docx path = false -> format_violation path default_rules = true.
Proof.
  unfold is_docx, format_violation. cbn [file_formats_allowed default_rules mem existsb].
  intros ->. reflexivity.
Qed.

(** With the default rules, a path whose extension is not [.docx] (case
    ignored) gives an instance, whatever the file holds, and the report on
    it has the score 70, the grade C and one issue, of severity HIGH. *)
Theorem report_on_other_formats (path : str) (docx_file : option Document) :
  is_docx path = false ->
  exists c, init path None docx_file = Ok c
            /\ report_score (fst (generate_report c)) = 70
            /\ report_grade (fst (generate_report c)) = py "C - Acceptable"
            /\ map severity (report_issues (fst (generate_report c))) = [HIGH]
            /\ map deduction (report_issues (fst (generate_report c))) = [30].
Proof.
  intros Hp. unfold init. rewrite Hp. eexists. split; [reflexivity|].
  rewrite generate_report_eq, calculate_total_score_eq.
  cbn [fst snd report_score report_grade report_issues cv_path rules doc issues app].
  unfold run_issues, format_issues. rewrite (not_docx_violates_default path Hp).
  rewrite app_nil_r. repeat split.
Qed.

Lemma report_on_other_formats_witness :
  is_docx (py "cv.pdf") = false
  /\ exists c, init (py "cv.pdf") None (Some Examples.table_and_image) = Ok c
               /\ report_score (fst (generate_report c)) = 70
               /\ report_grade (fst (generate_report c)) = py "C - Acceptable"
               /\ map severity (report_issues (fst (generate_report c))) = [HIGH]
               /\ map deduction (report_issues (fst (generate_report c))) = [30].
Proof.
  split; [reflexivity|].
  apply (report_on_other_formats (py "cv.pdf") (Some Examples.table_and_image)).
  reflexivity.
Defined.

End ATSReportFacts.

(* ===================================================================== *)
(** * Further facts about the keyword matcher *)
(* ===================================================================== *)

Module KeywordReportFacts.

Import Regex KeywordMatcher KeywordSuggestions StrFacts SetFacts RegexFacts
  KeywordMatcherFacts Readings.
Unset Implicit Arguments.

(** ** Keywords are counted once *)

Lemma filter_filter {A : Type} (p q : A -> bool) (l : list A) :
  filter p (filter q l) = filter (fun x => (q x && p x)%bool) l.
Proof.
  induction l as [|a l IH]; [reflexivity|]. cbn [filter].
  destruct (q a); cbn [filter andb]; [destruct (p a)|]; now rewrite IH.
Qed.

Lemma dedup_filter (p : str -> bool) (l : list str) :
  dedup (filter p l) = filter p (dedup l).
Proof.
  unfold dedup. induction l as [|a l IH]; [reflexivity|].
  cbn [filter dedup_by]. destruct (p a) eqn:Ea; cbn [dedup_by filter]; rewrite ?Ea.
  - rewrite IH, !filter_filter. f_equal. apply filter_ext. intros x.
    apply andb_comm.
  - rewrite IH, filter_filter. apply filter_ext_in. intros x Hx.
    destruct (str_eqb a x) eqn:E; [|reflexivity].
    apply str_eqb_eq in E. subst x. cbn [negb andb]. now rewrite Ea.
Qed.

Lemma str_eqb_sym (a b : str) : str_eqb a b = str_eqb b a.
Proof.
  destruct (str_eqb a b) eqn:E1; destruct (str_eqb b a) eqn:E2; try reflexivity.
  - apply str_eqb_eq in E1. subst. now rewrite str_eqb_refl in E2.
  - apply str_eqb_eq in E2. subst. now rewrite str_eqb_refl in E1.
Qed.

Lemma mem_app (x : str) (l1 l2 : list str) : mem x (l1 ++ l2) = (mem x l1 || mem x l2)%bool.
Proof. unfold mem. apply existsb_app. Qed.

Lemma add_keywords_dedup (l acc : list str) :
  fold_left add_keyword l acc
  = acc ++ dedup (filter (fun y => negb (mem y acc)) l).
Proof.
  revert acc; induction l as [|x l IH]; intros acc; cbn [fold_left filter].
  - now rewrite app_nil_r.
  - rewrite IH. unfold add_keyword, set_add. destruct (mem x acc) eqn:E; cbn [negb].
    + reflexivity.
    + rewrite <- app_assoc. f_equal. unfold dedup at 2. cbn [dedup_by app]. f_equal.
      fold (dedup (filter (fun y => negb (mem y acc)) l)).
      rewrite <- dedup_filter, filter_filter. f_equal. apply filter_ext. intros y.
      rewrite mem_app. unfold mem at 2. cbn [existsb]. rewrite orb_false_r.
      rewrite negb_orb. now rewrite (str_eqb_sym y x).
Qed.

Lemma collect_keywords_dedup (jd : list (str * list str)) :
  collect_keywords jd = dedup (listed_keywords jd).
Proof.
  rewrite collect_keywords_listed, add_keywords_dedup. cbn [app].
  f_equal. rewrite (filter_ext _ (fun _ => true)) by reflexivity.
  induction (listed_keywords jd) as [|x l IH]; [reflexivity|].
  cbn [filter]. now rewrite IH.
Qed.

(** A keyword counts once, however often the mapping lists it and in
    whichever spelling: the total is the number of distinct keywords after
    lower-casing and stripping, the matched ones are those of them found in
    the text, and the missing ones the others. *)
Theorem keywords_counted_once (self : matcher) :
  let r := calculate_match_percentage self in
  let distinct := dedup (listed_keywords (jd_keywords self)) in
  total_keywords r = List.length distinct
  /\ matched_keywords r = List.length (filter (keyword_found self) distinct)
  /\ missing_keywords r
     = List.length (filter (fun k => negb (keyword_found self k)) distinct)
  /\ (total_keywords r <= List.length (listed_keywords (jd_keywords self)))%nat.
Proof.
  cbv zeta. destruct (report_counts self) as (Ht & Hm & Hx & _).
  cbv zeta in *. rewrite Ht, Hm, Hx, collect_keywords_dedup.
  repeat split. apply dedup_length.
Qed.

(** ** The missing keywords *)

Lemma missing_keywords_list_In (self : matcher) (k : str) :
  In k (missing_keywords_list (calculate_match_percentage self)) ->
  In k (listed_keywords (jd_keywords self)) /\ keyword_found self k = false.
Proof.
  destruct (report_counts self) as (_ & _ & _ & Hl & _). cbv zeta in Hl. rewrite Hl.
  intros Hk.
  assert (Hin : In k (filter (fun k => negb (keyword_found self k))
                        (collect_keywords (jd_keywords self)))).
  { rewrite <- (firstn_skipn 20 (filter _ _)). apply in_or_app. now left. }
  apply filter_In in Hin. rewrite collect_keywords_In, negb_true_iff in Hin. exact Hin.
Qed.

(** Every keyword the report lists as missing is a keyword of the mapping
    (lower-cased and stripped) that the search does not find in the text,
    none is listed twice, and where at most 20 are missing the list has them
    all. *)
Theorem missing_keywords_list_sound (self : matcher) :
  let r := calculate_match_percentage self in
  Forall (fun k => In k (listed_keywords (jd_keywords self))
                   /\ keyword_found self k = false)
         (missing_keywords_list r)
  /\ NoDup (missing_keywords_list r)
  /\ ((missing_keywords r <= 20)%nat ->
      forall k, In k (listed_keywords (jd_keywords self)) ->
                keyword_found self k = false ->
                In k (missing_keywords_list r)).
Proof.
  cbv zeta. destruct (report_counts self) as (_ & _ & Hx & Hl & _).
  cbv zeta in *. rewrite Hl, Hx.
  set (missing := filter (fun k => negb (keyword_found self k))
                    (collect_keywords (jd_keywords self))).
  assert (Hm : forall k, In k missing
                         <-> In k (listed_keywords (jd_keywords self))
                             /\ keyword_found self k = false).
  { intros k. unfold missing. rewrite filter_In, collect_keywords_In, negb_true_iff.
    reflexivity. }
  split; [|split].
  - apply Forall_forall. intros k Hk. apply (missing_keywords_list_In self k).
    destruct (report_counts self) as (_ & _ & _ & Hl' & _). cbv zeta in Hl'.
    now rewrite Hl'.
  - assert (Hnd : NoDup missing).
    { unfold missing. apply NoDup_filter, collect_keywords_NoDup. }
    rewrite <- (firstn_skipn 20 missing) in Hnd. now apply NoDup_app_remove_r in Hnd.
  - intros Hlen k Hk Hf. rewrite firstn_all2 by exact Hlen. apply Hm. now split.
Qed.

(** ** Suggestions *)

Lemma suggestions_loop_eq (analysis : match_report) (sections : list (str * str))
    (missing : list str) (acc : list suggestion) :
  suggestions_loop analysis sections missing acc
  = Some (acc ++ map (fun k => {| s_keyword := k;
                                  suggested_section := _determine_best_section k sections;
                                  priority := py "MEDIUM" |}) missing).
Proof.
  revert acc; induction missing as [|k missing IH]; intros acc; cbn [suggestions_loop map].
  - now rewrite app_nil_r.
  - change (dict_get (as_dict analysis) (py "required_keywords") (VList []))
      with (VList []).
    cbn [value_contains mem existsb]. rewrite IH, <- app_assoc. reflexivity.
Qed.

Lemma _determine_best_section_values (k : str) (sections : list (str * str)) :
  _determine_best_section k sections = py "skills"
  \/ _determine_best_section k sections = py "experience".
Proof.
  unfold _determine_best_section.
  destruct (existsb _ technical_indicators); [now left|].
  destruct (existsb _ action_indicators); [now right | now left].
Qed.

(** [suggest_keyword_placements] returns, without raising, one suggestion
    for each of the first ten missing keywords of the report, in order.
    Every suggestion has the priority MEDIUM, none HIGH; the section is
    [skills] or [experience], and is [skills] whenever the keyword contains a
    technical indicator; and the keyword is one the search does not find in
    the text. *)
Theorem suggestions_for_missing_keywords (self : matcher) :
  exists l,
    suggest_keyword_placements self = Some l
    /\ map s_keyword l
       = firstn 10 (missing_keywords_list (calculate_match_percentage self))
    /\ (List.length l <= 10)%nat
    /\ Forall (fun s =>
                 priority s = py "MEDIUM"
                 /\ (suggested_section s = py "skills"
                     \/ suggested_section s = py "experience")
                 /\ (existsb (fun indicator => contains indicator (lower (s_keyword s)))
                             technical_indicators = true ->
                     suggested_section s = py "skills")
                 /\ keyword_found self (s_keyword s) = false) l.
Proof.
  unfold suggest_keyword_placements. rewrite suggestions_loop_eq. cbn [app].
  eexists. split; [reflexivity|].
  set (missing := firstn 10 (missing_keywords_list (calculate_match_percentage self))).
  split; [|split].
  - rewrite map_map. cbn [s_keyword]. apply map_id.
  - rewrite length_map. unfold missing. rewrite length_firstn. lia.
  - apply Forall_forall. intros s Hs. apply in_map_iff in Hs.
    destruct Hs as (k & <- & Hk). cbn [priority suggested_section s_keyword].
    split; [reflexivity|]. split; [apply _determine_best_section_values|]. split.
    + intros Ht. unfold _determine_best_section. now rewrite Ht.
    + apply (missing_keywords_list_In self k). unfold missing in Hk.
      rewrite <- (firstn_skipn 10 (missing_keywords_list _)). apply in_or_app. now left.
Qed.

(** ** Letter case *)

Lemma lower_idem (s : str) : lower (lower s) = lower s.
Proof.
  unfold lower. rewrite map_map. apply map_ext. apply lower_char_idem.
Qed.

Lemma nonempty_lower (k : str) : nonempty (lower k) = nonempty k.
Proof. now destruct k. Qed.

Lemma normalized_lower (ks : list str) :
  map (fun k => strip (lower k)) (filter nonempty (map lower ks))
  = map (fun k => strip (lower k)) (filter nonempty ks).
Proof.
  induction ks as [|k ks IH]; [reflexivity|].
  cbn [map filter]. rewrite nonempty_lower.
  destruct (nonempty k); cbn [map]; now rewrite ?lower_idem, IH.
Qed.

Lemma listed_keywords_lower (jd : list (str * list str)) :
  listed_keywords (lower_keywords jd) = listed_keywords jd.
Proof.
  unfold listed_keywords, lower_keywords, normalize.
  induction jd as [|e jd IH]; [reflexivity|].
  cbn [map flat_map snd]. now rewrite normalized_lower, IH.
Qed.

Lemma category_matches_lower (t : str) (jd1 : list (str * list str)) :
  category_matches {| cv_text := t; jd_keywords := lower_keywords jd1 |}
  = category_matches {| cv_text := t; jd_keywords := jd1 |}.
Proof.
  unfold category_matches. cbn [jd_keywords].
  generalize (@nil (str * category_stats)).
  induction jd1 as [|e jd IH]; intros d; [reflexivity|].
  cbn [lower_keywords map fold_left fst snd].
  fold (lower_keywords jd). rewrite IH. f_equal. f_equal.
  unfold category_entry, keyword_found. cbn [cv_text].
  now rewrite normalized_lower.
Qed.

Lemma report_of_lowered (t : str) (jd : list (str * list str)) :
  calculate_match_percentage (init t jd)
  = calculate_match_percentage (init (lower t) (lower_keywords jd)).
Proof.
  unfold init. rewrite lower_idem.
  unfold calculate_match_percentage. cbn [jd_keywords].
  rewrite (category_matches_lower (lower t) jd).
  rewrite !collect_keywords_listed, listed_keywords_lower.
  reflexivity.
Qed.

(** The report does not see letter case: two texts that agree once
    lower-cased, with two mappings whose keywords agree once lower-cased,
    get the same report. *)
Theorem report_ignores_case (t1 t2 : str) (jd1 jd2 : list (str * list str)) :
  lower t1 = lower t2 ->
  lower_keywords jd1 = lower_keywords jd2 ->
  calculate_match_percentage (init t1 jd1) = calculate_match_percentage (init t2 jd2).
Proof.
  intros Ht Hjd.
  rewrite (report_of_lowered t1 jd1), (report_of_lowered t2 jd2), Ht, Hjd.
  reflexivity.
Qed.

Lemma report_ignores_case_witness :
  lower (py "I use SQL daily") = lower (py "i USE sql DAILY")
  /\ calculate_match_percentage
       (init (py "I use SQL daily") [(py "skills", [py "SQL"; py "Python"])])
     = calculate_match_percentage
         (init (py "i USE sql DAILY") [(py "skills", [py "sql"; py "PYTHON"])]).
Proof.
  split; [reflexivity|].
  apply (report_ignores_case (py "I use SQL daily") (py "i USE sql DAILY")
           [(py "skills", [py "SQL"; py "Python"])]
           [(py "skills", [py "sql"; py "PYTHON"])]); reflexivity.
Defined.

(** ** The breakdown by category *)

Lemma dict_set_Forall {V : Type} (P : V -> Prop) (d : list (str * V)) (key : str)
    (value : V) :
  Forall (fun e => P (snd e)) d -> P value ->
  Forall (fun e => P (snd e)) (dict_set d key value).
Proof.
  intros Hd Hv. induction d as [|[k v] d IH]; cbn [dict_set].
  - now repeat constructor.
  - inversion Hd as [|? ? H1 H2]; subst.
    destruct (str_eqb k key); constructor; auto.
Qed.

Lemma category_entry_bounds (self : matcher) (ks : list str) :
  (matched (category_entry self ks) <= total (category_entry self ks))%nat
  /\ (0 <= percentage (category_entry self ks) <= 100)%Q.
Proof.
  unfold category_entry. cbn [matched total percentage].
  set (l := map (fun k => strip (lower k)) (filter nonempty ks)).
  split; [apply filter_length_le|].
  destruct (0 <? List.length l)%nat eqn:E.
  - apply Nat.ltb_lt in E. apply percent_range; [apply filter_length_le | exact E].
  - split; discriminate.
Qed.

(** In every entry of the breakdown the matched count is at most the total
    and the percentage lies between 0 and 100. *)
Lemma category_breakdown_bounds (self : matcher) :
  Forall (fun e : str * category_stats =>
            (matched (snd e) <= total (snd e))%nat
            /\ (0 <= percentage (snd e) <= 100)%Q)
         (category_breakdown (calculate_match_percentage self)).
Proof.
  destruct (report_counts self) as (_ & _ & _ & _ & _ & Hb). cbv zeta in Hb.
  rewrite Hb. unfold category_matches.
  assert (H : forall jd d,
             Forall (fun e : str * category_stats =>
                       (matched (snd e) <= total (snd e))%nat
                       /\ (0 <= percentage (snd e) <= 100)%Q) d ->
             Forall (fun e : str * category_stats =>
                       (matched (snd e) <= total (snd e))%nat
                       /\ (0 <= percentage (snd e) <= 100)%Q)
               (fold_left
                  (fun d (entry : str * list str) =>
                     dict_set d (fst entry) (category_entry self (snd entry))) jd d)).
  { induction jd as [|e jd IH]; intros d Hd; cbn [fold_left]; [exact Hd|].
    apply IH.
    apply (dict_set_Forall
             (fun v => (matched v <= total v)%nat /\ (0 <= percentage v <= 100)%Q));
      [exact Hd | apply category_entry_bounds]. }
  apply H. constructor.
Qed.

(** ** The grade *)

Local Open Scope Q_scope.





Local Close Scope Q_scope.



End KeywordReportFacts.

(* ===================================================================== *)
(** * What a match of a regular expression reads *)
(* ===================================================================== *)

Module RegexSound.

Import Regex StrFacts SetFacts RegexFacts Readings.
Unset Implicit Arguments.

Lemma last_of_app (u v : str) (b : option char) :
  last_of (u ++ v) b = last_of v (last_of u b).
Proof. unfold last_of. apply fold_left_app. Qed.

Lemma reads_nil (s : mstate) : reads s [] s.
Proof. unfold reads. cbn. repeat split. lia. Qed.

Lemma reads_trans (s s1 s2 : mstate) (u1 u2 : str) :
  reads s u1 s1 -> reads s1 u2 s2 -> reads s (u1 ++ u2) s2.
Proof.
  intros (R1 & P1 & V1) (R2 & P2 & V2). unfold reads.
  rewrite R1, R2, P2, P1, V2, V1, last_of_app, length_app, <- app_assoc.
  repeat split. lia.
Qed.

Lemma capture_of_refl (ic : bool) (r : re) (c : option str) : capture_of ic r c c.
Proof. now left. Qed.

Lemma capture_of_incl (ic : bool) (r r' : re) (c c' : option str) :
  incl (groups r) (groups r') -> capture_of ic r c c' -> capture_of ic r' c c'.
Proof.
  intros Hi [H|(g & v & Hg & Hc & Hl)]; [now left|].
  right. exists g, v. auto.
Qed.

Lemma capture_of_trans (ic : bool) (r : re) (c c1 c2 : option str) :
  capture_of ic r c c1 -> capture_of ic r c1 c2 -> capture_of ic r c c2.
Proof.
  intros H1 [H2|H2]; [now subst | now right].
Qed.

(** A repetition reads a sequence of strings, each read by one round. *)
Lemma star_loop_sound (ic : bool) (a : re)
    (step : mstate -> (mstate -> option mstate) -> option mstate)
    (g : bool) (k : mstate -> option mstate) (e : mstate) :
  (forall s k', step s k' = Some e ->
                exists s' u, k' s' = Some e /\ reads s u s' /\ lang ic a u
                             /\ capture_of ic a (cap s) (cap s')) ->
  forall n s0, star_loop step g k n s0 = Some e ->
               exists s' us, k s' = Some e /\ reads s0 (concat us) s'
                             /\ Forall (lang ic a) us
                             /\ capture_of ic a (cap s0) (cap s').
Proof.
  intros Hstep. induction n as [|n IH]; intros s0 H; cbn [star_loop] in H.
  - exists s0, []. split; [exact H|]. split; [apply reads_nil|].
    split; [constructor | apply capture_of_refl].
  - assert (Hmore : step s0
                      (fun s' => if (List.length (rest s') <? List.length (rest s0))%nat
                                 then star_loop step g k n s' else None) = Some e ->
                    exists s' us, k s' = Some e /\ reads s0 (concat us) s'
                                  /\ Forall (lang ic a) us
                                  /\ capture_of ic a (cap s0) (cap s')).
    { intros Hm. apply Hstep in Hm. destruct Hm as (s1 & u & H1 & R1 & L1 & C1).
      destruct (List.length (rest s1) <? List.length (rest s0))%nat; [|discriminate].
      apply IH in H1. destruct H1 as (s' & us & Hk & R' & L' & C').
      exists s', (u :: us). split; [exact Hk|]. split.
      - cbn [concat]. eapply reads_trans; eauto.
      - split; [now constructor | eapply capture_of_trans; eauto]. }
    assert (Hstop : k s0 = Some e ->
                    exists s' us, k s' = Some e /\ reads s0 (concat us) s'
                                  /\ Forall (lang ic a) us
                                  /\ capture_of ic a (cap s0) (cap s')).
    { intros Hk. exists s0, []. split; [exact Hk|]. split; [apply reads_nil|].
      split; [constructor | apply capture_of_refl]. }
    destruct g.
    + destruct (step s0 _) as [e'|] eqn:E.
      * injection H as ->. now apply Hmore.
      * now apply Hstop.
    + destruct (k s0) as [e'|] eqn:E.
      * injection H as ->. now apply Hstop.
      * now apply Hmore.
Qed.

(** Where the matcher succeeds on a pattern it has read a string the
    pattern stands for, moved on by its length, and set the capture only
    through a group of the pattern. *)
Lemma run_sound (f : flags) (r : re) (e : mstate) :
  forall s k, run f r s k = Some e ->
    exists s' u, k s' = Some e /\ reads s u s' /\ lang (ignorecase f) r u
                 /\ capture_of (ignorecase f) r (cap s) (cap s').
Proof.
  induction r as [|c|a IHa b IHb|a IHa b IHb|g a IHa|a IHa| | | |a IHa];
    intros s k H; cbn [run] in H.
  - exists s, []. split; [exact H|]. split; [apply reads_nil|].
    split; [reflexivity | apply capture_of_refl].
  - destruct (rest s) as [|x t] eqn:Er; [discriminate|].
    destruct (cls_mem (ignorecase f) c x) eqn:Ec; [|discriminate].
    eexists. exists [x]. split; [exact H|]. split.
    + unfold reads. cbn [rest pos prev List.length last_of fold_left app].
      rewrite Er. repeat split. lia.
    + split; [exists x; now split | apply capture_of_refl].
  - apply IHa in H. destruct H as (s1 & u1 & H1 & R1 & L1 & C1).
    apply IHb in H1. destruct H1 as (s2 & u2 & H2 & R2 & L2 & C2).
    exists s2, (u1 ++ u2). split; [exact H2|]. split; [eapply reads_trans; eauto|].
    split.
    + cbn [lang]. exists u1, u2. auto.
    + apply (capture_of_trans _ _ _ (cap s1)).
      * eapply capture_of_incl; [|exact C1]. cbn [groups]. apply incl_appl, incl_refl.
      * eapply capture_of_incl; [|exact C2]. cbn [groups]. apply incl_appr, incl_refl.
  - destruct (run f a s k) as [e'|] eqn:E.
    + injection H as ->. apply IHa in E. destruct E as (s' & u & H' & R' & L' & C').
      exists s', u. split; [exact H'|]. split; [exact R'|]. split; [now left|].
      eapply capture_of_incl; [|exact C']. cbn [groups]. apply incl_appl, incl_refl.
    + apply IHb in H. destruct H as (s' & u & H' & R' & L' & C').
      exists s', u. split; [exact H'|]. split; [exact R'|]. split; [now right|].
      eapply capture_of_incl; [|exact C']. cbn [groups]. apply incl_appr, incl_refl.
  - apply (star_loop_sound (ignorecase f) a (run f a) g k e) in H.
    + destruct H as (s' & us & H' & R' & L' & C').
      exists s', (concat us). split; [exact H'|]. split; [exact R'|].
      split; [exists us; now split | exact C'].
    + intros s0 k' H0. now apply IHa.
  - apply IHa in H. destruct H as (s1 & u & H1 & R1 & L1 & _).
    eexists. exists u. split; [exact H1|].
    destruct R1 as (Rr & Rp & Rv). split.
    + unfold reads. cbn [rest pos prev]. auto.
    + split; [exact L1|]. right. exists a, u. split; [now left|]. split; [|exact L1].
      cbn [cap]. f_equal. rewrite Rr, Rp.
      replace (pos s + List.length u - pos s) with (List.length u) by lia.
      rewrite firstn_app, Nat.sub_diag, firstn_all. cbn [firstn]. apply app_nil_r.
  - destruct (at_bol f s); [|discriminate].
    exists s, []. split; [exact H|]. split; [apply reads_nil|].
    split; [reflexivity | apply capture_of_refl].
  - destruct (at_eol f s); [|discriminate].
    exists s, []. split; [exact H|]. split; [apply reads_nil|].
    split; [reflexivity | apply capture_of_refl].
  - destruct (at_boundary s); [|discriminate].
    exists s, []. split; [exact H|]. split; [apply reads_nil|].
    split; [reflexivity | apply capture_of_refl].
  - destruct (run f a s (fun s' => Some s')); [|discriminate].
    exists s, []. split; [exact H|]. split; [apply reads_nil|].
    split; [reflexivity | apply capture_of_refl].
Qed.

(** A match at a position: what it reads is its [group(0)], and its
    [group(1)], where set, was read by a group of the pattern. *)
Lemma match_at_sound (f : flags) (r : re) (p : nat) (pv : option char) (rs : str)
    (m : match_obj) (e : mstate) :
  match_at f r p pv rs = Some (m, e) ->
  rs = group0 m ++ rest e
  /\ m_start m = p /\ m_end m = p + List.length (group0 m) /\ pos e = m_end m
  /\ prev e = last_of (group0 m) pv
  /\ lang (ignorecase f) r (group0 m)
  /\ capture_of (ignorecase f) r None (group1 m).
Proof.
  unfold match_at. intros H.
  destruct (run f r (start_state p pv rs) (fun e0 => Some e0)) as [e'|] eqn:E;
    [|discriminate].
  injection H as <- <-. apply run_sound in E.
  destruct E as (s' & u & Hs & (Rr & Rp & Rv) & L & C). injection Hs as ->.
  cbn [rest pos prev cap start_state] in *. cbn [m_start m_end group0 group1].
  assert (Eu : firstn (pos e' - p) rs = u).
  { rewrite Rr, Rp. replace (p + List.length u - p) with (List.length u) by lia.
    rewrite firstn_app, Nat.sub_diag, firstn_all. cbn [firstn]. apply app_nil_r. }
  rewrite Eu. repeat split; auto.
Qed.

(** A search from a position skips some characters and then matches. *)
Lemma search_at_sound (f : flags) (r : re) (rs : str) :
  forall p pv m e,
    search_at f r p pv rs = Some (m, e) ->
    exists skipped,
      rs = skipped ++ group0 m ++ rest e
      /\ m_start m = p + List.length skipped
      /\ m_end m = m_start m + List.length (group0 m) /\ pos e = m_end m
      /\ prev e = last_of (skipped ++ group0 m) pv
      /\ lang (ignorecase f) r (group0 m)
      /\ capture_of (ignorecase f) r None (group1 m).
Proof.
  induction rs as [|x rs IH]; intros p pv m e H; rewrite search_at_some in H.
  - destruct (match_at f r p pv []) as [[m' e']|] eqn:E; [|discriminate].
    injection H as -> ->. apply match_at_sound in E.
    destruct E as (E1 & E2 & E3 & E4 & E5 & E6 & E7).
    exists []. cbn [app List.length]. rewrite E2, Nat.add_0_r. repeat split; auto.
  - destruct (match_at f r p pv (x :: rs)) as [[m' e']|] eqn:E.
    + injection H as -> ->. apply match_at_sound in E.
      destruct E as (E1 & E2 & E3 & E4 & E5 & E6 & E7).
      exists []. cbn [app List.length]. rewrite E2, Nat.add_0_r. repeat split; auto.
    + apply IH in H. destruct H as (sk & H1 & H2 & H3 & H4 & H5 & H6 & H7).
      exists (x :: sk). cbn [app List.length]. rewrite H1 at 1.
      repeat split; auto; try lia.
Qed.

(** Every match of [finditer] is a piece of the text that the pattern
    stands for. *)
Lemma finditer_at_sound (f : flags) (r : re) :
  forall fuel p pv rs m,
    In m (finditer_at fuel f r p pv rs) ->
    piece_of (group0 m) rs
    /\ lang (ignorecase f) r (group0 m)
    /\ capture_of (ignorecase f) r None (group1 m).
Proof.
  induction fuel as [|fuel IH]; intros p pv rs m H; cbn [finditer_at] in H.
  - contradiction.
  - destruct (search_at f r p pv rs) as [[m' e]|] eqn:E; [|contradiction].
    apply search_at_sound in E. destruct E as (sk & H1 & _ & _ & _ & _ & H6 & H7).
    destruct H as [<-|H].
    + split; [now exists sk, (rest e) | now split].
    + assert (Hrest : forall m0, piece_of (group0 m0) (rest e) -> piece_of (group0 m0) rs).
      { intros m0 (b & a & Hb). exists (sk ++ group0 m' ++ b), a.
        rewrite H1, Hb, <- !app_assoc. reflexivity. }
      destruct (m_start m' <? m_end m')%nat.
      * apply IH in H. destruct H as (P & L & C). split; [now apply Hrest | now split].
      * destruct (rest e) as [|x rs'] eqn:Er; [contradiction|].
        apply IH in H. destruct H as ((b & a & Hb) & L & C).
        split; [|now split]. apply Hrest. exists (x :: b), a. cbn [app]. now rewrite Hb.
Qed.

Lemma finditer_sound (f : flags) (r : re) (text : str) (m : match_obj) :
  In m (finditer f r text) ->
  piece_of (group0 m) text
  /\ lang (ignorecase f) r (group0 m)
  /\ capture_of (ignorecase f) r None (group1 m).
Proof. apply finditer_at_sound. Qed.

(** ** What the patterns of the sources stand for *)

Lemma lang_seqs_cons (ic : bool) (a : re) (l : list re) (u : str) :
  lang ic (seqs (a :: l)) u -> exists u1 u2, u = u1 ++ u2 /\ lang ic a u1 /\ lang ic (seqs l) u2.
Proof.
  destruct l as [|b l]; cbn [seqs lang].
  - intros H. exists u, []. now rewrite app_nil_r.
  - auto.
Qed.

Lemma lang_alts (ic : bool) (l : list re) (u : str) :
  l <> [] -> lang ic (alts l) u -> exists a, In a l /\ lang ic a u.
Proof.
  induction l as [|a l IH]; [congruence|]. intros _ H.
  destruct l as [|b l].
  - exists a. split; [now left | exact H].
  - cbn [alts lang] in H. destruct H as [H|H].
    + exists a. split; [now left | exact H].
    + destruct IH as (a' & Ha & La); [discriminate | exact H |].
      exists a'. split; [now right | exact La].
Qed.

(** A literal stands for the strings of its length that read like it. *)
Lemma lang_lit (ic : bool) (w u : str) :
  lang ic (lit w) u -> List.length u = List.length w /\ lit_starts ic w u = true.
Proof.
  revert u; induction w as [|x w IH]; intros u H.
  - cbn in H. subst. now split.
  - unfold lit in H. cbn [map] in H. apply lang_seqs_cons in H.
    destruct H as (u1 & u2 & -> & (c & -> & Hc) & H2).
    apply IH in H2. destruct H2 as [Hl Hs].
    cbn [app List.length lit_starts]. rewrite Hl, Hc, Hs. now split.
Qed.

Lemma lit_starts_lower (w u : str) :
  List.length u = List.length w -> lit_starts true w u = true -> lower u = lower w.
Proof.
  revert u; induction w as [|x w IH]; intros [|c u] Hl H; try discriminate.
  - reflexivity.
  - cbn [lit_starts cls_mem] in H. apply andb_true_iff in H. destruct H as [Hc Hs].
    apply N.eqb_eq in Hc. cbn [lower map]. rewrite Hc. f_equal.
    apply IH; [simpl in Hl; lia | exact Hs].
Qed.

Lemma lang_plus (ic : bool) (c : cls) (u : str) :
  lang ic (plus (Cls c)) u ->
  u <> [] /\ Forall (fun x => cls_mem ic c x = true) u.
Proof.
  unfold plus. cbn [lang]. intros (u1 & u2 & -> & (x & -> & Hx) & (us & -> & Hus)).
  split; [discriminate|]. constructor; [exact Hx|].
  induction Hus as [|v vs (y & -> & Hy) _ IH]; cbn [concat]; [constructor|].
  now constructor.
Qed.

Lemma lang_star (ic : bool) (g : bool) (c : cls) (u : str) :
  lang ic (Star g (Cls c)) u -> Forall (fun x => cls_mem ic c x = true) u.
Proof.
  cbn [lang]. intros (us & -> & Hus).
  induction Hus as [|v vs (y & -> & Hy) _ IH]; cbn [concat]; [constructor|].
  now constructor.
Qed.

(** ** Where matches stand *)

Lemma search_at_match (f : flags) (r : re) (rs : str) :
  forall p pv m e,
    search_at f r p pv rs = Some (m, e) ->
    exists skipped rs',
      rs = skipped ++ rs'
      /\ match_at f r (p + List.length skipped) (last_of skipped pv) rs' = Some (m, e).
Proof.
  induction rs as [|x rs IH]; intros p pv m e H; rewrite search_at_some in H.
  - destruct (match_at f r p pv []) as [[m' e']|] eqn:E; [|discriminate].
    injection H as -> ->. exists [], []. cbn [app List.length last_of fold_left].
    now rewrite Nat.add_0_r.
  - destruct (match_at f r p pv (x :: rs)) as [[m' e']|] eqn:E.
    + injection H as -> ->. exists [], (x :: rs). cbn [app List.length last_of fold_left].
      now rewrite Nat.add_0_r.
    + apply IH in H. destruct H as (sk & rs' & -> & Hm).
      exists (x :: sk), rs'. split; [reflexivity|].
      cbn [List.length last_of fold_left]. rewrite Nat.add_succ_r. exact Hm.
Qed.

(** Every match of [finditer] is a match at its position in the text, with
    the character before that position as the character before it. *)
Lemma finditer_at_match (f : flags) (r : re) :
  forall fuel p pv rs0 m,
    In m (finditer_at fuel f r p pv rs0) ->
    exists before rs e,
      rs0 = before ++ rs
      /\ match_at f r (p + List.length before) (last_of before pv) rs = Some (m, e).
Proof.
  induction fuel as [|fuel IH]; intros p pv rs0 m H; cbn [finditer_at] in H.
  - contradiction.
  - destruct (search_at f r p pv rs0) as [[m' e]|] eqn:E; [|contradiction].
    apply search_at_match in E. destruct E as (sk & rs' & -> & Hm).
    destruct H as [<-|H]; [now exists sk, rs', e|].
    pose proof (match_at_sound _ _ _ _ _ _ _ Hm) as (S1 & S2 & S3 & S4 & S5 & _).
    destruct (m_start m' <? m_end m')%nat.
    + apply IH in H. destruct H as (b & rs2 & e2 & Hb & Hm2).
      exists (sk ++ group0 m' ++ b), rs2, e2. split.
      * rewrite S1, Hb, <- !app_assoc. reflexivity.
      * assert (Ep : p + List.length (sk ++ group0 m' ++ b) = pos e + List.length b)
          by (rewrite !length_app; lia).
        assert (Ev : last_of (sk ++ group0 m' ++ b) pv = last_of b (prev e))
          by (rewrite !last_of_app, S5; reflexivity).
        rewrite Ep, Ev. exact Hm2.
    + destruct (rest e) as [|x rs''] eqn:Er; [contradiction|].
      apply IH in H. destruct H as (b & rs2 & e2 & Hb & Hm2).
      exists (sk ++ group0 m' ++ x :: b), rs2, e2. split.
      * rewrite S1, Hb, <- !app_assoc. reflexivity.
      * assert (Ep : p + List.length (sk ++ group0 m' ++ x :: b)
                     = S (pos e) + List.length b)
          by (rewrite !length_app; cbn [List.length]; lia).
        assert (Ev : last_of (sk ++ group0 m' ++ x :: b) pv = last_of b (Some x))
          by (rewrite !last_of_app; reflexivity).
        rewrite Ep, Ev. exact Hm2.
Qed.

Lemma finditer_match (f : flags) (r : re) (text : str) (m : match_obj) :
  In m (finditer f r text) ->
  exists before rs e,
    text = before ++ rs
    /\ match_at f r (List.length before) (last_of before None) rs = Some (m, e).
Proof. intros H. apply finditer_at_match in H. exact H. Qed.

(** A search finds a match if the pattern matches somewhere. *)
Lemma search_at_reaches (f : flags) (r : re) (rs : str) :
  forall before p pv,
    is_some (match_at f r (p + List.length before) (last_of before pv) rs) = true ->
    is_some (search_at f r p pv (before ++ rs)) = true.
Proof.
  induction before as [|x before IH]; intros p pv H.
  - cbn [app List.length last_of fold_left] in *. rewrite Nat.add_0_r in H.
    rewrite search_at_some. destruct (match_at f r p pv rs); [reflexivity | discriminate].
  - cbn [app]. rewrite search_at_some.
    destruct (match_at f r p pv (x :: before ++ rs)); [reflexivity|].
    apply IH. cbn [List.length last_of fold_left] in H. rewrite Nat.add_succ_r in H.
    exact H.
Qed.

Lemma consume_pos (n : nat) (s : mstate) :
  (n <= List.length (rest s))%nat -> pos (consume n s) = pos s + n.
Proof.
  revert s; induction n as [|n IH]; intros s Hn; cbn [consume]; [lia|].
  destruct (rest s) as [|x t] eqn:E; [simpl in Hn; lia|].
  rewrite IH by (cbn [rest]; simpl in Hn; lia). cbn [pos]. lia.
Qed.

(** An alternation of literals matches through the first of them that the
    text reads and after which the rest of the pattern matches. *)
Lemma run_alts_lit (f : flags) (l : list str) (s : mstate)
    (k : mstate -> option mstate) (e : mstate) :
  l <> [] ->
  run f (alts (map lit l)) s k = Some e ->
  exists w, In w l /\ lit_starts (ignorecase f) w (rest s) = true
            /\ k (consume (List.length w) s) = Some e.
Proof.
  induction l as [|w l IH]; [congruence|]. intros _ H.
  destruct l as [|w2 l].
  - cbn [map alts] in H. rewrite run_lit in H.
    destruct (lit_starts (ignorecase f) w (rest s)) eqn:E; [|discriminate].
    exists w. split; [now left | now split].
  - change (alts (map lit (w :: w2 :: l)))
      with (Alt (lit w) (alts (map lit (w2 :: l)))) in H.
    cbn [run] in H. rewrite run_lit in H.
    destruct (lit_starts (ignorecase f) w (rest s)) eqn:E.
    + destruct (k (consume (List.length w) s)) as [e'|] eqn:Ek.
      * injection H as ->. exists w. split; [now left | now split].
      * destruct IH as (w' & Hw & Hs & Hk); [discriminate | exact H |].
        exists w'. split; [now right | now split].
    + destruct IH as (w' & Hw & Hs & Hk); [discriminate | exact H |].
      exists w'. split; [now right | now split].
Qed.

Lemma lit_starts_firstn (ic : bool) (w t : str) :
  lit_starts ic w t = true ->
  List.length (firstn (List.length w) t) = List.length w
  /\ lit_starts ic w (firstn (List.length w) t) = true.
Proof.
  revert t; induction w as [|x w IH]; intros [|c t] H; cbn [lit_starts] in H;
    try discriminate; try (now split).
  apply andb_true_iff in H. destruct H as [Hc H]. apply IH in H. destruct H as [H1 H2].
  cbn [List.length firstn lit_starts]. rewrite H1, Hc, H2. now split.
Qed.

Lemma lit_starts_lower_both (w t : str) :
  lit_starts true (lower w) (lower t) = lit_starts true w t.
Proof.
  revert t; induction w as [|x w IH]; intros [|c t]; cbn [lower map lit_starts];
    try reflexivity.
  fold (lower w). fold (lower t). rewrite IH. cbn [cls_mem].
  now rewrite !lower_char_idem.
Qed.

Lemma last_of_lower (u : str) (pv : option char) :
  last_of (lower u) (option_map lower_char pv) = option_map lower_char (last_of u pv).
Proof.
  revert pv; induction u as [|c u IH]; intros pv; [reflexivity|].
  cbn [lower map last_of fold_left]. fold (lower u).
  fold (last_of (lower u) (Some (lower_char c))). fold (last_of u (Some c)).
  apply (IH (Some c)).
Qed.

(** A word boundary does not depend on letter case. *)
Lemma at_boundary_consume_lower (n p p' : nat) (pv : option char) (rs : str) :
  (n <= List.length rs)%nat ->
  at_boundary (consume n (start_state p' (option_map lower_char pv) (lower rs)))
  = at_boundary (consume n (start_state p pv rs)).
Proof.
  intros Hn. unfold at_boundary.
  rewrite !consume_rest, !consume_prev
    by (cbn [rest start_state]; unfold lower; rewrite ?length_map; exact Hn).
  cbn [rest prev start_state].
  assert (E1 : is_word_opt (hd_error (skipn n (lower rs)))
               = is_word_opt (hd_error (skipn n rs))).
  { unfold lower. rewrite skipn_map. destruct (skipn n rs) as [|c t]; [reflexivity|].
    cbn [map hd_error is_word_opt]. apply isword_lower_char. }
  rewrite E1. f_equal.
  destruct n as [|n].
  - destruct pv as [c|]; [apply isword_lower_char | reflexivity].
  - unfold lower. rewrite nth_error_map.
    destruct (nth_error rs n) as [c|]; [apply isword_lower_char | reflexivity].
Qed.

End RegexSound.

(* ===================================================================== *)
(** * Further facts about the job-description parser *)
(* ===================================================================== *)

Module JDExtractionFacts.

Import Regex JobDescriptionParser KeywordChecklist StrFacts SetFacts RegexFacts
  RegexSound JDParserFacts Readings.
Local Open Scope result_scope.
Unset Implicit Arguments.

(** ** The order of strings *)

Ltac ltb_props :=
  repeat match goal with
         | H : N.ltb _ _ = true |- _ => apply N.ltb_lt in H
         | H : N.ltb _ _ = false |- _ => apply N.ltb_ge in H
         end.

Lemma str_leb_total (a b : str) : str_leb a b = false -> str_leb b a = true.
Proof.
  revert b; induction a as [|x a IH]; intros [|y b] H; cbn [str_leb] in *;
    try discriminate; try reflexivity.
  destruct (N.ltb x y) eqn:E1; [discriminate|].
  destruct (N.ltb y x) eqn:E2; [reflexivity|]. now apply IH.
Qed.

Lemma str_leb_trans (a b c : str) :
  str_leb a b = true -> str_leb b c = true -> str_leb a c = true.
Proof.
  revert b c; induction a as [|x a IH]; intros [|y b] [|z c] H1 H2;
    cbn [str_leb] in *; try discriminate; try reflexivity.
  destruct (N.ltb x y) eqn:E1; destruct (N.ltb y x) eqn:E2; try discriminate;
    destruct (N.ltb y z) eqn:E3; destruct (N.ltb z y) eqn:E4; try discriminate;
    destruct (N.ltb x z) eqn:E5; try reflexivity;
    destruct (N.ltb z x) eqn:E6; ltb_props; try lia.
  eapply IH; eauto.
Qed.

Lemma insert_sorted_permutation (x : str) (l : list str) :
  Permutation (insert_sorted x l) (x :: l).
Proof.
  induction l as [|y l IH]; cbn [insert_sorted]; [reflexivity|].
  destruct (str_leb x y); [reflexivity|]. rewrite IH. apply perm_swap.
Qed.

Lemma sorted_permutation (l : list str) : Permutation (sorted l) l.
Proof.
  induction l as [|x l IH]; [reflexivity|].
  unfold sorted in *. cbn [fold_right]. rewrite insert_sorted_permutation.
  now constructor.
Qed.

Lemma insert_sorted_sorted (x : str) (l : list str) :
  StronglySorted (fun a b => str_leb a b = true) l ->
  StronglySorted (fun a b => str_leb a b = true) (insert_sorted x l).
Proof.
  induction l as [|y l IH]; intros H; cbn [insert_sorted].
  - repeat constructor.
  - inversion H as [|? ? Hs Hf]; subst. destruct (str_leb x y) eqn:E.
    + constructor; [exact H|]. constructor; [exact E|].
      apply Forall_forall. intros z Hz. rewrite Forall_forall in Hf.
      eapply str_leb_trans; [exact E | now apply Hf].
    + constructor; [now apply IH|].
      apply Forall_forall. intros z Hz.
      apply (Permutation_in _ (insert_sorted_permutation x l)) in Hz.
      destruct Hz as [<-|Hz]; [now apply str_leb_total|].
      rewrite Forall_forall in Hf. now apply Hf.
Qed.

Lemma sorted_sorted (l : list str) :
  StronglySorted (fun a b => str_leb a b = true) (sorted l).
Proof.
  induction l as [|x l IH]; [constructor|].
  unfold sorted in *. cbn [fold_right]. now apply insert_sorted_sorted.
Qed.

(** ** Technical skills *)

Lemma fold_left_map_arg {A B C : Type} (f : A -> C -> A) (g : B -> C) (l : list B) (a : A) :
  fold_left (fun acc x => f acc (g x)) l a = fold_left f (map g l) a.
Proof. revert a; induction l as [|x l IH]; intros a; [reflexivity | apply IH]. Qed.

Lemma skills_set (text : str) (patterns : list (str * re)) :
  forall acc,
    let found :=
      fold_left
        (fun skills (entry : str * re) =>
           fold_left (fun skills m => set_add (group0 m) skills)
                     (finditer IGNORECASE (snd entry) text) skills)
        patterns acc in
    (NoDup acc -> NoDup found)
    /\ forall s, In s found
                 <-> In s acc
                     \/ exists entry m, In entry patterns
                                        /\ In m (finditer IGNORECASE (snd entry) text)
                                        /\ group0 m = s.
Proof.
  induction patterns as [|e patterns IH]; intros acc; cbv zeta; cbn [fold_left].
  - split; [auto|]. intros s. split; [auto|]. intros [H|(e & m & [] & _)]. exact H.
  - change (fun skills m => set_add (group0 m) skills)
      with (fun skills (m : match_obj) => KeywordMatcher.add_keyword skills (group0 m)).
    rewrite fold_left_map_arg.
    destruct (IH (fold_left KeywordMatcher.add_keyword
                    (map group0 (finditer IGNORECASE (snd e) text)) acc))
      as [IH1 IH2]. cbv zeta in IH1, IH2. split.
    + intros Hnd. apply IH1. now apply KeywordMatcherFacts.add_keywords_NoDup.
    + intros s. rewrite IH2, KeywordMatcherFacts.add_keywords_In, in_map_iff. split.
      * intros [[H|(m & Hm & Hin)]|(e' & m & He & Hm & Hg)]; [now left | |].
        -- right. exists e, m. split; [now left | now split].
        -- right. exists e', m. split; [now right | now split].
      * intros [H|(e' & m & [<-|He] & Hm & Hg)].
        -- left. now left.
        -- left. right. now exists m.
        -- right. now exists e', m.
Qed.

Lemma SKILL_PATTERNS_table :
  SKILL_PATTERNS = map (fun e : str * list String.string => (fst e, word_list (snd e)))
                       skill_table.
Proof. reflexivity. Qed.

Lemma lang_word_list (l : list String.string) (u : str) :
  l <> [] -> lang true (word_list l) u ->
  exists w, In w l /\ lower u = lower (py w).
Proof.
  intros Hl H. unfold word_list in H. cbn [lang] in H.
  destruct H as (u1 & u2 & -> & -> & u3 & u4 & -> & H & ->).
  apply lang_alts in H; [|destruct l; [congruence | discriminate]].
  destruct H as (a & Ha & La). apply in_map_iff in Ha. destruct Ha as (w & <- & Hw).
  apply lang_lit in La. destruct La as [Hlen Hs].
  exists w. split; [exact Hw|]. cbn [app]. rewrite app_nil_r.
  now apply lit_starts_lower.
Qed.

(** The technical skills are listed in ascending order of code points with
    no entry twice; each is a piece of the posting as the posting spells it,
    and each that is written in ASCII reads, case ignored, as one of the
    names of the skill patterns. *)
Theorem technical_skills_sorted_names (self : parser) :
  StronglySorted (fun a b => str_leb a b = true) (extract_technical_skills self)
  /\ NoDup (extract_technical_skills self)
  /\ Forall (fun s => piece_of s (jd_text self)
                      /\ (isascii s = true ->
                          exists name, In name skill_names /\ lower s = lower name))
            (extract_technical_skills self).
Proof.
  unfold extract_technical_skills.
  destruct (skills_set (jd_text self) SKILL_PATTERNS []) as [Hnd Hin].
  cbv zeta in Hnd, Hin.
  set (found := fold_left _ SKILL_PATTERNS []) in *.
  split; [apply sorted_sorted|]. split.
  - apply (Permutation_NoDup (Permutation_sym (sorted_permutation found))).
    apply Hnd. constructor.
  - apply Forall_forall. intros s Hs.
    apply (Permutation_in _ (sorted_permutation found)) in Hs.
    apply Hin in Hs. destruct Hs as [[]|(e & m & He & Hm & <-)].
    apply finditer_sound in Hm. destruct Hm as (Hp & Hl & _).
    split; [exact Hp|]. intros _.
    rewrite SKILL_PATTERNS_table in He. apply in_map_iff in He.
    destruct He as (row & <- & Hrow). cbn [snd ignorecase IGNORECASE] in Hl.
    apply lang_word_list in Hl.
    + destruct Hl as (w & Hw & El). exists (py w). split; [|exact El].
      unfold skill_names. apply in_map. apply in_flat_map. now exists row.
    + unfold skill_table in Hrow. cbn [In] in Hrow.
      repeat (destruct Hrow as [<-|Hrow]; [discriminate|]). contradiction.
Qed.

(** ** Keyword density *)

Lemma count_of_app (w : str) (l1 l2 : list str) :
  count_of w (l1 ++ l2) = count_of w l1 + count_of w l2.
Proof. unfold count_of. now rewrite filter_app, length_app. Qed.

Lemma count_of_absent (w : str) (l : list str) : ~ In w l -> count_of w l = 0.
Proof.
  unfold count_of. induction l as [|x l IH]; intros H; [reflexivity|].
  cbn [filter]. destruct (str_eqb w x) eqn:E.
  - apply str_eqb_eq in E. subst. exfalso. apply H. now left.
  - apply IH. intros Hin. apply H. now right.
Qed.

Lemma count_of_present (w : str) (l : list str) : In w l -> 1 <= count_of w l.
Proof.
  unfold count_of. induction l as [|x l IH]; intros H; [contradiction|].
  cbn [filter]. destruct (str_eqb w x) eqn:E; [cbn [List.length]; lia|].
  destruct H as [->|H]; [now rewrite str_eqb_refl in E | now apply IH].
Qed.

Lemma count_of_single (x w : str) : count_of x [w] = if str_eqb x w then 1 else 0.
Proof. unfold count_of. cbn [filter]. now destruct (str_eqb x w). Qed.

Lemma dedup_snoc (l : list str) (w : str) :
  dedup (l ++ [w]) = dedup l ++ (if mem w l then [] else [w]).
Proof.
  unfold dedup. induction l as [|a l IH]; [reflexivity|].
  cbn [app dedup_by]. rewrite IH, filter_app. cbn [app]. f_equal. f_equal.
  unfold mem. cbn [existsb]. rewrite (KeywordReportFacts.str_eqb_sym w a).
  destruct (str_eqb a w) eqn:E; cbn [orb].
  - destruct (existsb (str_eqb w) l); cbn [filter]; [reflexivity|].
    now rewrite E.
  - destruct (existsb (str_eqb w) l); cbn [filter]; [reflexivity|].
    now rewrite E.
Qed.

Lemma counter_add_map (w : str) (g : str -> nat) (l : list str) :
  NoDup l ->
  counter_add w (map (fun x => (x, g x)) l)
  = map (fun x => (x, if str_eqb x w then S (g x) else g x)) l
    ++ (if mem w l then [] else [(w, 1)]).
Proof.
  induction l as [|k l IH]; intros Hnd; [reflexivity|].
  inversion Hnd as [|? ? Hk Hl]; subst.
  cbn [map counter_add]. unfold mem. cbn [existsb]. rewrite (KeywordReportFacts.str_eqb_sym w k).
  destruct (str_eqb k w) eqn:E; cbn [orb app].
  - apply str_eqb_eq in E. subst k. rewrite app_nil_r. f_equal.
    apply map_ext_in. intros x Hx.
    destruct (str_eqb x w) eqn:Ex; [|reflexivity].
    apply str_eqb_eq in Ex. subst. contradiction.
  - f_equal. now apply IH.
Qed.

(** [Counter(words)] has one entry for each word, in the order of first
    occurrence, with the number of its occurrences. *)
Lemma Counter_counts (words : list str) :
  Counter words = map (fun w => (w, count_of w words)) (dedup words).
Proof.
  unfold Counter.
  assert (H : forall more seen,
             fold_left (fun c w => counter_add w c) more
               (map (fun w => (w, count_of w seen)) (dedup seen))
             = map (fun w => (w, count_of w (seen ++ more))) (dedup (seen ++ more))).
  { induction more as [|w more IH]; intros seen; cbn [fold_left].
    - now rewrite app_nil_r.
    - rewrite counter_add_map by apply dedup_NoDup.
      replace (seen ++ w :: more) with ((seen ++ [w]) ++ more)
        by (rewrite <- app_assoc; reflexivity).
      rewrite <- IH. f_equal. rewrite dedup_snoc, map_app. f_equal.
      + apply map_ext. intros x. rewrite count_of_app, count_of_single.
        destruct (str_eqb x w); f_equal; lia.
      + assert (Em : mem w (dedup seen) = mem w seen).
        { destruct (mem w seen) eqn:E.
          - apply mem_In. apply dedup_In. now apply mem_In.
          - apply mem_false_not_In. rewrite dedup_In. now apply mem_false_not_In. }
        rewrite Em. destruct (mem w seen) eqn:E; [reflexivity|].
        cbn [map]. rewrite count_of_app, count_of_single, str_eqb_refl.
        rewrite count_of_absent by now apply mem_false_not_In.
        reflexivity. }
  apply (H words []).
Qed.

Lemma insert_count_permutation (x : str * nat) (l : list (str * nat)) :
  Permutation (insert_count x l) (x :: l).
Proof.
  induction l as [|y l IH]; cbn [insert_count]; [reflexivity|].
  destruct (snd x <? snd y); [|reflexivity]. rewrite IH. apply perm_swap.
Qed.

Lemma by_count_permutation (l : list (str * nat)) :
  Permutation (fold_right insert_count [] l) l.
Proof.
  induction l as [|x l IH]; [reflexivity|].
  cbn [fold_right]. rewrite insert_count_permutation. now constructor.
Qed.

Lemma insert_count_sorted (x : str * nat) (l : list (str * nat)) :
  StronglySorted (fun a b => snd b <= snd a) l ->
  StronglySorted (fun a b => snd b <= snd a) (insert_count x l).
Proof.
  induction l as [|y l IH]; intros H; cbn [insert_count].
  - repeat constructor.
  - inversion H as [|? ? Hs Hf]; subst. destruct (snd x <? snd y) eqn:E.
    + apply Nat.ltb_lt in E. constructor; [now apply IH|].
      apply Forall_forall. intros z Hz.
      apply (Permutation_in _ (insert_count_permutation x l)) in Hz.
      destruct Hz as [<-|Hz]; [lia|].
      rewrite Forall_forall in Hf. now apply Hf.
    + apply Nat.ltb_ge in E. constructor; [exact H|]. constructor; [exact E|].
      apply Forall_forall. intros z Hz. rewrite Forall_forall in Hf.
      specialize (Hf z Hz). cbv beta in Hf. lia.
Qed.

Lemma by_count_sorted (l : list (str * nat)) :
  StronglySorted (fun a b => snd b <= snd a) (fold_right insert_count [] l).
Proof.
  induction l as [|x l IH]; [constructor|].
  cbn [fold_right]. now apply insert_count_sorted.
Qed.

Lemma StronglySorted_firstn {A : Type} (R : A -> A -> Prop) (n : nat) (l : list A) :
  StronglySorted R l -> StronglySorted R (firstn n l).
Proof.
  revert l; induction n as [|n IH]; intros l H; [constructor|].
  destruct l as [|x l]; [constructor|]. cbn [firstn].
  inversion H as [|? ? Hs Hf]; subst. constructor; [now apply IH|].
  apply Forall_forall. intros y Hy. rewrite Forall_forall in Hf. apply Hf.
  rewrite <- (firstn_skipn n l). apply in_or_app. now left.
Qed.

Lemma firstn_In {A : Type} (n : nat) (l : list A) (x : A) : In x (firstn n l) -> In x l.
Proof.
  intros H. rewrite <- (firstn_skipn n l). apply in_or_app. now left.
Qed.

Lemma NoDup_firstn {A : Type} (n : nat) (l : list A) : NoDup l -> NoDup (firstn n l).
Proof.
  intros H. rewrite <- (firstn_skipn n l) in H. now apply NoDup_app_remove_r in H.
Qed.

Lemma density_entries (self : parser) (e : str * nat) :
  In e (calculate_keyword_density self) ->
  In (fst e) (density_words self)
  /\ snd e = count_of (fst e) (density_words self).
Proof.
  unfold calculate_keyword_density, most_common. intros H.
  apply firstn_In in H. apply (Permutation_in _ (by_count_permutation _)) in H.
  rewrite Counter_counts in H. apply in_map_iff in H. destruct H as (w & <- & Hw).
  apply (proj1 (dedup_In _ _)) in Hw. cbn [fst snd]. now split.
Qed.

(** The keyword density has at most 20 entries, no word twice, the counts
    never increasing down the list; the count of a word is the number of
    times it occurs among the words counted, at least once; and every word
    has at least four characters. *)
Theorem keyword_density_counts (self : parser) :
  List.length (calculate_keyword_density self) <= 20
  /\ NoDup (map fst (calculate_keyword_density self))
  /\ StronglySorted (fun a b => snd b <= snd a) (calculate_keyword_density self)
  /\ Forall (fun e => snd e = count_of (fst e) (density_words self)
                      /\ 1 <= snd e /\ 4 <= List.length (fst e))
            (calculate_keyword_density self).
Proof.
  split; [|split; [|split]].
  - unfold calculate_keyword_density, most_common. rewrite length_firstn. lia.
  - unfold calculate_keyword_density, most_common. rewrite <- firstn_map.
    apply NoDup_firstn.
    apply (Permutation_NoDup
             (Permutation_map fst (Permutation_sym (by_count_permutation _)))).
    rewrite Counter_counts, map_map. cbn [fst]. rewrite map_id. apply dedup_NoDup.
  - unfold calculate_keyword_density, most_common.
    apply StronglySorted_firstn, by_count_sorted.
  - apply Forall_forall. intros e He. apply density_entries in He.
    destruct He as [Hin Hc]. split; [exact Hc|]. split.
    + rewrite Hc. now apply count_of_present.
    + revert Hin. generalize (fst e). intros w. unfold density_words.
      destruct (spacy_doc self) as [[|t ts]|].
      * intros Hw. apply filter_In in Hw. destruct Hw as [Hw _].
        unfold findall0 in Hw. apply in_map_iff in Hw. destruct Hw as (m & <- & Hm).
        apply finditer_sound in Hm. destruct Hm as (_ & Hl & _).
        unfold long_word in Hl.
        repeat (apply lang_seqs_cons in Hl;
                let u1 := fresh "u" in let u2 := fresh "v" in
                destruct Hl as (u1 & u2 & -> & ? & Hl)).
        repeat match goal with
               | H : lang _ (Cls _) _ |- _ => destruct H as (? & -> & _)
               end.
        rewrite !length_app. cbn [List.length]. lia.
      * intros Hw. apply in_map_iff in Hw. destruct Hw as (tk & <- & Htk).
        apply filter_In in Htk. destruct Htk as [_ Htk].
        apply andb_true_iff in Htk. destruct Htk as [_ Htk].
        apply Nat.ltb_lt in Htk. unfold lower. rewrite length_map. lia.
      * intros Hw. apply filter_In in Hw. destruct Hw as [Hw _].
        unfold findall0 in Hw. apply in_map_iff in Hw. destruct Hw as (m & <- & Hm).
        apply finditer_sound in Hm. destruct Hm as (_ & Hl & _).
        unfold long_word in Hl.
        repeat (apply lang_seqs_cons in Hl;
                let u1 := fresh "u" in let u2 := fresh "v" in
                destruct Hl as (u1 & u2 & -> & ? & Hl)).
        repeat match goal with
               | H : lang _ (Cls _) _ |- _ => destruct H as (? & -> & _)
               end.
        rewrite !length_app. cbn [List.length]. lia.
Qed.

Lemma lang_long_word (u : str) :
  lang false long_word u -> Forall (fun c => islower c = true) u.
Proof.
  unfold long_word. intros Hl.
  repeat (apply lang_seqs_cons in Hl;
          let u1 := fresh "u" in let u2 := fresh "v" in
          destruct Hl as (u1 & u2 & -> & ? & Hl)).
  cbn [seqs lang] in Hl. subst.
  repeat match goal with
         | H : lang _ (Cls _) _ |- _ => destruct H as (? & -> & ?)
         | H : lang _ WordB _ |- _ => cbn [lang] in H; subst
         | H : lang _ (star _) _ |- _ => apply lang_star in H
         end.
  rewrite app_nil_r. cbn [app]. repeat (constructor; [assumption|]). assumption.
Qed.

(** Without the tokens of spaCy, every word of the keyword density is made
    of lower-case letters a to z only, is a piece of the lower-cased posting,
    and is none of the nine stop words. *)
Theorem keyword_density_fallback (text : str) :
  Forall (fun e : str * nat =>
            Forall (fun c => islower c = true) (fst e)
            /\ piece_of (fst e) (lower text)
            /\ mem (fst e) stop_words = false)
         (calculate_keyword_density (JobDescriptionParser.init text None)).
Proof.
  apply Forall_forall. intros e He. apply density_entries in He.
  destruct He as [Hin _]. revert Hin. generalize (fst e). intros w.
  unfold density_words. cbn [spacy_doc jd_text_lower JobDescriptionParser.init].
  intros Hw. apply filter_In in Hw. destruct Hw as [Hw Hs].
  apply negb_true_iff in Hs.
  unfold findall0 in Hw. apply in_map_iff in Hw. destruct Hw as (m & <- & Hm).
  apply finditer_sound in Hm. destruct Hm as (Hp & Hl & _).
  split; [now apply lang_long_word|]. now split.
Qed.

(** ** Company values *)

Lemma value_word_capture (section0 : str) :
  Forall (fun v => exists c rest,
                     v = c :: rest /\ isupper c = true /\ rest <> []
                     /\ Forall (fun x => islower x = true) rest)
         (findall1 NOFLAGS value_word section0).
Proof.
  apply Forall_forall. intros v Hv. unfold findall1 in Hv.
  apply in_map_iff in Hv. destruct Hv as (m & <- & Hm).
  pose proof (finditer_group1 NOFLAGS value_word section0 m eq_refl Hm) as Hg.
  apply finditer_sound in Hm. destruct Hm as (_ & _ & [Hc|(g & v & Hin & Hc & Hl)]);
    [congruence|].
  rewrite Hc. cbn [groups value_word app In] in Hin.
  destruct Hin as [<-|[]]. cbn [lang] in Hl.
  destruct Hl as (u1 & u2 & -> & (c & -> & Hu) & Hl).
  apply lang_plus in Hl. destruct Hl as [Hne Hall].
  exists c, u2. repeat split; assumption.
Qed.

Lemma company_values_loop_inv (self : parser) (P : str -> Prop) :
  (forall section0, Forall P (findall1 NOFLAGS value_word section0)) ->
  forall markers values,
    Forall P values ->
    exists out, company_values_loop self markers values = Ok out
                /\ Forall P out
                /\ List.length out <= List.length values + 5 * List.length markers.
Proof.
  intros HP. induction markers as [|marker markers IH]; intros values Hv;
    cbn [company_values_loop].
  - exists values. split; [reflexivity|]. split; [exact Hv | lia].
  - destruct (contains marker (jd_text_lower self)) eqn:E.
    + destruct (index_found _ _ E) as (i & Ei). rewrite Ei. cbn [rbind].
      set (found := findall1 NOFLAGS value_word (slice (jd_text self) i (i + 500))).
      destruct (IH (values ++ firstn 5 found)) as (out & Eo & Po & Lo).
      { apply Forall_app. split; [exact Hv|].
        apply Forall_forall. intros v Hin. apply firstn_In in Hin.
        specialize (HP (slice (jd_text self) i (i + 500))).
        rewrite Forall_forall in HP. now apply HP. }
      exists out. split; [exact Eo|]. split; [exact Po|].
      rewrite length_app, length_firstn in Lo. cbn [List.length]. lia.
    + destruct (IH values Hv) as (out & Eo & Po & Lo).
      exists out. split; [exact Eo|]. split; [exact Po|]. cbn [List.length]. lia.
Qed.

(** [extract_company_values] returns, without raising, at most 30 values,
    none twice, each a capital letter A to Z followed by one or more
    lower-case letters a to z. *)
Theorem company_values_capitalized (self : parser) :
  exists values,
    extract_company_values self = Ok values
    /\ NoDup values
    /\ List.length values <= 30
    /\ Forall (fun v => exists c rest,
                          v = c :: rest /\ isupper c = true /\ rest <> []
                          /\ Forall (fun x => islower x = true) rest)
              values.
Proof.
  unfold extract_company_values.
  destruct (company_values_loop_inv self _ value_word_capture value_markers []
              (Forall_nil _)) as (out & Eo & Po & Lo).
  rewrite Eo. cbn [rbind]. exists (dedup out). split; [reflexivity|].
  split; [apply dedup_NoDup|]. split.
  - pose proof (dedup_length out). cbn [List.length value_markers] in Lo. lia.
  - apply Forall_forall. intros v Hv. apply (proj1 (dedup_In _ _)) in Hv.
    rewrite Forall_forall in Po. now apply Po.
Qed.

(** ** Experience requirements *)

Lemma lang_experience (u : str) :
  lang true EXPERIENCE_PATTERN u -> exists d rest, u = d :: rest /\ isdigit d = true.
Proof.
  unfold EXPERIENCE_PATTERN. intros Hl. apply lang_seqs_cons in Hl.
  destruct Hl as (u1 & u2 & -> & H1 & _). cbn [lang] in H1.
  change (lang true (plus (Cls CDigit)) u1) in H1. apply lang_plus in H1.
  destruct H1 as [Hne Hall]. destruct u1 as [|d u1]; [congruence|].
  inversion Hall; subst. now exists d, (u1 ++ u2).
Qed.

Lemma lang_starts_with (w : str) (l : list re) (u : str) :
  lang true (seqs (lit w :: l)) u -> startswith (lower w) (lower u) = true.
Proof.
  intros Hl. apply lang_seqs_cons in Hl. destruct Hl as (u1 & u2 & -> & H1 & _).
  apply lang_lit in H1. destruct H1 as [Hlen Hs].
  unfold lower at 2. rewrite map_app. fold (lower u1). fold (lower u2).
  rewrite (lit_starts_lower w u1 Hlen Hs). apply startswith_prefix.
Qed.

(** The experience requirements hold no entry twice; each is a piece of
    the posting as the posting spells it, and each that is written in ASCII
    starts with a digit or, case ignored, with [experience] or with
    [background]. *)
Theorem experience_requirements_verbatim (self : parser) :
  NoDup (extract_experience_requirements self)
  /\ Forall (fun q => piece_of q (jd_text self)
                      /\ (isascii q = true ->
                          (exists d rest, q = d :: rest /\ isdigit d = true)
                          \/ startswith (py "experience") (lower q) = true
                          \/ startswith (py "background") (lower q) = true))
            (extract_experience_requirements self).
Proof.
  unfold extract_experience_requirements. split; [apply dedup_NoDup|].
  apply Forall_forall. intros q Hq. apply (proj1 (dedup_In _ _)) in Hq.
  unfold domain_patterns in Hq. cbn [fold_left] in Hq.
  rewrite !in_app_iff, !in_map_iff in Hq.
  destruct Hq as [[(m & <- & Hm)|(m & <- & Hm)]|(m & <- & Hm)];
    apply finditer_sound in Hm; destruct Hm as (Hp & Hl & _);
    (split; [exact Hp|]); intros _; cbn [ignorecase IGNORECASE] in Hl.
  - left. now apply lang_experience.
  - right. left. apply (lang_starts_with (py "experience")) in Hl. exact Hl.
  - right. right. apply (lang_starts_with (py "background")) in Hl. exact Hl.
Qed.

(** ** Verbatim phrases *)

Lemma phrase_step_inv (lo hi : nat) (phrases : list str) (sent0 : str) :
  Forall (fun p => p <> [] /\ strip p = p
                   /\ lo <= word_count p <= hi
                   /\ existsb (fun indicator => contains indicator (lower p))
                              skill_indicators = true) phrases ->
  Forall (fun p => p <> [] /\ strip p = p
                   /\ lo <= word_count p <= hi
                   /\ existsb (fun indicator => contains indicator (lower p))
                              skill_indicators = true)
         (phrase_step lo hi phrases sent0).
Proof.
  intros H. unfold phrase_step.
  destruct (strip sent0) as [|c s] eqn:Es; [exact H|].
  destruct ((lo <=? _)%nat && (_ <=? hi)%nat)%bool eqn:Ew; [|exact H].
  destruct (existsb _ skill_indicators) eqn:Ei; [|exact H].
  apply Forall_app. split; [exact H|]. constructor; [|constructor].
  apply andb_true_iff in Ew. destruct Ew as [E1 E2].
  apply Nat.leb_le in E1, E2.
  split; [discriminate|]. split; [rewrite <- Es; apply strip_idem|].
  split; [unfold word_count; lia | exact Ei].
Qed.

(** The verbatim phrases are at most ten.  Each is a sentence with its
    outer white space removed and is not empty, has between [min_length] and
    [max_length] words, and contains, lower-cased, one of the skill
    indicators. *)
Theorem verbatim_phrases_bounds (self : parser) (min_length max_length : nat) :
  List.length (extract_verbatim_phrases self min_length max_length) <= 10
  /\ Forall (fun p => p <> [] /\ strip p = p
                      /\ min_length <= word_count p <= max_length
                      /\ existsb (fun indicator => contains indicator (lower p))
                                 skill_indicators = true)
            (extract_verbatim_phrases self min_length max_length).
Proof.
  unfold extract_verbatim_phrases. split; [rewrite length_firstn; lia|].
  apply Forall_forall. intros p Hp. apply firstn_In in Hp. revert p Hp.
  apply Forall_forall.
  generalize (Regex.split NOFLAGS sentence_break (jd_text self)). intros sentences.
  assert (H : forall acc,
             Forall (fun p => p <> [] /\ strip p = p
                              /\ min_length <= word_count p <= max_length
                              /\ existsb (fun indicator => contains indicator (lower p))
                                         skill_indicators = true) acc ->
             Forall (fun p => p <> [] /\ strip p = p
                              /\ min_length <= word_count p <= max_length
                              /\ existsb (fun indicator => contains indicator (lower p))
                                         skill_indicators = true)
                    (fold_left (phrase_step min_length max_length) sentences acc)).
  { induction sentences as [|s sentences IH]; intros acc Hacc; cbn [fold_left];
      [exact Hacc|].
    apply IH. now apply phrase_step_inv. }
  apply H. constructor.
Qed.

(** ** The analysis and the checklist *)

Lemma extract_all_fields (self : parser) :
  exists rp title values st,
    extract_required_vs_preferred self = Ok rp
    /\ extract_job_title self = Ok title
    /\ extract_company_values self = Ok values
    /\ analyze_structure self = Ok st
    /\ extract_all self
       = Ok {| job_title := title;
               technical_skills := extract_technical_skills self;
               required_skills := required rp;
               preferred_skills := preferred rp;
               tools_technologies := extract_technical_skills self;
               verbatim_phrases := extract_verbatim_phrases self 10 30;
               company_values := values;
               structure_of := st;
               keyword_density := calculate_keyword_density self;
               experience_requirements := extract_experience_requirements self |}.
Proof.
  destruct (extract_required_vs_preferred_ok self) as (rp & Erp & _).
  destruct (extract_job_title_ok self) as (title & Et).
  destruct (extract_company_values_ok self) as (values & Ev & _).
  destruct (analyze_structure_ok self) as (st & Es & _).
  exists rp, title, values, st. repeat (split; [assumption|]).
  unfold extract_all. rewrite Erp. cbn [rbind]. rewrite Et. cbn [rbind].
  rewrite Ev. cbn [rbind]. rewrite Es. cbn [rbind]. reflexivity.
Qed.

(** [export_keyword_checklist] returns, without raising, six lists under
    six fixed keys.  The lists under Technical Skills and under Tools &
    Technologies are the same list; the key phrases are the first five
    verbatim phrases of the analysis, so at most five; the other lists are
    those of the analysis. *)
Theorem export_keyword_checklist_lists (self : parser) :
  exists a checklist,
    extract_all self = Ok a
    /\ export_keyword_checklist self = Ok checklist
    /\ map fst checklist
       = [py "Required Skills"; py "Preferred Skills"; py "Technical Skills";
          py "Tools & Technologies"; py "Company Values"; py "Key Phrases"]
    /\ lookup checklist (py "Technical Skills") = Some (extract_technical_skills self)
    /\ lookup checklist (py "Tools & Technologies") = Some (extract_technical_skills self)
    /\ lookup checklist (py "Required Skills") = Some (required_skills a)
    /\ lookup checklist (py "Preferred Skills") = Some (preferred_skills a)
    /\ lookup checklist (py "Company Values") = Some (company_values a)
    /\ lookup checklist (py "Key Phrases") = Some (firstn 5 (verbatim_phrases a))
    /\ List.length (firstn 5 (verbatim_phrases a)) <= 5.
Proof.
  destruct (extract_all_fields self) as (rp & title & values & st & _ & _ & _ & _ & Ea).
  unfold export_keyword_checklist. rewrite Ea. cbn [rbind].
  eexists. eexists. split; [reflexivity|]. split; [reflexivity|].
  cbn [technical_skills tools_technologies required_skills preferred_skills
       company_values verbatim_phrases].
  repeat split. rewrite length_firstn. lia.
Qed.

(** ** The title *)

Lemma split_ws_aux_words (s cur : str) :
  Forall (fun c => isspace c = false) cur ->
  Forall (fun w => w <> [] /\ Forall (fun c => isspace c = false) w)
         (split_ws_aux s cur).
Proof.
  revert cur; induction s as [|c s IH]; intros cur Hc; cbn [split_ws_aux].
  - destruct cur as [|x cur]; [constructor|]. constructor; [|constructor].
    split; [|now apply Forall_rev].
    intros E. apply (f_equal (@List.length char)) in E.
    rewrite length_rev in E. discriminate.
  - destruct (isspace c) eqn:E.
    + destruct cur as [|x cur]; [apply IH; constructor|].
      constructor; [|apply IH; constructor].
      split; [|now apply Forall_rev].
      intros E'. apply (f_equal (@List.length char)) in E'.
      rewrite length_rev in E'. discriminate.
    + apply IH. now constructor.
Qed.

Lemma split_ws_aux_word (w s cur : str) :
  Forall (fun c => isspace c = false) w ->
  split_ws_aux (w ++ s) cur = split_ws_aux s (rev w ++ cur).
Proof.
  revert cur; induction w as [|c w IH]; intros cur H; [reflexivity|].
  inversion H as [|? ? Hc Hw]; subst. cbn [app split_ws_aux]. rewrite Hc.
  rewrite IH by exact Hw. cbn [rev]. now rewrite <- app_assoc.
Qed.

(** Splitting at white space what was joined with single blanks gives the
    words back. *)
Lemma split_join_words (l : list str) :
  Forall (fun w => w <> [] /\ Forall (fun c => isspace c = false) w) l ->
  PyStr.split (join (py " ") l) = l.
Proof.
  unfold PyStr.split. induction l as [|w l IH]; intros H; [reflexivity|].
  inversion H as [|? ? [Hne Hw] Hl]; subst.
  assert (Hr : rev w <> []).
  { intros E. apply (f_equal (@List.length char)) in E.
    rewrite length_rev in E. destruct w; [congruence | discriminate]. }
  destruct l as [|w2 l].
  - cbn [join]. rewrite <- (app_nil_r w) at 1.
    rewrite split_ws_aux_word by exact Hw. rewrite app_nil_r. cbn [split_ws_aux].
    destruct (rev w) as [|x r] eqn:E; [congruence|].
    rewrite <- E, rev_involutive. reflexivity.
  - change (join (py " ") (w :: w2 :: l)) with (w ++ py " " ++ join (py " ") (w2 :: l)).
    rewrite split_ws_aux_word by exact Hw. rewrite app_nil_r.
    change (py " " ++ join (py " ") (w2 :: l)) with (32%N :: join (py " ") (w2 :: l)).
    cbn [split_ws_aux].
    change (isspace 32) with true. cbv iota.
    destruct (rev w) as [|x r] eqn:E; [congruence|].
    rewrite <- E, rev_involutive. f_equal. now apply IH.
Qed.

Lemma word_count_join_split (s : str) :
  word_count (join (py " ") (PyStr.split s)) = List.length (PyStr.split s).
Proof.
  unfold word_count. rewrite split_join_words; [reflexivity|].
  apply split_ws_aux_words. constructor.
Qed.

Lemma filter_head {A : Type} (p : A -> bool) (l : list A) (x : A) (rest0 : list A) :
  filter p l = x :: rest0 -> p x = true /\ In x l.
Proof.
  intros H. assert (Hin : In x (filter p l)) by (rewrite H; now left).
  apply filter_In in Hin. tauto.
Qed.

(** [extract_job_title] returns, without raising, a title of at most six
    words, whichever of its three ways produced it: a template, with its
    limit of six; a sentence of two to five words, joined with single
    blanks; or the two words of the sentinel. *)
Theorem job_title_at_most_six_words (self : parser) :
  exists title, extract_job_title self = Ok title /\ word_count title <= 6.
Proof.
  unfold extract_job_title.
  rewrite title_from_patterns_eq by apply title_patterns_capture. cbn [rbind].
  destruct (filter _ (flat_map _ title_patterns)) as [|t ts] eqn:Ef.
  - rewrite title_from_sentences_eq. cbn [rbind].
    destruct (filter _ (split_on 46 _)) as [|sent ss] eqn:Es.
    + eexists. split; [reflexivity|]. vm_compute. lia.
    + eexists. split; [reflexivity|]. rewrite word_count_join_split.
      apply filter_head in Es. destruct Es as [Hw _]. unfold title_words in Hw.
      apply andb_true_iff in Hw. destruct Hw as [Hw _].
      apply andb_true_iff in Hw. destruct Hw as [_ Hw].
      apply Nat.leb_le in Hw. lia.
  - exists t. split; [reflexivity|]. apply filter_head in Ef. destruct Ef as [Hw _].
    now apply Nat.leb_le in Hw.
Qed.

(** ** Bullets *)

Lemma lang_repeat (ic : bool) (g : bool) (c : cls) (u : str) :
  lang ic (Seq (Cls c) (Star g (Cls c))) u ->
  u <> [] /\ Forall (fun x => cls_mem ic c x = true) u.
Proof.
  cbn [lang]. intros (u1 & u2 & -> & (x & -> & Hx) & (us & -> & Hus)).
  split; [discriminate|]. constructor; [exact Hx|].
  induction Hus as [|v vs (y & -> & Hy) _ IH]; cbn [concat]; [constructor|].
  now constructor.
Qed.

Lemma bullet_capture (text : str) (pattern : re) (m : match_obj) (b : str) :
  In pattern bullet_patterns ->
  In m (finditer MULTILINE pattern text) ->
  group1_strip m = Ok b ->
  strip b = b /\ Forall (fun c => c <> 10%N) b.
Proof.
  intros Hp Hm Hb. unfold group1_strip in Hb.
  destruct (group1 m) as [g|] eqn:Eg; [|discriminate]. injection Hb as <-.
  split; [apply strip_idem|]. apply strip_Forall.
  apply finditer_sound in Hm. destruct Hm as (_ & _ & [Hc|(r & v & Hin & Hc & Hl)]);
    [congruence|].
  rewrite Eg in Hc. injection Hc as ->.
  assert (Hr : r = plus_lazy (Cls CAny)).
  { unfold bullet_patterns in Hp. cbn [In] in Hp.
    destruct Hp as [<-|[<-|[]]]; cbn in Hin; destruct Hin as [<-|[]]; reflexivity. }
  subst r. apply lang_repeat in Hl. destruct Hl as [_ Hl].
  cbn [ignorecase MULTILINE cls_mem] in Hl.
  eapply Forall_impl; [|exact Hl]. cbv beta. intros c Hc E. subst c. discriminate.
Qed.

Lemma map_result_Forall {A B : Type} (f : A -> result B) (P : B -> Prop) (l : list A)
    (out : list B) :
  (forall x y, In x l -> f x = Ok y -> P y) ->
  map_result f l = Ok out -> Forall P out.
Proof.
  revert out; induction l as [|x l IH]; intros out Hf H; cbn [map_result] in H.
  - injection H as <-. constructor.
  - destruct (f x) as [y|e] eqn:Ey; [|discriminate]. cbn [rbind] in H.
    destruct (map_result f l) as [ys|e] eqn:Eys; [|discriminate]. cbn [rbind] in H.
    injection H as <-. constructor.
    + eapply Hf; [now left | exact Ey].
    + apply IH; [|reflexivity]. intros x0 y0 Hin. apply Hf. now right.
Qed.

Lemma _extract_bullets_loop_shape (text : str) (patterns : list re) :
  incl patterns bullet_patterns ->
  forall bullets out,
    Forall (fun b => strip b = b /\ Forall (fun c => c <> 10%N) b) bullets ->
    _extract_bullets_loop text patterns bullets = Ok out ->
    Forall (fun b => strip b = b /\ Forall (fun c => c <> 10%N) b) out.
Proof.
  induction patterns as [|p patterns IH]; intros Hi bullets out Hb H;
    cbn [_extract_bullets_loop] in H.
  - now injection H as <-.
  - destruct (map_result group1_strip (finditer MULTILINE p text)) as [found|e] eqn:Ef;
      [|discriminate].
    cbn [rbind] in H. apply IH in H; [exact H | | ].
    + intros q Hq. apply Hi. now right.
    + apply Forall_app. split; [exact Hb|].
      eapply map_result_Forall; [|exact Ef].
      intros m b Hm Hg. eapply bullet_capture; eauto. apply Hi. now left.
Qed.

(** [extract_required_vs_preferred] returns, without raising, two lists of
    bullets; no bullet has white space at its ends and none holds a line
    break. *)
Theorem required_preferred_bullets (self : parser) :
  exists rp,
    extract_required_vs_preferred self = Ok rp
    /\ Forall (fun b => strip b = b /\ Forall (fun c => c <> 10%N) b) (required rp)
    /\ Forall (fun b => strip b = b /\ Forall (fun c => c <> 10%N) b) (preferred rp).
Proof.
  unfold extract_required_vs_preferred.
  destruct (marker_windows_ok self REQUIRED_MARKERS []) as (rs & Er).
  destruct (marker_windows_ok self PREFERRED_MARKERS []) as (ps & Ep).
  destruct (_extract_bullets_ok rs) as (req & Eq).
  destruct (_extract_bullets_ok ps) as (pref & Eq').
  rewrite Er. cbn [rbind]. rewrite Ep. cbn [rbind].
  rewrite Eq. cbn [rbind]. rewrite Eq'. cbn [rbind].
  eexists. split; [reflexivity|]. cbn [required preferred]. split.
  - eapply (_extract_bullets_loop_shape rs bullet_patterns (incl_refl _) []);
      [constructor | exact Eq].
  - eapply (_extract_bullets_loop_shape ps bullet_patterns (incl_refl _) []);
      [constructor | exact Eq'].
Qed.

(** ** Structure *)

Lemma fold_result_inv {A B : Type} (f : A -> B -> result A) (P : A -> Prop) (l : list B) :
  (forall a x a', In x l -> P a -> f a x = Ok a' -> P a') ->
  forall a a', P a -> fold_result f l a = Ok a' -> P a'.
Proof.
  induction l as [|x l IH]; intros Hf a a' Ha H; cbn [fold_result] in H.
  - now injection H as <-.
  - destruct (f a x) as [a1|e] eqn:E; [|discriminate]. cbn [rbind] in H.
    eapply IH; [| |exact H].
    + intros a0 y a2 Hy. apply Hf. now right.
    + eapply Hf; [now left | exact Ha | exact E].
Qed.

Lemma collect_bullets_shape (lines : list str) (js : list nat) :
  forall bullets out,
    collect_bullets lines js bullets = Ok out ->
    exists found, out = bullets ++ found
                  /\ List.length found <= List.length js
                  /\ Forall (fun b => strip b = b) found.
Proof.
  induction js as [|j js IH]; intros bullets out H; cbn [collect_bullets] in H.
  - injection H as <-. exists []. rewrite app_nil_r.
    split; [reflexivity|]. split; [cbn [List.length]; lia | constructor].
  - destruct (item lines j) as [line|e] eqn:El; [|discriminate]. cbn [rbind] in H.
    destruct (rmatch NOFLAGS bullet_line (strip line)) as [m|].
    + unfold group1_strip in H. destruct (group1 m) as [g|]; [|discriminate].
      cbn [rbind] in H. apply IH in H. destruct H as (found & -> & Hl & Hs).
      exists (strip g :: found). rewrite <- app_assoc. split; [reflexivity|].
      split; [cbn [List.length]; lia|]. constructor; [apply strip_idem | exact Hs].
    + destruct (nonempty (strip line)
                && negb (is_some (rmatch NOFLAGS capital_start (strip line))))%bool.
      * injection H as <-. exists []. rewrite app_nil_r.
        split; [reflexivity|]. split; [cbn [List.length]; lia | constructor].
      * apply IH in H. destruct H as (found & -> & Hl & Hs).
        exists found. split; [reflexivity|]. split; [cbn [List.length]; lia | exact Hs].
Qed.

Lemma range_short (i n : nat) :
  List.length (range (i + 1) (Nat.min (i + 20) n)) <= 19.
Proof. unfold range. rewrite length_seq. lia. Qed.

Lemma header_step_inv (lines : list str) (i : nat) (line_stripped : str)
    (st st' : structure_info) (pattern : re) :
  header_step lines i line_stripped st pattern = Ok st' ->
  (List.length (responsibilities st) + List.length (requirements st)
   <= 19 * List.length (sections st) ->
   List.length (responsibilities st') + List.length (requirements st')
   <= 19 * List.length (sections st'))
  /\ List.length (sections st') <= S (List.length (sections st))
  /\ (Forall (fun x => strip x = x)
        (sections st ++ responsibilities st ++ requirements st) ->
      Forall (fun x => strip x = x)
        (sections st' ++ responsibilities st' ++ requirements st')).
Proof.
  unfold header_step. intros H.
  destruct (rmatch NOFLAGS pattern line_stripped) as [m|].
  2:{ injection H as <-. split; [auto|]. split; [lia | auto]. }
  unfold group1_strip in H. destruct (group1 m) as [g|]; [|discriminate].
  cbn [rbind] in H.
  pose proof (range_short i (List.length lines)) as Hr.
  destruct (contains (py "responsibilit") (lower (strip g))
            || contains (py "what you") (lower (strip g)))%bool.
  - destruct (collect_bullets lines _ []) as [bullets|e] eqn:Eb; [|discriminate].
    cbn [rbind] in H. injection H as <-.
    apply collect_bullets_shape in Eb. destruct Eb as (found & -> & Hl & Hs).
    cbn [app sections responsibilities requirements].
    rewrite !length_app. cbn [List.length]. split; [lia|]. split; [lia|].
    intros Hf. rewrite !Forall_app in *. destruct Hf as (F1 & F2 & F3).
    repeat split; auto; constructor; [apply strip_idem | constructor].
  - destruct (contains (py "requirement") (lower (strip g))
              || contains (py "about you") (lower (strip g))
              || contains (py "qualification") (lower (strip g)))%bool.
    + destruct (collect_bullets lines _ []) as [bullets|e] eqn:Eb; [|discriminate].
      cbn [rbind] in H. injection H as <-.
      apply collect_bullets_shape in Eb. destruct Eb as (found & -> & Hl & Hs).
      cbn [app sections responsibilities requirements].
      rewrite !length_app. cbn [List.length]. split; [lia|]. split; [lia|].
      intros Hf. rewrite !Forall_app in *. destruct Hf as (F1 & F2 & F3).
      repeat split; auto; constructor; [apply strip_idem | constructor].
    + injection H as <-. cbn [sections responsibilities requirements].
      rewrite !length_app. cbn [List.length]. split; [lia|]. split; [lia|].
      intros Hf. rewrite !Forall_app in *. destruct Hf as (F1 & F2 & F3).
      repeat split; auto; constructor; [apply strip_idem | constructor].
Qed.

(** [analyze_structure] returns, without raising, three lists.  A header
    line brings at most 19 bullets with it, so the responsibilities and the
    requirements together are at most 19 times the sections; and no entry of
    the three lists has white space at its ends. *)
Theorem analyze_structure_bounds (self : parser) :
  exists st,
    analyze_structure self = Ok st
    /\ List.length (responsibilities st) + List.length (requirements st)
       <= 19 * List.length (sections st)
    /\ Forall (fun x => strip x = x)
         (sections st ++ responsibilities st ++ requirements st).
Proof.
  destruct (analyze_structure_ok self) as (st & E & _). exists st. split; [exact E|].
  unfold analyze_structure in E.
  set (lines := split_on 10 (jd_text self)) in *.
  set (P := fun st : structure_info =>
              List.length (responsibilities st) + List.length (requirements st)
              <= 19 * List.length (sections st)
              /\ Forall (fun x => strip x = x)
                   (sections st ++ responsibilities st ++ requirements st)).
  change (P st).
  eapply (fold_result_inv _ P); [| |exact E].
  - intros a il a' _ Ha Hstep. revert Ha Hstep. cbv beta.
    apply (fold_result_inv _ P).
    intros a0 p a1 _ [H1 H2] Hs. apply header_step_inv in Hs.
    destruct Hs as (S1 & _ & S3). split; auto.
  - split; [cbn; lia | constructor].
Qed.

(** ** The extractor and the matcher *)

Lemma match_at_word_list (f : flags) (names : list String.string) (p : nat)
    (pv : option char) (rs : str) (m : match_obj) (e : mstate) :
  names <> [] ->
  match_at f (word_list names) p pv rs = Some (m, e) ->
  at_boundary (start_state p pv rs) = true
  /\ exists w, In w names
               /\ lit_starts (ignorecase f) (py w) rs = true
               /\ at_boundary (consume (List.length (py w)) (start_state p pv rs)) = true
               /\ group0 m = firstn (List.length (py w)) rs.
Proof.
  intros Hn H. unfold match_at, word_list in H. cbn [run] in H.
  destruct (at_boundary (start_state p pv rs)) eqn:Eb; [|discriminate].
  split; [reflexivity|].
  destruct (run f (alts _) _ _) as [e'|] eqn:Er; [|discriminate].
  injection H as <- <-.
  rewrite <- (map_map (fun w => py w) lit) in Er.
  apply run_alts_lit in Er; [|destruct names; [congruence | discriminate]].
  destruct Er as (w0 & Hw & Hs & Hk). apply in_map_iff in Hw.
  destruct Hw as (w & <- & Hw). exists w. split; [exact Hw|].
  cbn [rest start_state] in Hs. split; [exact Hs|].
  set (c := consume (List.length (py w)) (start_state p pv rs)) in *.
  assert (Hb : at_boundary c = true).
  { unfold at_boundary in *. cbn [prev rest] in Hk.
    destruct (xorb (is_word_opt (prev c)) (is_word_opt (hd_error (rest c))));
      [reflexivity | discriminate]. }
  split; [exact Hb|].
  unfold at_boundary in Hk. cbn [prev rest] in Hk. unfold at_boundary in Hb.
  rewrite Hb in Hk. injection Hk as <-. cbn [group0 pos].
  unfold c. rewrite consume_pos
    by (cbn [rest start_state]; eapply lit_starts_length; exact Hs).
  cbn [pos start_state]. f_equal. lia.
Qed.

Lemma skill_names_stripped :
  Forall (fun w : String.string => strip (lower (py w)) = lower (py w))
         (flat_map snd skill_table).
Proof. repeat constructor. Qed.

(** A skill the extractor finds in a text is a keyword the matcher finds in
    that text. *)
Lemma extracted_skill_found (text : str) (spacy : option (list token))
    (jd : list (str * list str)) (s : str) :
  In s (extract_technical_skills (JobDescriptionParser.init text spacy)) ->
  KeywordMatcher.keyword_found (KeywordMatcher.init text jd)
    (KeywordMatcher.normalize s) = true.
Proof.
  unfold extract_technical_skills. cbn [jd_text JobDescriptionParser.init]. intros Hs.
  apply (Permutation_in _ (sorted_permutation _)) in Hs.
  destruct (skills_set text SKILL_PATTERNS []) as [_ Hin]. cbv zeta in Hin.
  apply Hin in Hs. destruct Hs as [[]|(entry & m & He & Hm & <-)].
  rewrite SKILL_PATTERNS_table in He. apply in_map_iff in He.
  destruct He as (row & <- & Hrow). cbn [snd] in Hm.
  apply finditer_match in Hm. destruct Hm as (before & rs & e & -> & Hm).
  apply match_at_word_list in Hm.
  2:{ unfold skill_table in Hrow. cbn [In] in Hrow.
      repeat (destruct Hrow as [<-|Hrow]; [discriminate|]). contradiction. }
  destruct Hm as (Hb & w & Hw & Hl & Hb' & ->).
  cbn [ignorecase IGNORECASE] in Hl.
  pose proof (lit_starts_firstn _ _ _ Hl) as [Hlen Hl'].
  assert (Elow : lower (firstn (List.length (py w)) rs) = lower (py w))
    by now apply lit_starts_lower.
  assert (Ek : KeywordMatcher.normalize (firstn (List.length (py w)) rs) = lower (py w)).
  { unfold KeywordMatcher.normalize. rewrite Elow.
    pose proof skill_names_stripped as Hst. rewrite Forall_forall in Hst.
    apply Hst. apply in_flat_map. now exists row. }
  rewrite Ek. unfold KeywordMatcher.keyword_found, search.
  cbn [KeywordMatcher.cv_text KeywordMatcher.init].
  assert (Elt : lower (before ++ rs) = lower before ++ lower rs)
    by (unfold lower; apply map_app).
  rewrite Elt.
  assert (Hfound : is_some (search_at IGNORECASE
                              (KeywordMatcher.keyword_pattern (lower (py w)))
                              0 None (lower before ++ lower rs)) = true).
  { apply search_at_reaches.
    change (@None char) with (option_map lower_char (@None char)).
    rewrite last_of_lower, KeywordMatcherFacts.keyword_match_at.
    pose proof (lit_starts_length _ _ _ Hl) as Hle.
    assert (B1 : at_boundary
                   (start_state (0 + List.length (lower before))
                      (option_map lower_char (last_of before None)) (lower rs)) = true).
    { rewrite <- Hb.
      apply (at_boundary_consume_lower 0 (List.length before)
               (0 + List.length (lower before)) (last_of before None) rs). lia. }
    assert (B2 : at_boundary
                   (consume (List.length (lower (py w)))
                      (start_state (0 + List.length (lower before))
                         (option_map lower_char (last_of before None)) (lower rs)))
                 = true).
    { rewrite <- Hb'.
      replace (List.length (lower (py w))) with (List.length (py w))
        by (unfold lower; now rewrite length_map).
      apply at_boundary_consume_lower. exact Hle. }
    rewrite B1, B2, lit_starts_lower_both, Hl. reflexivity. }
  destruct (search_at IGNORECASE _ 0 None (lower before ++ lower rs));
    [reflexivity | discriminate].
Qed.

Lemma filter_none {A : Type} (p : A -> bool) (l : list A) :
  (forall x, In x l -> p x = false) -> filter p l = [].
Proof.
  induction l as [|a l IH]; intros H; [reflexivity|]. cbn [filter].
  rewrite (H a (or_introl eq_refl)). apply IH. intros x Hx. apply H. now right.
Qed.

(** A posting written in ASCII, taken as the text of a CV, matches all of
    its own technical skills: with the skills the extractor finds in the
    text as the keywords, the report on that text has no missing keyword,
    and every keyword is matched. *)
Theorem posting_matches_own_skills (text : str) (spacy : option (list token))
    (category : str) :
  isascii text = true ->
  let skills := extract_technical_skills (JobDescriptionParser.init text spacy) in
  let r := KeywordMatcher.calculate_match_percentage
             (KeywordMatcher.init text [(category, skills)]) in
  KeywordMatcher.missing_keywords r = 0
  /\ KeywordMatcher.missing_keywords_list r = []
  /\ KeywordMatcher.matched_keywords r = KeywordMatcher.total_keywords r.
Proof.
  intros _. cbv zeta.
  set (skills := extract_technical_skills (JobDescriptionParser.init text spacy)).
  set (self := KeywordMatcher.init text [(category, skills)]).
  destruct (KeywordMatcherFacts.report_counts self) as (Ht & Hm & Hx & Hl & _).
  cbv zeta in *.
  assert (Hnone : filter (fun k => negb (KeywordMatcher.keyword_found self k))
                    (KeywordMatcher.collect_keywords (KeywordMatcher.jd_keywords self))
                  = []).
  { apply filter_none. intros k Hk. apply KeywordMatcherFacts.collect_keywords_In in Hk.
    unfold KeywordMatcher.listed_keywords, self in Hk.
    cbn [KeywordMatcher.jd_keywords KeywordMatcher.init flat_map snd] in Hk.
    rewrite app_nil_r in Hk. apply in_map_iff in Hk. destruct Hk as (s0 & <- & Hs0).
    apply filter_In in Hs0. destruct Hs0 as [Hs0 _].
    unfold self. rewrite (extracted_skill_found text spacy _ s0 Hs0). reflexivity. }
  rewrite Hx, Hl, Hm, Ht, Hnone. split; [reflexivity|]. split; [reflexivity|].
  pose proof (KeywordMatcherFacts.filter_split_length
                (KeywordMatcher.keyword_found self)
                (KeywordMatcher.collect_keywords (KeywordMatcher.jd_keywords self))) as Hs.
  rewrite Hnone in Hs. cbn [List.length] in Hs. lia.
Qed.

(** A posting that names two skills. *)
Lemma posting_matches_own_skills_witness :
  isascii (py "We use Python and SQL daily") = true
  /\ extract_technical_skills
       (JobDescriptionParser.init (py "We use Python and SQL daily") None)
     = [py "Python"; py "SQL"]
  /\ KeywordMatcher.missing_keywords
       (KeywordMatcher.calculate_match_percentage
          (KeywordMatcher.init (py "We use Python and SQL daily")
             [(py "technical_skills",
               extract_technical_skills
                 (JobDescriptionParser.init (py "We use Python and SQL daily") None))]))
     = 0.
Proof.
  split; [reflexivity|]. split; [vm_compute; reflexivity|].
  apply (posting_matches_own_skills (py "We use Python and SQL daily") None
           (py "technical_skills")).
  reflexivity.
Defined.

End JDExtractionFacts.

(* ===================================================================== *)
(** * Facts about the detector of ATS systems *)
(* ===================================================================== *)

Module DetectorFacts.

Import ATSSystemDetector StrFacts SetFacts.
Unset Implicit Arguments.

Lemma scan_first (field : config -> option (list str)) (text : str) (table : signatures)
    (name : str) :
  scan field text table = Some name ->
  exists before cfg after,
    table = before ++ (name, cfg) :: after
    /\ occurs_in field text (name, cfg) = true
    /\ forallb (fun e => negb (occurs_in field text e)) before = true.
Proof.
  induction table as [|[k cfg] table IH]; cbn [scan]; [discriminate|].
  destruct (existsb _ (get_list (field cfg))) eqn:E.
  - intros H. injection H as <-. exists [], cfg, table. repeat split. exact E.
  - intros H. apply IH in H. destruct H as (before & cfg' & after & -> & Ho & Hb).
    exists ((k, cfg) :: before), cfg', after. split; [reflexivity|]. split; [exact Ho|].
    cbn [forallb]. unfold occurs_in at 1. cbn [snd]. rewrite E. exact Hb.
Qed.

Lemma scan_none (field : config -> option (list str)) (text : str) (table : signatures) :
  scan field text table = None
  <-> forallb (fun e => negb (occurs_in field text e)) table = true.
Proof.
  induction table as [|[k cfg] table IH]; cbn [scan forallb]; [tauto|].
  unfold occurs_in at 1. cbn [snd].
  destruct (existsb _ (get_list (field cfg))); cbn [negb andb]; [|exact IH].
  split; discriminate.
Qed.

Lemma detect_ats_searched (table : signatures) (url html : option str) :
  detect_ats table url html
  = match match searched url with
          | Some u => scan url_patterns u table
          | None => None
          end with
    | Some name => Some name
    | None => match searched html with
              | Some h => scan html_signatures h table
              | None => None
              end
    end.
Proof.
  unfold detect_ats, searched.
  destruct url as [[|c u]|]; destruct html as [[|c' h]|]; reflexivity.
Qed.

(** [detect_ats] on any table of signatures.  The URL is looked at first:
    the answer is that for the URL alone where there is one, and otherwise
    that for the HTML alone.  An answer names the first system of the table,
    in its order, one of whose patterns occurs in the lower-cased text; there
    is no answer exactly when no URL pattern of any system occurs in the
    lower-cased URL and no HTML signature in the lower-cased HTML (a missing
    or empty argument is not searched). *)
Theorem detect_ats_first_match (table : signatures) (url html : option str) :
  detect_ats table url html
  = match detect_ats table url None with
    | Some name => Some name
    | None => detect_ats table None html
    end
  /\ (forall name,
        detect_ats table url html = Some name ->
        exists before cfg after text field,
          table = before ++ (name, cfg) :: after
          /\ ((searched url = Some text /\ field = url_patterns)
              \/ (searched html = Some text /\ field = html_signatures))
          /\ occurs_in field text (name, cfg) = true
          /\ forallb (fun e => negb (occurs_in field text e)) before = true)
  /\ (detect_ats table url html = None
      <-> (forall u, searched url = Some u ->
                     forallb (fun e => negb (occurs_in url_patterns u e)) table = true)
          /\ (forall h, searched html = Some h ->
                        forallb (fun e => negb (occurs_in html_signatures h e)) table
                        = true)).
Proof.
  rewrite !detect_ats_searched. cbn [searched].
  split; [|split].
  - destruct (searched url) as [u|]; [|reflexivity].
    destruct (scan url_patterns u table); reflexivity.
  - intros name H.
    destruct (searched url) as [u|] eqn:Eu.
    + destruct (scan url_patterns u table) as [n|] eqn:Es.
      * injection H as ->. apply scan_first in Es.
        destruct Es as (before & cfg & after & Ht & Ho & Hb).
        exists before, cfg, after, u, url_patterns. repeat split; auto.
      * destruct (searched html) as [h|]; [|discriminate].
        apply scan_first in H. destruct H as (before & cfg & after & Ht & Ho & Hb).
        exists before, cfg, after, h, html_signatures. repeat split; auto.
    + destruct (searched html) as [h|]; [|discriminate].
      apply scan_first in H. destruct H as (before & cfg & after & Ht & Ho & Hb).
      exists before, cfg, after, h, html_signatures. repeat split; auto.
  - destruct (searched url) as [u|]; destruct (searched html) as [h|].
    + destruct (scan url_patterns u table) as [n|] eqn:Es.
      * split; [discriminate|]. intros [H _]. specialize (H u eq_refl).
        apply scan_none in H. congruence.
      * rewrite scan_none. apply scan_none in Es. split.
        -- intros H. split; intros x Hx; injection Hx as <-; assumption.
        -- intros [_ H]. now apply H.
    + destruct (scan url_patterns u table) as [n|] eqn:Es.
      * split; [discriminate|]. intros [H _]. specialize (H u eq_refl).
        apply scan_none in H. congruence.
      * apply scan_none in Es. split; [|reflexivity].
        intros _. split; [intros x Hx; injection Hx as <-; assumption | discriminate].
    + rewrite scan_none. split.
      * intros H. split; [discriminate | intros x Hx; injection Hx as <-; assumption].
      * intros [_ H]. now apply H.
    + split; [|reflexivity]. intros _. split; discriminate.
Qed.

(** With the built-in signatures, an application URL that contains
    [greenhouse.io], in whatever letter case, is detected as greenhouse,
    whatever the HTML. *)
Lemma greenhouse_url_detected (url : str) (html : option str) :
  contains (py "greenhouse.io") (lower url) = true ->
  detect_ats ATS_SIGNATURES (Some url) html = Some (py "greenhouse").
Proof.
  intros H. destruct url as [|c u]; [discriminate|].
  unfold detect_ats, ATS_SIGNATURES. cbn [scan url_patterns get_list existsb].
  rewrite H. reflexivity.
Qed.

Lemma greenhouse_url_detected_witness :
  contains (py "greenhouse.io") (lower (py "https://boards.Greenhouse.io/acme/jobs/42"))
  = true
  /\ detect_ats ATS_SIGNATURES (Some (py "https://boards.Greenhouse.io/acme/jobs/42"))
       (Some (py "<div class='lever-form'>"))
     = Some (py "greenhouse").
Proof.
  split; [reflexivity|].
  apply (greenhouse_url_detected (py "https://boards.Greenhouse.io/acme/jobs/42")
           (Some (py "<div class='lever-form'>"))).
  reflexivity.
Defined.

Lemma update_system_names (table : signatures) (system : str) (new : config) :
  map fst (update_system table system new) = map fst table.
Proof.
  induction table as [|[k cfg] table IH]; [reflexivity|].
  cbn [update_system]. destruct (str_eqb k system); cbn [map fst]; [reflexivity|].
  now rewrite IH.
Qed.

(** Merging a rules file never adds a system, removes one or changes the
    order of the table: after [__init__] the systems are those before it.
    A rules file that names only systems the table does not have, like a
    rules file that is missing, leaves the table as it is. *)
Theorem init_keeps_systems (rules_file : option (option (list (str * config))))
    (table : signatures) :
  get_all_systems (init rules_file table) = get_all_systems table
  /\ (forall systems,
        rules_file = Some (Some systems) ->
        Forall (fun entry : str * config => ~ In (fst entry) (get_all_systems table))
               systems ->
        init rules_file table = table).
Proof.
  unfold get_all_systems. split.
  - destruct rules_file as [[systems|]|]; try reflexivity. cbn [init].
    revert table. induction systems as [|[system new] systems IH]; intros table;
      [reflexivity|].
    cbn [fold_left fst snd]. rewrite IH.
    destruct (mem system (map fst table)); [apply update_system_names | reflexivity].
  - intros systems -> H. cbn [init].
    induction H as [|[system new] systems Hs _ IH]; [reflexivity|].
    cbn [fold_left fst snd]. cbn [fst] in Hs.
    apply mem_false_not_In in Hs. rewrite Hs. exact IH.
Qed.

(** ** Detection and tips *)

Lemma scan_lookup (field : config -> option (list str)) (text : str) (table : signatures)
    (name : str) :
  scan field text table = Some name -> exists cfg, lookup table name = Some cfg.
Proof.
  induction table as [|[k cfg] table IH]; cbn [scan lookup]; [discriminate|].
  destruct (existsb _ (get_list (field cfg))).
  - intros H. injection H as <-. rewrite str_eqb_refl. now exists cfg.
  - intros H. destruct (str_eqb k name); [now exists cfg | now apply IH].
Qed.

Lemma lookup_In (table : signatures) (name : str) (cfg : config) :
  lookup table name = Some cfg -> In (name, cfg) table.
Proof.
  induction table as [|[k c] table IH]; cbn [lookup]; [discriminate|].
  destruct (str_eqb k name) eqn:E.
  - intros H. injection H as <-. apply str_eqb_eq in E. subst. now left.
  - intros H. right. now apply IH.
Qed.

(** The tips asked for a system that [detect_ats] has detected, as the
    application does, are never the general ones for an unknown system:
    the detected name is a system of the table and the tips are those of
    its configuration. *)
Theorem detected_system_has_tips (table : signatures) (url html : option str)
    (name : str) :
  detect_ats table url html = Some name ->
  In name (get_all_systems table)
  /\ exists cfg,
       In (name, cfg) table
       /\ tips_focus (get_optimization_tips table name)
          = match focus cfg with Some f => f | None => py "General optimization" end
       /\ tips_list (get_optimization_tips table name) = get_list (tips cfg).
Proof.
  intros H. rewrite detect_ats_searched in H.
  assert (Hl : exists cfg, lookup table name = Some cfg).
  { destruct (searched url) as [u|].
    - destruct (scan url_patterns u table) as [n|] eqn:Es.
      + injection H as ->. eapply scan_lookup; eauto.
      + destruct (searched html) as [h|]; [|discriminate]. eapply scan_lookup; eauto.
    - destruct (searched html) as [h|]; [|discriminate]. eapply scan_lookup; eauto. }
  destruct Hl as (cfg & Hl). pose proof (lookup_In _ _ _ Hl) as Hin.
  split.
  - unfold get_all_systems. apply in_map_iff. now exists (name, cfg).
  - exists cfg. split; [exact Hin|]. unfold get_optimization_tips. rewrite Hl.
    split; reflexivity.
Qed.

Lemma detected_system_has_tips_witness :
  detect_ats ATS_SIGNATURES (Some (py "https://jobs.lever.co/acme/42")) None
  = Some (py "lever")
  /\ In (py "lever") (get_all_systems ATS_SIGNATURES)
  /\ exists cfg,
       In (py "lever", cfg) ATS_SIGNATURES
       /\ tips_focus (get_optimization_tips ATS_SIGNATURES (py "lever"))
          = match focus cfg with Some f => f | None => py "General optimization" end
       /\ tips_list (get_optimization_tips ATS_SIGNATURES (py "lever"))
          = get_list (tips cfg).
Proof.
  split; [reflexivity|].
  apply (detected_system_has_tips ATS_SIGNATURES
           (Some (py "https://jobs.lever.co/acme/42")) None (py "lever")).
  reflexivity.
Defined.

End DetectorFacts.

(* ===================================================================== *)
(** * The sections of [StructureAnalyzer] *)
(* ===================================================================== *)

Module StructureFacts.

Import Regex StrFacts RegexFacts JDParserFacts StructureAnalyzer.
Local Open Scope result_scope.
Unset Implicit Arguments.

Lemma first_header_ok (patterns : list re) (line_stripped : str) :
  forallb captures patterns = true ->
  exists header, first_header patterns line_stripped = Ok header.
Proof.
  induction patterns as [|p patterns IH]; intros Hc; cbn [first_header].
  - now exists None.
  - cbn [forallb] in Hc. apply andb_true_iff in Hc. destruct Hc as [Hp Hc].
    destruct (rmatch NOFLAGS p line_stripped) as [m|] eqn:Em; [|now apply IH].
    destruct (JDParserFacts.group1_strip_ok m) as (g & Eg).
    { eapply rmatch_group1; eauto. }
    rewrite Eg. cbn [rbind]. now eexists.
Qed.

Lemma tiles_snoc (done : list section_entry) (c : section_entry) (next : Z) :
  tiles (start_line c) done ->
  (0 <= start_line c <= end_line c)%Z ->
  (end_line c + 1)%Z = next ->
  tiles next (done ++ [c]).
Proof.
  intros Hd Hc Hn. induction done as [|a done IH]; cbn [app tiles].
  - split; [exact Hc|]. split; [exact Hn | exact I].
  - cbn [tiles] in Hd. destruct Hd as (H1 & H2 & H3).
    split; [exact H1|]. split; [|now apply IH].
    destruct done; exact H2.
Qed.

Lemma section_step_invariant (self : analyzer) (k : nat) (line : str)
    (st st' : list section_entry * option section_entry) :
  nth_error (lines self) k = Some line ->
  loop_invariant self k st ->
  section_step (List.length (lines self)) st (k, line) = Ok st' ->
  loop_invariant self (S k) st'.
Proof.
  unfold loop_invariant, sections_of.
  intros Hk (Hcur & Hall & Hcov) Hs. unfold section_step in Hs. cbn [fst snd] in Hs.
  assert (Hlt : k < List.length (lines self)).
  { apply nth_error_Some. congruence. }
  destruct (first_header header_patterns (strip line)) as [[nm|]|e] eqn:Eh;
    cbn [rbind] in Hs; [| |discriminate]; injection Hs as <-.
  - destruct st as [done [c|]]; cbn [fst snd] in *.
    + destruct Hcur as (Ht & Hc & He).
      assert (Hsplit : Forall (starts_at_header self) done /\ starts_at_header self c).
      { apply Forall_app in Hall. destruct Hall as [Hd Hc']. split; [exact Hd|].
        now inversion Hc'. }
      destruct Hsplit as [Hd Hc'].
      split; [|split].
      * split; [|split; [cbn [start_line]; lia | reflexivity]].
        apply tiles_snoc; cbn [start_line end_line]; [exact Ht | lia | lia].
      * apply Forall_app. split; [apply Forall_app; split; [exact Hd|]|].
        -- constructor; [|constructor].
           destruct Hc' as (i & l & H1 & H2 & H3 & H4). exists i, l. now cbn.
        -- constructor; [|constructor]. exists k, line. now cbn.
      * intros i l nm' Hi Hl Hn.
        destruct (Nat.eq_dec i k) as [->|Hne].
        -- rewrite Hk in Hl. injection Hl as <-. rewrite Eh in Hn. injection Hn as <-.
           eexists. split; [apply in_or_app; right; now left|]. now cbn.
        -- destruct (Hcov i l nm') as (s & Hin & Hs1 & Hs2); [lia | exact Hl | exact Hn|].
           apply in_app_or in Hin. destruct Hin as [Hin|[<-|[]]].
           ++ exists s. split; [|now split]. apply in_or_app. left. apply in_or_app. now left.
           ++ eexists. split; [apply in_or_app; left; apply in_or_app; right; now left|].
              now cbn.
    + subst done. cbn [app] in *. split; [|split].
      * split; [exact I|]. split; [cbn [start_line]; lia | reflexivity].
      * constructor; [|constructor]. exists k, line. now cbn.
      * intros i l nm' Hi Hl Hn.
        destruct (Nat.eq_dec i k) as [->|Hne].
        -- rewrite Hk in Hl. injection Hl as <-. rewrite Eh in Hn. injection Hn as <-.
           eexists. split; [now left|]. now cbn.
        -- destruct (Hcov i l nm') as (s & [] & _); [lia | exact Hl | exact Hn].
  - split; [|split].
    + destruct (snd st) as [c|]; [|exact Hcur].
      destruct Hcur as (Ht & Hc & He). split; [exact Ht|]. split; [lia | exact He].
    + exact Hall.
    + intros i l nm' Hi Hl Hn.
      destruct (Nat.eq_dec i k) as [->|Hne].
      * rewrite Hk in Hl. injection Hl as <-. rewrite Eh in Hn. discriminate.
      * apply (Hcov i l nm'); [lia | exact Hl | exact Hn].
Qed.

Lemma section_loop_invariant (self : analyzer) (ls : list str) :
  forall pre st,
    lines self = pre ++ ls ->
    loop_invariant self (List.length pre) st ->
    exists st',
      JobDescriptionParser.fold_result (section_step (List.length (lines self)))
        (combine (seq (List.length pre) (List.length ls)) ls) st = Ok st'
      /\ loop_invariant self (List.length (lines self)) st'.
Proof.
  induction ls as [|line ls IH]; intros pre st El Hi.
  - exists st. split; [reflexivity|]. rewrite El, app_nil_r. exact Hi.
  - cbn [List.length seq combine JobDescriptionParser.fold_result].
    assert (Hk : nth_error (lines self) (List.length pre) = Some line).
    { rewrite El, nth_error_app2 by lia. now rewrite Nat.sub_diag. }
    destruct (first_header_ok header_patterns (strip line)) as (h & Eh).
    { apply header_patterns_capture. }
    assert (Es : exists st1, section_step (List.length (lines self)) st
                               (List.length pre, line) = Ok st1).
    { unfold section_step. cbn [fst snd]. rewrite Eh. cbn [rbind].
      destruct h; now eexists. }
    destruct Es as (st1 & Es). rewrite Es. cbn [rbind].
    pose proof (section_step_invariant self _ line st st1 Hk Hi Es) as Hi1.
    specialize (IH (pre ++ [line]) st1).
    rewrite length_app in IH. cbn [List.length] in IH.
    replace (List.length pre + 1) with (S (List.length pre)) in IH by lia.
    apply IH; [|exact Hi1]. rewrite El, <- app_assoc. reflexivity.
Qed.

(** [identify_sections] returns, without raising, sections that tile the
    text from the first header line to the last line: each section starts
    at a header line, of which it has the name, and ends right before the
    next section starts, the last one at the last line; and every header
    line starts a section. *)
Theorem identify_sections_tile (self : analyzer) :
  exists secs,
    identify_sections self = Ok secs
    /\ tiles (Z.of_nat (List.length (lines self))) secs
    /\ Forall (starts_at_header self) secs
    /\ (forall i line name0,
          nth_error (lines self) i = Some line ->
          first_header header_patterns (strip line) = Ok (Some name0) ->
          exists s, In s secs /\ start_line s = Z.of_nat i /\ name s = name0).
Proof.
  unfold identify_sections, JobDescriptionParser.enumerate.
  destruct (section_loop_invariant self (lines self) [] ([], None)) as (st & Es & Hi).
  - reflexivity.
  - split; [reflexivity|]. split; [constructor|]. intros i line nm Hi. cbn in Hi. lia.
  - cbn [List.length] in Es. rewrite Es. cbn [rbind].
    destruct Hi as (Hcur & Hall & Hcov). eexists. split; [reflexivity|].
    assert (E : match snd st with
                | Some current => fst st ++ [current]
                | None => fst st
                end = sections_of st).
    { unfold sections_of. destruct (snd st); [reflexivity|]. now rewrite app_nil_r. }
    rewrite E. split; [|split].
    + unfold sections_of. destruct (snd st) as [c|].
      * destruct Hcur as (Ht & Hc & He). apply tiles_snoc; [exact Ht | lia | lia].
      * rewrite Hcur. exact I.
    + exact Hall.
    + intros i line nm Hl Hn. apply (Hcov i line nm); [|exact Hl | exact Hn].
      apply nth_error_Some. congruence.
Qed.

End StructureFacts.
